(** * RISC-V simulator: parser, decoder, executor and step/run controller

    A shallow embedding of the JavaScript back end
    ([backend/utils/parser.js], [backend/utils/decoder.js],
    [backend/utils/executor.js], the [Simulator] model class and the
    simulator controller), followed by the properties of the
    specification stated and settled against it.

    JavaScript numbers are modelled as [Z]: every number the back end
    computes with is an integer of magnitude far below 2^53, where the
    double-precision arithmetic of JavaScript is exact.  The 32-bit
    conversions that the bit operators perform are written out. *)

From Stdlib Require Import ZArith String Ascii List Lia Bool.
From stdpp Require Import base option list gmap strings.

Local Open Scope Z_scope.

(** ** JavaScript integer operators *)

Module JS.

(** [ToInt32]: reduce modulo 2^32, then read the result as signed. *)
Definition toInt32 (x : Z) : Z :=
  let m := x mod 2 ^ 32 in
  if m <? 2 ^ 31 then m else m - 2 ^ 32.

(** [ToUint32]: reduce modulo 2^32. *)
Definition toUint32 (x : Z) : Z := x mod 2 ^ 32.

(** [a | b], [a & b], [a ^ b], [~a] *)
Definition bor (a b : Z) : Z := Z.lor (toInt32 a) (toInt32 b).
Definition band (a b : Z) : Z := Z.land (toInt32 a) (toInt32 b).
Definition bxor (a b : Z) : Z := Z.lxor (toInt32 a) (toInt32 b).
Definition bnot (a : Z) : Z := Z.lnot (toInt32 a).

(** The shift count of [<<], [>>] and [>>>] is taken modulo 32. *)
Definition shiftCount (n : Z) : Z := Z.land (toUint32 n) 31.

(** [a << n], [a >> n] (sign-propagating), [a >>> n] (zero-filling) *)
Definition shl (a n : Z) : Z := toInt32 (Z.shiftl (toInt32 a) (shiftCount n)).
Definition sar (a n : Z) : Z := Z.shiftr (toInt32 a) (shiftCount n).
Definition shr (a n : Z) : Z := Z.shiftr (toUint32 a) (shiftCount n).

(** [a % b]: the remainder has the sign of the dividend. *)
Definition rem (a b : Z) : Z := Z.rem a b.

(** [Math.floor(a / b)] for a positive power of two [b]. *)
Definition floorDiv (a b : Z) : Z := a / b.

(** [x || 0] on a number *)
Definition orZero (x : Z) : Z := if x =? 0 then 0 else x.

End JS.

(** ** JavaScript arrays of numbers

    An array is its own properties together with its [length].  A
    property whose key is a non-negative integer is an element (the
    keys that occur are 32-bit addresses and register numbers, all
    below the largest array index 2^32 - 2);
    assigning an element at or beyond [length] extends the array (the
    elements in between stay holes), and assigning at a negative key
    adds an ordinary property that reads back under that key and does
    not touch [length].  A hole, [undefined] and (after a trip through
    JSON) [null] are all represented by the absence of the key: the
    back end reads elements through [|| 0] only, which does not tell
    them apart. *)

Record JSArray := mkArray { elems : gmap Z Z; len : Z }.

Module Arr.

(** [a[i]] *)
Definition get (a : JSArray) (i : Z) : option Z := elems a !! i.

(** [a[i] || 0] *)
Definition getOr0 (a : JSArray) (i : Z) : Z :=
  match get a i with
  | Some v => JS.orZero v
  | None => 0
  end.

(** [a[i] = v] *)
Definition set (a : JSArray) (i v : Z) : JSArray :=
  {| elems := <[i := v]> (elems a);
     len := if 0 <=? i then Z.max (len a) (i + 1) else len a |}.

(** [new Array(n).fill(v)] *)
Fixpoint fillFrom (n : nat) (v : Z) : gmap Z Z :=
  match n with
  | O => ∅
  | S k => <[Z.of_nat k := v]> (fillFrom k v)
  end.

Definition fill (n : nat) (v : Z) : JSArray :=
  {| elems := fillFrom n v; len := Z.of_nat n |}.

(** [a.slice(0, n)]: a fresh array holding the elements (holes
    included) at the indices below [n] and below [a.length]. *)
Definition slice0 (n : Z) (a : JSArray) : JSArray :=
  let m := Z.max 0 (Z.min n (len a)) in
  {| elems := filter (λ kv, 0 <= kv.1 < m) (elems a); len := m |}.

(** What JSON carries of an array: its elements, not its other
    properties. *)
Definition toJSON (a : JSArray) : JSArray :=
  {| elems := filter (λ kv, 0 <= kv.1 < len a) (elems a); len := len a |}.

End Arr.

(** ** Opcodes, formats and errors *)

(** The mnemonics of [Parser.instructionFormats] and [Decoder.opcodes]. *)
Inductive Opcode :=
| ADD | SUB | SLL | SLT | SLTU | XOR | SRL | SRA | OR | AND
| ADDI | SLTI | SLTIU | XORI | ORI | ANDI | SLLI | SRLI | SRAI
| LB | LH | LW | LBU | LHU
| SB | SH | SW
| BEQ | BNE | BLT | BGE | BLTU | BGEU
| JAL | JALR
| LUI | AUIPC
| HLT.

Global Instance Opcode_eq_dec : EqDecision Opcode.
Proof. solve_decision. Defined.

(** The format classes; the prefix keeps them apart from the
    mnemonics [SB] and [JALR]. *)
Inductive Format :=
| F_R | F_I | F_IL | F_S | F_SB | F_UJ | F_JALR | F_U | F_HLT.

Global Instance Format_eq_dec : EqDecision Format.
Proof. solve_decision. Defined.

(** The errors the back end throws, one constructor per message. *)
Inductive Error :=
(* parser.js *)
| EmptyInstruction
| UnknownInstruction (mnemonic : string)
| RequiresOperands (op : Opcode) (what : string)
| InvalidFormat (op : Opcode)
| InvalidRegisterName (name : string)
| InvalidImmediate (text : string)
| ImmediateOutOfRange (value bits minValue maxValue : Z)
| AtLine (lineNum : Z) (cause : Error)
(* decoder.js *)
| MissingOpcode
| MissingOperands (op : Opcode)
| ShiftAmountOutOfRange (op : Opcode)
| BranchOffsetOdd (op : Opcode)
| JumpOffsetOdd (op : Opcode)
| InvalidRegisterNumber (field : string) (reg : Z)
(* Simulator.js *)
| InvalidRegister (reg : Z)
| MemoryAccessViolation (address : Z)
| UnalignedHalfWord (address : Z)
| UnalignedWord (address : Z)
(* raised by the runtime in the controller *)
| TypeErrorLengthOfUndefined
(* raised by the runtime in the parser:
   [this.labels.hasOwnProperty is not a function] *)
| TypeErrorHasOwnProperty.

(** ** Results of fallible calls *)

(** A call returns, throws, or computes with a value the model has no
    number for ([undefined] where a number is expected: an operand the
    decoded instruction does not carry, a register the state does not
    hold).  JavaScript carries on with [undefined] or [NaN] there; the
    model stops with [Undef].  [decode_execute_defined] below shows that
    this does not happen for a decoded instruction on a state with 32
    registers. *)
Inductive Result (A : Type) :=
| Ok (a : A)
| Throw (e : Error)
| Undef.
Arguments Ok {A} a.
Arguments Throw {A} e.
Arguments Undef {A}.

Global Instance Result_ret : MRet Result := λ A a, Ok a.
Global Instance Result_bind : MBind Result := λ A B f m,
  match m with
  | Ok a => f a
  | Throw e => Throw e
  | Undef => Undef
  end.

(** Reading a property that has to hold a number. *)
Definition defined {A} (o : option A) : Result A :=
  match o with
  | Some a => Ok a
  | None => Undef
  end.

(** ** Instruction records (parser output) *)

Record Instruction := mkInstruction {
  i_opcode : Opcode;
  i_format : Format;
  i_index : Z;
  i_lineNum : Z;
  i_original : string;
  i_rd : option Z;
  i_rs1 : option Z;
  i_rs2 : option Z;
  i_imm : option Z;
  i_label : option string
}.

(** ** Decoder ([decoder.js]) *)

Record Decoded := mkDecoded {
  d_opcode : Opcode;
  d_type : Format;
  d_format : Format;
  d_index : Z;
  d_lineNum : Z;
  d_original : string;
  d_rd : option Z;
  d_rs1 : option Z;
  d_rs2 : option Z;
  d_imm : option Z;
  d_shamt : option Z;
  d_label : option string
}.

Module Decoder.

(** [this.opcodes[opcode].type] *)
Definition opcodes (op : Opcode) : Format :=
  match op with
  | ADD | SUB | SLL | SLT | SLTU | XOR | SRL | SRA | OR | AND => F_R
  | ADDI | SLTI | SLTIU | XORI | ORI | ANDI | SLLI | SRLI | SRAI => F_I
  | LB | LH | LW | LBU | LHU => F_IL
  | SB | SH | SW => F_S
  | BEQ | BNE | BLT | BGE | BLTU | BGEU => F_SB
  | JAL => F_UJ
  | JALR => F_JALR
  | LUI | AUIPC => F_U
  | HLT => F_HLT
  end.

(** [validateRegister(reg, name)] *)
Definition validateRegister (reg : Z) (name : string) : Result unit :=
  if (reg <? 0) || (31 <? reg) then Throw (InvalidRegisterNumber name reg)
  else Ok tt.

(** [signExtend(value, bits)] *)
Definition signExtend (value bits : Z) : Z :=
  let signBit := JS.shl 1 (bits - 1) in
  if negb (JS.band value signBit =? 0) then
    let mask := JS.shl (-1) bits in
    JS.bor value mask
  else
    let mask := JS.shl 1 bits - 1 in
    JS.band value mask.

Definition base (i : Instruction) : Decoded :=
  {| d_opcode := i_opcode i; d_type := opcodes (i_opcode i);
     d_format := i_format i; d_index := i_index i;
     d_lineNum := i_lineNum i; d_original := i_original i;
     d_rd := None; d_rs1 := None; d_rs2 := None; d_imm := None;
     d_shamt := None; d_label := None |}.

Definition with_rd (v : Z) (d : Decoded) : Decoded :=
  mkDecoded (d_opcode d) (d_type d) (d_format d) (d_index d) (d_lineNum d)
    (d_original d) (Some v) (d_rs1 d) (d_rs2 d) (d_imm d) (d_shamt d) (d_label d).
Definition with_rs1 (v : Z) (d : Decoded) : Decoded :=
  mkDecoded (d_opcode d) (d_type d) (d_format d) (d_index d) (d_lineNum d)
    (d_original d) (d_rd d) (Some v) (d_rs2 d) (d_imm d) (d_shamt d) (d_label d).
Definition with_rs2 (v : Z) (d : Decoded) : Decoded :=
  mkDecoded (d_opcode d) (d_type d) (d_format d) (d_index d) (d_lineNum d)
    (d_original d) (d_rd d) (d_rs1 d) (Some v) (d_imm d) (d_shamt d) (d_label d).
Definition with_imm (v : Z) (d : Decoded) : Decoded :=
  mkDecoded (d_opcode d) (d_type d) (d_format d) (d_index d) (d_lineNum d)
    (d_original d) (d_rd d) (d_rs1 d) (d_rs2 d) (Some v) (d_shamt d) (d_label d).
Definition with_shamt (v : Z) (d : Decoded) : Decoded :=
  mkDecoded (d_opcode d) (d_type d) (d_format d) (d_index d) (d_lineNum d)
    (d_original d) (d_rd d) (d_rs1 d) (d_rs2 d) (d_imm d) (Some v) (d_label d).
Definition with_label (v : string) (d : Decoded) : Decoded :=
  mkDecoded (d_opcode d) (d_type d) (d_format d) (d_index d) (d_lineNum d)
    (d_original d) (d_rd d) (d_rs1 d) (d_rs2 d) (d_imm d) (d_shamt d) (Some v).

(** [if (instruction.label) decoded.label = instruction.label]: the
    empty string is falsy. *)
Definition copy_label (i : Instruction) (d : Decoded) : Decoded :=
  match i_label i with
  | Some l => if String.eqb l "" then d else with_label l d
  | None => d
  end.

Definition decodeRFormat (i : Instruction) (d : Decoded) : Result Decoded :=
  match i_rd i, i_rs1 i, i_rs2 i with
  | Some rd, Some rs1, Some rs2 =>
      let d := with_rs2 rs2 (with_rs1 rs1 (with_rd rd d)) in
      _ ← validateRegister rd "rd";
      _ ← validateRegister rs1 "rs1";
      _ ← validateRegister rs2 "rs2";
      Ok d
  | _, _, _ => Throw (MissingOperands (i_opcode i))
  end.

Definition isShiftImmediate (op : Opcode) : bool :=
  match op with
  | SLLI | SRLI | SRAI => true
  | _ => false
  end.

Definition decodeIFormat (i : Instruction) (d : Decoded) : Result Decoded :=
  match i_rd i, i_rs1 i, i_imm i with
  | Some rd, Some rs1, Some imm =>
      let d := with_imm (signExtend imm 12) (with_rs1 rs1 (with_rd rd d)) in
      d ← (if isShiftImmediate (i_opcode i) then
             if (imm <? 0) || (31 <? imm)
             then Throw (ShiftAmountOutOfRange (i_opcode i))
             else Ok (with_shamt imm d)
           else Ok d);
      _ ← validateRegister rd "rd";
      _ ← validateRegister rs1 "rs1";
      Ok d
  | _, _, _ => Throw (MissingOperands (i_opcode i))
  end.

Definition decodeLoadFormat (i : Instruction) (d : Decoded) : Result Decoded :=
  match i_rd i, i_rs1 i, i_imm i with
  | Some rd, Some rs1, Some imm =>
      let d := with_imm (signExtend imm 12) (with_rs1 rs1 (with_rd rd d)) in
      _ ← validateRegister rd "rd";
      _ ← validateRegister rs1 "rs1";
      Ok d
  | _, _, _ => Throw (MissingOperands (i_opcode i))
  end.

Definition decodeStoreFormat (i : Instruction) (d : Decoded) : Result Decoded :=
  match i_rs1 i, i_rs2 i, i_imm i with
  | Some rs1, Some rs2, Some imm =>
      let d := with_imm (signExtend imm 12) (with_rs2 rs2 (with_rs1 rs1 d)) in
      _ ← validateRegister rs1 "rs1";
      _ ← validateRegister rs2 "rs2";
      Ok d
  | _, _, _ => Throw (MissingOperands (i_opcode i))
  end.

Definition decodeBranchFormat (i : Instruction) (d : Decoded) : Result Decoded :=
  match i_rs1 i, i_rs2 i, i_imm i with
  | Some rs1, Some rs2, Some imm =>
      let simm := signExtend imm 13 in
      let d := copy_label i (with_imm simm (with_rs2 rs2 (with_rs1 rs1 d))) in
      if negb (JS.rem simm 2 =? 0) then Throw (BranchOffsetOdd (i_opcode i))
      else
        _ ← validateRegister rs1 "rs1";
        _ ← validateRegister rs2 "rs2";
        Ok d
  | _, _, _ => Throw (MissingOperands (i_opcode i))
  end.

Definition decodeJALFormat (i : Instruction) (d : Decoded) : Result Decoded :=
  match i_rd i, i_imm i with
  | Some rd, Some imm =>
      let simm := signExtend imm 21 in
      let d := copy_label i (with_imm simm (with_rd rd d)) in
      if negb (JS.rem simm 2 =? 0) then Throw (JumpOffsetOdd (i_opcode i))
      else
        _ ← validateRegister rd "rd";
        Ok d
  | _, _ => Throw (MissingOperands (i_opcode i))
  end.

Definition decodeJALRFormat (i : Instruction) (d : Decoded) : Result Decoded :=
  match i_rd i, i_rs1 i, i_imm i with
  | Some rd, Some rs1, Some imm =>
      let d := with_imm (signExtend imm 12) (with_rs1 rs1 (with_rd rd d)) in
      _ ← validateRegister rd "rd";
      _ ← validateRegister rs1 "rs1";
      Ok d
  | _, _, _ => Throw (MissingOperands (i_opcode i))
  end.

Definition decodeUFormat (i : Instruction) (d : Decoded) : Result Decoded :=
  match i_rd i, i_imm i with
  | Some rd, Some imm =>
      let d := with_imm (JS.shl (JS.band imm 1048575) 12) (with_rd rd d) in
      _ ← validateRegister rd "rd";
      Ok d
  | _, _ => Throw (MissingOperands (i_opcode i))
  end.

(** [decode(instruction)]; [None] is the [undefined] that indexing
    the program outside its bounds yields. *)
Definition decode (instruction : option Instruction) : Result Decoded :=
  match instruction with
  | None => Throw MissingOpcode
  | Some i =>
      let decoded := base i in
      match opcodes (i_opcode i) with
      | F_R => decodeRFormat i decoded
      | F_I => decodeIFormat i decoded
      | F_IL => decodeLoadFormat i decoded
      | F_S => decodeStoreFormat i decoded
      | F_SB => decodeBranchFormat i decoded
      | F_UJ => decodeJALFormat i decoded
      | F_JALR => decodeJALRFormat i decoded
      | F_U => decodeUFormat i decoded
      | F_HLT => Ok decoded
      end
  end.

End Decoder.

(** ** Machine state as the controller holds it

    [instructions] is [None] when the state object has no such
    property (a snapshot as the endpoints return it). *)

Record State := mkState {
  registers : JSArray;
  memory : JSArray;
  pc : Z;
  instructions : option (list Instruction);
  halted : bool
}.

Definition set_registers (r : JSArray) (s : State) : State :=
  mkState r (memory s) (pc s) (instructions s) (halted s).
Definition set_memory (m : JSArray) (s : State) : State :=
  mkState (registers s) m (pc s) (instructions s) (halted s).
Definition set_pc (v : Z) (s : State) : State :=
  mkState (registers s) (memory s) v (instructions s) (halted s).
Definition set_instructions (l : option (list Instruction)) (s : State) : State :=
  mkState (registers s) (memory s) (pc s) l (halted s).
Definition set_halted (b : bool) (s : State) : State :=
  mkState (registers s) (memory s) (pc s) (instructions s) b.

(** ** Executor ([executor.js])

    [execute] wraps the state in an adapter [sim] whenever
    [state.registers] is an array, which holds for the controller's
    state objects and for [Simulator] instances alike; the adapter's
    methods act on the arrays of the state directly.  [sim.pc] is the
    program counter read once, when the adapter is built. *)

Module Executor.

Section Adapter.
Variable state : State.

Definition getRegister (r : Z) : Result Z :=
  if r =? 0 then Ok 0 else defined (Arr.get (registers state) r).

Definition setRegister (r v : Z) : State :=
  if negb (r =? 0) then set_registers (Arr.set (registers state) r (JS.bor v 0)) state
  else state.

Definition readByte (addr : Z) : Z :=
  let val := Arr.getOr0 (memory state) addr in
  if 127 <? val then val - 256 else val.

Definition readByteUnsigned (addr : Z) : Z := Arr.getOr0 (memory state) addr.

Definition readHalfWordUnsigned (addr : Z) : Z :=
  let low := Arr.getOr0 (memory state) addr in
  let high := Arr.getOr0 (memory state) (addr + 1) in
  JS.bor low (JS.shl high 8).

Definition readHalfWord (addr : Z) : Z :=
  let value := readHalfWordUnsigned addr in
  if 32767 <? value then value - 65536 else value.

Definition readWord (addr : Z) : Z :=
  let b0 := Arr.getOr0 (memory state) addr in
  let b1 := Arr.getOr0 (memory state) (addr + 1) in
  let b2 := Arr.getOr0 (memory state) (addr + 2) in
  let b3 := Arr.getOr0 (memory state) (addr + 3) in
  JS.bor (JS.bor (JS.bor b0 (JS.shl b1 8)) (JS.shl b2 16)) (JS.shl b3 24).

Definition writeByte (addr val : Z) : State :=
  set_memory (Arr.set (memory state) addr (JS.band val 255)) state.

Definition writeHalfWord (addr val : Z) : State :=
  let m := Arr.set (memory state) addr (JS.band val 255) in
  let m := Arr.set m (addr + 1) (JS.band (JS.sar val 8) 255) in
  set_memory m state.

Definition writeWord (addr val : Z) : State :=
  let m := Arr.set (memory state) addr (JS.band val 255) in
  let m := Arr.set m (addr + 1) (JS.band (JS.sar val 8) 255) in
  let m := Arr.set m (addr + 2) (JS.band (JS.sar val 16) 255) in
  let m := Arr.set m (addr + 3) (JS.band (JS.sar val 24) 255) in
  set_memory m state.

Definition setPC (v : Z) : State := set_pc v state.
Definition incrementPC : State := set_pc (pc state + 1) state.
Definition halt : State := set_halted true state.
End Adapter.

(** A handler receives the decoded instruction, [sim.pc] and the
    state the adapter's methods act on. *)
Definition Handler := Decoded → Z → State → Result State.

(** [sim.getRegister(decoded.f)] and [sim.setRegister(decoded.rd, v)]
    for an operand field [f] of the decoded instruction, and
    [decoded.imm] read as a number. *)
Definition readOperand (state : State) (field : option Z) : Result Z :=
  r ← defined field; getRegister state r.

Definition writeOperand (state : State) (field : option Z) (v : Z) : Result State :=
  r ← defined field; Ok (setRegister state r v).

(** [v >>> 0]: the unsigned reading of a 32-bit value *)
Definition unsigned (v : Z) : Z := JS.shr v 0.
Definition b2z (b : bool) : Z := if b then 1 else 0.

(** [decoded.shamt || (decoded.imm & 0x1F)]; [undefined & 0x1F] is 0 *)
Definition shamtOf (decoded : Decoded) : Z :=
  let fromImm := match d_imm decoded with
                 | Some imm => JS.band imm 31
                 | None => 0
                 end in
  match d_shamt decoded with
  | Some s => if s =? 0 then fromImm else s
  | None => fromImm
  end.

(** *** R-format *)

Definition executeADD : Handler := λ decoded simpc state,
  rs1Val ← readOperand state (d_rs1 decoded);
  rs2Val ← readOperand state (d_rs2 decoded);
  let result := JS.bor (rs1Val + rs2Val) 0 in
  state ← writeOperand state (d_rd decoded) result;
  Ok (incrementPC state).

Definition executeSUB : Handler := λ decoded simpc state,
  rs1Val ← readOperand state (d_rs1 decoded);
  rs2Val ← readOperand state (d_rs2 decoded);
  let result := JS.bor (rs1Val - rs2Val) 0 in
  state ← writeOperand state (d_rd decoded) result;
  Ok (incrementPC state).

Definition executeSLL : Handler := λ decoded simpc state,
  rs1Val ← readOperand state (d_rs1 decoded);
  rs2Val ← readOperand state (d_rs2 decoded);
  let shamt := JS.band rs2Val 31 in
  let result := JS.bor (JS.shl rs1Val shamt) 0 in
  state ← writeOperand state (d_rd decoded) result;
  Ok (incrementPC state).

Definition executeSLT : Handler := λ decoded simpc state,
  rs1Val ← readOperand state (d_rs1 decoded);
  rs2Val ← readOperand state (d_rs2 decoded);
  let result := b2z (rs1Val <? rs2Val) in
  state ← writeOperand state (d_rd decoded) result;
  Ok (incrementPC state).

Definition executeSLTU : Handler := λ decoded simpc state,
  r1 ← readOperand state (d_rs1 decoded);
  let rs1Val := unsigned r1 in
  r2 ← readOperand state (d_rs2 decoded);
  let rs2Val := unsigned r2 in
  let result := b2z (rs1Val <? rs2Val) in
  state ← writeOperand state (d_rd decoded) result;
  Ok (incrementPC state).

Definition executeXOR : Handler := λ decoded simpc state,
  rs1Val ← readOperand state (d_rs1 decoded);
  rs2Val ← readOperand state (d_rs2 decoded);
  let result := JS.bor (JS.bxor rs1Val rs2Val) 0 in
  state ← writeOperand state (d_rd decoded) result;
  Ok (incrementPC state).

Definition executeSRL : Handler := λ decoded simpc state,
  r1 ← readOperand state (d_rs1 decoded);
  let rs1Val := unsigned r1 in
  rs2Val ← readOperand state (d_rs2 decoded);
  let shamt := JS.band rs2Val 31 in
  let result := JS.bor (JS.shr rs1Val shamt) 0 in
  state ← writeOperand state (d_rd decoded) result;
  Ok (incrementPC state).

Definition executeSRA : Handler := λ decoded simpc state,
  rs1Val ← readOperand state (d_rs1 decoded);
  rs2Val ← readOperand state (d_rs2 decoded);
  let shamt := JS.band rs2Val 31 in
  let result := JS.bor (JS.sar rs1Val shamt) 0 in
  state ← writeOperand state (d_rd decoded) result;
  Ok (incrementPC state).

Definition executeOR : Handler := λ decoded simpc state,
  rs1Val ← readOperand state (d_rs1 decoded);
  rs2Val ← readOperand state (d_rs2 decoded);
  let result := JS.bor (JS.bor rs1Val rs2Val) 0 in
  state ← writeOperand state (d_rd decoded) result;
  Ok (incrementPC state).

Definition executeAND : Handler := λ decoded simpc state,
  rs1Val ← readOperand state (d_rs1 decoded);
  rs2Val ← readOperand state (d_rs2 decoded);
  let result := JS.bor (JS.band rs1Val rs2Val) 0 in
  state ← writeOperand state (d_rd decoded) result;
  Ok (incrementPC state).

(** *** I-format *)

Definition executeADDI : Handler := λ decoded simpc state,
  rs1Val ← readOperand state (d_rs1 decoded);
  imm ← defined (d_imm decoded);
  let result := JS.bor (rs1Val + imm) 0 in
  state ← writeOperand state (d_rd decoded) result;
  Ok (incrementPC state).

Definition executeSLTI : Handler := λ decoded simpc state,
  rs1Val ← readOperand state (d_rs1 decoded);
  imm ← defined (d_imm decoded);
  let result := b2z (rs1Val <? imm) in
  state ← writeOperand state (d_rd decoded) result;
  Ok (incrementPC state).

Definition executeSLTIU : Handler := λ decoded simpc state,
  r1 ← readOperand state (d_rs1 decoded);
  let rs1Val := unsigned r1 in
  i ← defined (d_imm decoded);
  let imm := unsigned i in
  let result := b2z (rs1Val <? imm) in
  state ← writeOperand state (d_rd decoded) result;
  Ok (incrementPC state).

Definition executeXORI : Handler := λ decoded simpc state,
  rs1Val ← readOperand state (d_rs1 decoded);
  imm ← defined (d_imm decoded);
  let result := JS.bor (JS.bxor rs1Val imm) 0 in
  state ← writeOperand state (d_rd decoded) result;
  Ok (incrementPC state).

Definition executeORI : Handler := λ decoded simpc state,
  rs1Val ← readOperand state (d_rs1 decoded);
  imm ← defined (d_imm decoded);
  let result := JS.bor (JS.bor rs1Val imm) 0 in
  state ← writeOperand state (d_rd decoded) result;
  Ok (incrementPC state).

Definition executeANDI : Handler := λ decoded simpc state,
  rs1Val ← readOperand state (d_rs1 decoded);
  imm ← defined (d_imm decoded);
  let result := JS.bor (JS.band rs1Val imm) 0 in
  state ← writeOperand state (d_rd decoded) result;
  Ok (incrementPC state).

Definition executeSLLI : Handler := λ decoded simpc state,
  rs1Val ← readOperand state (d_rs1 decoded);
  let shamt := shamtOf decoded in
  let result := JS.bor (JS.shl rs1Val shamt) 0 in
  state ← writeOperand state (d_rd decoded) result;
  Ok (incrementPC state).

Definition executeSRLI : Handler := λ decoded simpc state,
  r1 ← readOperand state (d_rs1 decoded);
  let rs1Val := unsigned r1 in
  let shamt := shamtOf decoded in
  let result := JS.bor (JS.shr rs1Val shamt) 0 in
  state ← writeOperand state (d_rd decoded) result;
  Ok (incrementPC state).

Definition executeSRAI : Handler := λ decoded simpc state,
  rs1Val ← readOperand state (d_rs1 decoded);
  let shamt := shamtOf decoded in
  let result := JS.bor (JS.sar rs1Val shamt) 0 in
  state ← writeOperand state (d_rd decoded) result;
  Ok (incrementPC state).

(** *** Loads *)

Definition executeLB : Handler := λ decoded simpc state,
  rs1Val ← readOperand state (d_rs1 decoded);
  imm ← defined (d_imm decoded);
  let address := JS.bor (rs1Val + imm) 0 in
  let value := readByte state address in
  state ← writeOperand state (d_rd decoded) value;
  Ok (incrementPC state).

Definition executeLH : Handler := λ decoded simpc state,
  rs1Val ← readOperand state (d_rs1 decoded);
  imm ← defined (d_imm decoded);
  let address := JS.bor (rs1Val + imm) 0 in
  let value := readHalfWord state address in
  state ← writeOperand state (d_rd decoded) value;
  Ok (incrementPC state).

Definition executeLW : Handler := λ decoded simpc state,
  rs1Val ← readOperand state (d_rs1 decoded);
  imm ← defined (d_imm decoded);
  let address := JS.bor (rs1Val + imm) 0 in
  let value := readWord state address in
  state ← writeOperand state (d_rd decoded) value;
  Ok (incrementPC state).

Definition executeLBU : Handler := λ decoded simpc state,
  rs1Val ← readOperand state (d_rs1 decoded);
  imm ← defined (d_imm decoded);
  let address := JS.bor (rs1Val + imm) 0 in
  let value := readByteUnsigned state address in
  state ← writeOperand state (d_rd decoded) value;
  Ok (incrementPC state).

Definition executeLHU : Handler := λ decoded simpc state,
  rs1Val ← readOperand state (d_rs1 decoded);
  imm ← defined (d_imm decoded);
  let address := JS.bor (rs1Val + imm) 0 in
  let value := readHalfWordUnsigned state address in
  state ← writeOperand state (d_rd decoded) value;
  Ok (incrementPC state).

(** *** Stores *)

Definition executeSB : Handler := λ decoded simpc state,
  rs1Val ← readOperand state (d_rs1 decoded);
  rs2Val ← readOperand state (d_rs2 decoded);
  imm ← defined (d_imm decoded);
  let address := JS.bor (rs1Val + imm) 0 in
  let state := writeByte state address (JS.band rs2Val 255) in
  Ok (incrementPC state).

Definition executeSH : Handler := λ decoded simpc state,
  rs1Val ← readOperand state (d_rs1 decoded);
  rs2Val ← readOperand state (d_rs2 decoded);
  imm ← defined (d_imm decoded);
  let address := JS.bor (rs1Val + imm) 0 in
  let state := writeHalfWord state address (JS.band rs2Val 65535) in
  Ok (incrementPC state).

Definition executeSW : Handler := λ decoded simpc state,
  rs1Val ← readOperand state (d_rs1 decoded);
  rs2Val ← readOperand state (d_rs2 decoded);
  imm ← defined (d_imm decoded);
  let address := JS.bor (rs1Val + imm) 0 in
  let state := writeWord state address (rs2Val) in
  Ok (incrementPC state).

(** *** Branches: taken, PC becomes [(sim.pc || 0) + Math.floor(imm / 4)] *)

Definition executeBEQ : Handler := λ decoded simpc state,
  rs1Val ← readOperand state (d_rs1 decoded);
  rs2Val ← readOperand state (d_rs2 decoded);
  if rs1Val =? rs2Val then
    imm ← defined (d_imm decoded);
    let offset := JS.floorDiv imm 4 in
    Ok (setPC state (JS.orZero simpc + offset))
  else Ok (incrementPC state).

Definition executeBNE : Handler := λ decoded simpc state,
  rs1Val ← readOperand state (d_rs1 decoded);
  rs2Val ← readOperand state (d_rs2 decoded);
  if negb (rs1Val =? rs2Val) then
    imm ← defined (d_imm decoded);
    let offset := JS.floorDiv imm 4 in
    Ok (setPC state (JS.orZero simpc + offset))
  else Ok (incrementPC state).

Definition executeBLT : Handler := λ decoded simpc state,
  rs1Val ← readOperand state (d_rs1 decoded);
  rs2Val ← readOperand state (d_rs2 decoded);
  if rs1Val <? rs2Val then
    imm ← defined (d_imm decoded);
    let offset := JS.floorDiv imm 4 in
    Ok (setPC state (JS.orZero simpc + offset))
  else Ok (incrementPC state).

Definition executeBGE : Handler := λ decoded simpc state,
  rs1Val ← readOperand state (d_rs1 decoded);
  rs2Val ← readOperand state (d_rs2 decoded);
  if rs1Val >=? rs2Val then
    imm ← defined (d_imm decoded);
    let offset := JS.floorDiv imm 4 in
    Ok (setPC state (JS.orZero simpc + offset))
  else Ok (incrementPC state).

Definition executeBLTU : Handler := λ decoded simpc state,
  r1 ← readOperand state (d_rs1 decoded);
  let rs1Val := unsigned r1 in
  r2 ← readOperand state (d_rs2 decoded);
  let rs2Val := unsigned r2 in
  if rs1Val <? rs2Val then
    imm ← defined (d_imm decoded);
    let offset := JS.floorDiv imm 4 in
    Ok (setPC state (JS.orZero simpc + offset))
  else Ok (incrementPC state).

Definition executeBGEU : Handler := λ decoded simpc state,
  r1 ← readOperand state (d_rs1 decoded);
  let rs1Val := unsigned r1 in
  r2 ← readOperand state (d_rs2 decoded);
  let rs2Val := unsigned r2 in
  if rs1Val >=? rs2Val then
    imm ← defined (d_imm decoded);
    let offset := JS.floorDiv imm 4 in
    Ok (setPC state (JS.orZero simpc + offset))
  else Ok (incrementPC state).

(** *** Jumps *)

Definition executeJAL : Handler := λ decoded simpc state,
  let returnAddress := JS.orZero simpc + 1 in
  state ← writeOperand state (d_rd decoded) returnAddress;
  imm ← defined (d_imm decoded);
  let offset := JS.floorDiv imm 4 in
  Ok (setPC state (JS.orZero simpc + offset)).

Definition executeJALR : Handler := λ decoded simpc state,
  rs1Val ← readOperand state (d_rs1 decoded);
  let returnAddress := JS.orZero simpc + 1 in
  imm ← defined (d_imm decoded);
  let targetPC :=
    if rs1Val <? 1000 then rs1Val + JS.floorDiv imm 4
    else JS.floorDiv (JS.band (rs1Val + imm) (JS.bnot 1)) 4 in
  state ← writeOperand state (d_rd decoded) returnAddress;
  Ok (setPC state targetPC).

(** *** Upper immediates *)

Definition executeLUI : Handler := λ decoded simpc state,
  imm ← defined (d_imm decoded);
  state ← writeOperand state (d_rd decoded) imm;
  Ok (incrementPC state).

Definition executeAUIPC : Handler := λ decoded simpc state,
  let pcBytes := JS.orZero simpc * 4 in
  imm ← defined (d_imm decoded);
  let result := JS.bor (pcBytes + imm) 0 in
  state ← writeOperand state (d_rd decoded) result;
  Ok (incrementPC state).

(** *** HLT: the program counter is left where it is. *)

Definition executeHLT : Handler := λ decoded simpc state, Ok (halt state).

(** [switch (decoded.opcode)] *)
Definition handler (op : Opcode) : Handler :=
  match op with
  | ADD => executeADD | SUB => executeSUB | SLL => executeSLL
  | SLT => executeSLT | SLTU => executeSLTU | XOR => executeXOR
  | SRL => executeSRL | SRA => executeSRA | OR => executeOR
  | AND => executeAND
  | ADDI => executeADDI | SLTI => executeSLTI | SLTIU => executeSLTIU
  | XORI => executeXORI | ORI => executeORI | ANDI => executeANDI
  | SLLI => executeSLLI | SRLI => executeSRLI | SRAI => executeSRAI
  | LB => executeLB | LH => executeLH | LW => executeLW
  | LBU => executeLBU | LHU => executeLHU
  | SB => executeSB | SH => executeSH | SW => executeSW
  | BEQ => executeBEQ | BNE => executeBNE | BLT => executeBLT
  | BGE => executeBGE | BLTU => executeBLTU | BGEU => executeBGEU
  | JAL => executeJAL | JALR => executeJALR
  | LUI => executeLUI | AUIPC => executeAUIPC
  | HLT => executeHLT
  end.

(** [execute(decoded, state)] *)
Definition execute (decoded : Decoded) (state : State) : Result State :=
  let simpc := pc state in
  handler (d_opcode decoded) decoded simpc state.

End Executor.

(** [instructions[i]]: [undefined] when [i] is outside the program *)
Definition nth_instruction (l : list Instruction) (i : Z) : option Instruction :=
  if i <? 0 then None else l !! Z.to_nat i.

(** ** The [Simulator] model class ([models/Simulator.js])

    The class keeps its memory in a 1 MiB [ArrayBuffer] read and
    written through a [DataView]; a byte that was never written is 0. *)

Module Simulator.

Record t := mk {
  registers : JSArray;
  memory : gmap Z Z;
  pc : Z;
  instructions : list Instruction;
  halted : bool
}.

(** [this.memory.byteLength] *)
Definition byteLength : Z := 1024 * 1024.

Definition reset : t :=
  {| registers := Arr.fill 32 0; memory := ∅; pc := 0;
     instructions := []; halted := false |}.

Definition getRegister (s : t) (reg : Z) : Result Z :=
  if (reg <? 0) || (31 <? reg) then Throw (InvalidRegister reg)
  else if reg =? 0 then Ok 0 else defined (Arr.get (registers s) reg).

Definition setRegister (s : t) (reg value : Z) : Result t :=
  if (reg <? 0) || (31 <? reg) then Throw (InvalidRegister reg)
  else if negb (reg =? 0) then
    Ok (mk (Arr.set (registers s) reg (JS.bor value 0)) (memory s) (pc s)
          (instructions s) (halted s))
  else Ok s.

(** [validateAddress(address, size = 1)] *)
Definition validateAddress (s : t) (address size : Z) : Result unit :=
  if (address <? 0) || (byteLength <? address + size) then
    Throw (MemoryAccessViolation address)
  else if (size =? 2) && negb (JS.rem address 2 =? 0) then
    Throw (UnalignedHalfWord address)
  else if (size =? 4) && negb (JS.rem address 4 =? 0) then
    Throw (UnalignedWord address)
  else Ok tt.

(** [DataView] accessors, little-endian *)
Definition byteAt (s : t) (a : Z) : Z := default 0 (memory s !! a).
Definition getUint8 (s : t) (a : Z) : Z := byteAt s a.
Definition getUint16 (s : t) (a : Z) : Z := byteAt s a + 256 * byteAt s (a + 1).
Definition getInt16 (s : t) (a : Z) : Z :=
  let v := getUint16 s a in if v <? 32768 then v else v - 65536.
Definition getInt32 (s : t) (a : Z) : Z :=
  JS.toInt32 (byteAt s a + 256 * byteAt s (a + 1) + 65536 * byteAt s (a + 2)
              + 16777216 * byteAt s (a + 3)).

Definition with_memory (m : gmap Z Z) (s : t) : t :=
  mk (registers s) m (pc s) (instructions s) (halted s).
Definition setUint8 (s : t) (a v : Z) : t :=
  with_memory (<[a := v mod 256]> (memory s)) s.
Definition setInt16 (s : t) (a v : Z) : t :=
  with_memory (<[a + 1 := (v / 256) mod 256]> (<[a := v mod 256]> (memory s))) s.
Definition setInt32 (s : t) (a v : Z) : t :=
  with_memory (<[a + 3 := (v / 16777216) mod 256]>
               (<[a + 2 := (v / 65536) mod 256]>
                (<[a + 1 := (v / 256) mod 256]>
                 (<[a := v mod 256]> (memory s))))) s.

Definition readByte (s : t) (address : Z) : Result Z :=
  _ ← validateAddress s address 1; Ok (getUint8 s address).
Definition readByteUnsigned (s : t) (address : Z) : Result Z :=
  _ ← validateAddress s address 1; Ok (getUint8 s address).
Definition readHalfWord (s : t) (address : Z) : Result Z :=
  _ ← validateAddress s address 2; Ok (getInt16 s address).
Definition readHalfWordUnsigned (s : t) (address : Z) : Result Z :=
  _ ← validateAddress s address 2; Ok (getUint16 s address).
Definition readWord (s : t) (address : Z) : Result Z :=
  _ ← validateAddress s address 4; Ok (getInt32 s address).
Definition writeByte (s : t) (address value : Z) : Result t :=
  _ ← validateAddress s address 1; Ok (setUint8 s address (JS.band value 255)).
Definition writeHalfWord (s : t) (address value : Z) : Result t :=
  _ ← validateAddress s address 2; Ok (setInt16 s address (JS.band value 65535)).
Definition writeWord (s : t) (address value : Z) : Result t :=
  _ ← validateAddress s address 4; Ok (setInt32 s address (JS.bor value 0)).

(** [fetchInstruction()]: the updated simulator and the instruction,
    [None] standing for [null]. *)
Definition fetchInstruction (s : t) : t * option Instruction :=
  if (pc s <? 0) || (Z.of_nat (length (instructions s)) <=? pc s) then
    (mk (registers s) (memory s) (pc s) (instructions s) true, None)
  else (s, nth_instruction (instructions s) (pc s)).

(** *** Program loading, program counter and halting *)

(** [loadInstructions(instructions)] *)
Definition loadInstructions (s : t) (instructions : list Instruction) : t :=
  mk (registers s) (memory s) 0 instructions false.

(** [incrementPC()], [setPC(value)], [halt()] and [isHalted()] *)
Definition incrementPC (s : t) : t :=
  mk (registers s) (memory s) (pc s + 1) (instructions s) (halted s).
Definition setPC (s : t) (value : Z) : t :=
  mk (registers s) (memory s) value (instructions s) (halted s).
Definition halt (s : t) : t :=
  mk (registers s) (memory s) (pc s) (instructions s) true.
Definition isHalted (s : t) : bool := halted s.

(** [static signExtend(value, bits)] *)
Definition signExtend (value bits : Z) : Z :=
  let shift := 32 - bits in
  JS.sar (JS.shl value shift) shift.

(** [static toUnsigned(value)] *)
Definition toUnsigned (value : Z) : Z := JS.shr value 0.

(** *** The cycle count, the execution history and the serialized state

    [t] holds the fields the memory and register methods work on; an
    [instance] adds the two fields that [addToHistory], [getState] and
    [setState] work on besides. *)

Record HistoryEntry := mkHistoryEntry {
  h_pc : Z;
  h_instruction : Instruction;
  h_cycleCount : Z
}.

Record instance := mkInstance {
  core : t;
  cycleCount : Z;
  executionHistory : list HistoryEntry
}.

(** [new Simulator()] *)
Definition create : instance :=
  {| core := reset; cycleCount := 0; executionHistory := [] |}.

(** [addToHistory(instruction, pc)] *)
Definition addToHistory (o : instance) (instruction : Instruction) (pc : Z)
    : instance :=
  {| core := core o;
     cycleCount := cycleCount o + 1;
     executionHistory :=
       executionHistory o ++ [mkHistoryEntry pc instruction (cycleCount o)] |}.

(** [l.slice(-n)] for a positive [n]: the last [n] elements *)
Definition lastN {A} (n : nat) (l : list A) : list A := drop (length l - n) l.

(** The object [getState] returns and [setState] reads; a field is
    [None] when the object has no such property. *)
Record Serialized := mkSerialized {
  z_registers : option JSArray;
  z_memory : option (list (Z * Z));
  z_pc : option Z;
  z_halted : option bool;
  z_cycleCount : option Z;
  z_executionHistory : option (list HistoryEntry)
}.

(** [getState()]; [[...this.registers]] holds the elements of the
    array, which is what [Arr.toJSON] keeps of it. *)
Definition getState (o : instance) : Serialized :=
  let s := core o in
  let nonZeroMemory :=
    omap (λ i, let value := getUint8 s i in
               if negb (value =? 0) || (i <? 256) then Some (i, value) else None)
      (seqZ 0 (Z.min byteLength 1024)) in
  {| z_registers := Some (Arr.toJSON (registers s));
     z_memory := Some nonZeroMemory;
     z_pc := Some (pc s);
     z_halted := Some (halted s);
     z_cycleCount := Some (cycleCount o);
     z_executionHistory := Some (lastN 10 (executionHistory o)) |}.

(** What a [DataView] raises when the offset is outside its buffer *)
Inductive RangeError := OffsetOutsideDataView.

(** [memory.forEach(({ address, value }) => this.memoryView.setUint8(address, value))]:
    the simulator as the loop leaves it, and the error that ended it,
    if any. *)
Fixpoint setBytes (s : t) (entries : list (Z * Z)) : t * option RangeError :=
  match entries with
  | [] => (s, None)
  | (address, value) :: rest =>
      if (address <? 0) || (byteLength <=? address)
      then (s, Some OffsetOutsideDataView)
      else setBytes (setUint8 s address value) rest
  end.

(** [setState(state)]: the object as the call leaves it, and the error
    it raised, if any. *)
Definition setState (o : instance) (state : Serialized)
    : instance * option RangeError :=
  let s := core o in
  let s := match z_registers state with
           | Some registers =>
               mk (Arr.toJSON registers) (memory s) (pc s) (instructions s) (halted s)
           | None => s
           end in
  let '(s, raised) := match z_memory state with
                      | Some memory => setBytes s memory
                      | None => (s, None)
                      end in
  match raised with
  | Some e => (mkInstance s (cycleCount o) (executionHistory o), Some e)
  | None =>
      let s := match z_pc state with
               | Some pc => setPC s pc
               | None => s
               end in
      let s := match z_halted state with
               | Some halted =>
                   mk (registers s) (memory s) (pc s) (instructions s) halted
               | None => s
               end in
      let cycles := match z_cycleCount state with
                    | Some c => c
                    | None => cycleCount o
                    end in
      let history := match z_executionHistory state with
                     | Some h => h
                     | None => executionHistory o
                     end in
      (mkInstance s cycles history, None)
  end.

End Simulator.

(** ** JavaScript string operations

    Source text is modelled as a [string] of ASCII characters. *)

Module Str.

Definition code (c : ascii) : Z := Z.of_N (N_of_ascii c).

(** The white space and line terminators of [\s] and [trim()]:
    TAB, LF, VT, FF, CR and SPACE. *)
Definition isSpace (c : ascii) : bool :=
  let n := code c in ((9 <=? n) && (n <=? 13)) || (n =? 32).

(** [\w] *)
Definition isWord (c : ascii) : bool :=
  let n := code c in
  ((48 <=? n) && (n <=? 57)) || ((65 <=? n) && (n <=? 90))
  || ((97 <=? n) && (n <=? 122)) || (n =? 95).

(** The line terminators that [.] does not match. *)
Definition isLineTerminator (c : ascii) : bool :=
  let n := code c in (n =? 10) || (n =? 13).

(** The separators of the operand split, [[\s,()]]. *)
Definition isSeparator (c : ascii) : bool :=
  let n := code c in isSpace c || (n =? 44) || (n =? 40) || (n =? 41).

Definition upperChar (c : ascii) : ascii :=
  let n := code c in
  if (97 <=? n) && (n <=? 122) then ascii_of_N (Z.to_N (n - 32)) else c.

Definition lowerChar (c : ascii) : ascii :=
  let n := code c in
  if (65 <=? n) && (n <=? 90) then ascii_of_N (Z.to_N (n + 32)) else c.

Fixpoint map (f : ascii → ascii) (s : string) : string :=
  match s with
  | EmptyString => EmptyString
  | String c s' => String (f c) (map f s')
  end.

Definition toUpperCase : string → string := map upperChar.
Definition toLowerCase : string → string := map lowerChar.

Fixpoint dropWhile (p : ascii → bool) (s : string) : string :=
  match s with
  | EmptyString => EmptyString
  | String c s' => if p c then dropWhile p s' else s
  end.

Fixpoint takeWhile (p : ascii → bool) (s : string) : string :=
  match s with
  | EmptyString => EmptyString
  | String c s' => if p c then String c (takeWhile p s') else EmptyString
  end.

Definition isEmpty (s : string) : bool :=
  match s with
  | EmptyString => true
  | String _ _ => false
  end.

Definition trimStart : string → string := dropWhile isSpace.

Fixpoint trimEnd (s : string) : string :=
  match s with
  | EmptyString => EmptyString
  | String c s' =>
      let t := trimEnd s' in
      if isSpace c && isEmpty t then EmptyString else String c t
  end.

(** [s.trim()] *)
Definition trim (s : string) : string := trimEnd (trimStart s).

(** [s.includes(c)] for a one-character string [c] *)
Fixpoint includes (c : ascii) (s : string) : bool :=
  match s with
  | EmptyString => false
  | String c' s' => if Ascii.eqb c c' then true else includes c s'
  end.

(** [s.split(c)] for a one-character string [c] *)
Fixpoint split (c : ascii) (s : string) : list string :=
  match s with
  | EmptyString => [EmptyString]
  | String c' s' =>
      if Ascii.eqb c c' then EmptyString :: split c s'
      else match split c s' with
           | first :: fields => String c' first :: fields
           | [] => [String c' EmptyString]
           end
  end.

(** [s.split(/[\s,()]+/).filter(part => part.length > 0)]: the
    maximal runs of characters that are not separators. *)
Fixpoint tokensFrom (cur : string) (s : string) : list string :=
  let flush := if isEmpty cur then [] else [cur] in
  match s with
  | EmptyString => flush
  | String c s' =>
      if isSeparator c then flush ++ tokensFrom EmptyString s'
      else tokensFrom (cur ++ String c EmptyString) s'
  end.

Definition tokens (s : string) : list string := tokensFrom EmptyString s.

(** [s.startsWith(p)] *)
Definition startsWith (p s : string) : bool := String.prefix p s.

(** [s.substring(n)] *)
Fixpoint substringFrom (n : nat) (s : string) : string :=
  match n, s with
  | O, _ => s
  | S k, String _ s' => substringFrom k s'
  | S _, EmptyString => EmptyString
  end.

(** The value of a digit in [parseInt]. *)
Definition digitValue (c : ascii) : option Z :=
  let n := code c in
  if (48 <=? n) && (n <=? 57) then Some (n - 48)
  else if (97 <=? n) && (n <=? 122) then Some (n - 87)
  else if (65 <=? n) && (n <=? 90) then Some (n - 55)
  else None.

(** The value of the longest prefix of digits of the radix; [None]
    when there is no digit. *)
Fixpoint digits (radix : Z) (acc : option Z) (s : string) : option Z :=
  match s with
  | EmptyString => acc
  | String c s' =>
      match digitValue c with
      | Some d =>
          if d <? radix then digits radix (Some (default 0 acc * radix + d)) s'
          else acc
      | None => acc
      end
  end.

(** [parseInt(s, radix)] for radix 2, 10 or 16; [None] is [NaN].
    The integer is kept exact where JavaScript rounds it to a double;
    the comparisons made with it afterwards are against bounds below
    2^31 and come out the same. *)
Definition parseInt (s : string) (radix : Z) : option Z :=
  let s := trimStart s in
  let '(negative, s) :=
    match s with
    | String "-" s' => (true, s')
    | String "+" s' => (false, s')
    | _ => (false, s)
    end in
  let s :=
    if (radix =? 16) && (startsWith "0x" s || startsWith "0X" s)
    then substringFrom 2 s else s in
  match digits radix None s with
  | Some v => Some (if negative : bool then - v else v)
  | None => None
  end.

End Str.

(** ** Parser ([parser.js]) *)

Module Parser.

(** [this.registerMap] *)
Definition registerMap : list (string * Z) :=
  [ ("zero", 0); ("x0", 0); ("ra", 1); ("x1", 1); ("sp", 2); ("x2", 2);
    ("gp", 3); ("x3", 3); ("tp", 4); ("x4", 4); ("t0", 5); ("x5", 5);
    ("t1", 6); ("x6", 6); ("t2", 7); ("x7", 7);
    ("s0", 8); ("fp", 8); ("x8", 8); ("s1", 9); ("x9", 9);
    ("a0", 10); ("x10", 10); ("a1", 11); ("x11", 11); ("a2", 12); ("x12", 12);
    ("a3", 13); ("x13", 13); ("a4", 14); ("x14", 14); ("a5", 15); ("x15", 15);
    ("a6", 16); ("x16", 16); ("a7", 17); ("x17", 17);
    ("s2", 18); ("x18", 18); ("s3", 19); ("x19", 19); ("s4", 20); ("x20", 20);
    ("s5", 21); ("x21", 21); ("s6", 22); ("x22", 22); ("s7", 23); ("x23", 23);
    ("s8", 24); ("x24", 24); ("s9", 25); ("x25", 25); ("s10", 26); ("x26", 26);
    ("s11", 27); ("x27", 27); ("t3", 28); ("x28", 28); ("t4", 29); ("x29", 29);
    ("t5", 30); ("x30", 30); ("t6", 31); ("x31", 31) ]%string.

Fixpoint assoc {A} (k : string) (l : list (string * A)) : option A :=
  match l with
  | [] => None
  | (k', v) :: l' => if String.eqb k k' then Some v else assoc k l'
  end.

(** The keys of [this.instructionFormats] *)
Definition mnemonics : list (string * Opcode) :=
  [ ("ADD", ADD); ("SUB", SUB); ("SLL", SLL); ("SLT", SLT); ("SLTU", SLTU);
    ("XOR", XOR); ("SRL", SRL); ("SRA", SRA); ("OR", OR); ("AND", AND);
    ("ADDI", ADDI); ("SLTI", SLTI); ("SLTIU", SLTIU); ("XORI", XORI);
    ("ORI", ORI); ("ANDI", ANDI); ("SLLI", SLLI); ("SRLI", SRLI); ("SRAI", SRAI);
    ("LB", LB); ("LH", LH); ("LW", LW); ("LBU", LBU); ("LHU", LHU);
    ("SB", SB); ("SH", SH); ("SW", SW);
    ("BEQ", BEQ); ("BNE", BNE); ("BLT", BLT); ("BGE", BGE); ("BLTU", BLTU);
    ("BGEU", BGEU);
    ("JAL", JAL); ("JALR", JALR);
    ("LUI", LUI); ("AUIPC", AUIPC);
    ("HLT", HLT) ]%string.

(** [this.instructionFormats[opcode]] *)
Definition instructionFormats (op : Opcode) : Format :=
  match op with
  | ADD | SUB | SLL | SLT | SLTU | XOR | SRL | SRA | OR | AND => F_R
  | ADDI | SLTI | SLTIU | XORI | ORI | ANDI | SLLI | SRLI | SRAI => F_I
  | LB | LH | LW | LBU | LHU => F_IL
  | SB | SH | SW => F_S
  | BEQ | BNE | BLT | BGE | BLTU | BGEU => F_SB
  | JAL => F_UJ
  | JALR => F_JALR
  | LUI | AUIPC => F_U
  | HLT => F_HLT
  end.

(** [cleanLine(line)] *)
Definition cleanLine (line : string) : string :=
  let line := Str.takeWhile (λ c, negb (Ascii.eqb c "#")) line in
  Str.trim line.

(** [parseRegister(reg)] *)
Definition parseRegister (reg : string) : Result Z :=
  let regLower := Str.toLowerCase reg in
  match assoc regLower registerMap with
  | Some n => Ok n
  | None => Throw (InvalidRegisterName reg)
  end.

(** The number [parseImmediate] reads from the literal; [None] is
    [NaN]. *)
Definition literalValue (imm : string) : option Z :=
  if Str.startsWith "0x" imm || Str.startsWith "0X" imm then
    Str.parseInt imm 16
  else if Str.startsWith "0b" imm || Str.startsWith "0B" imm then
    Str.parseInt (Str.substringFrom 2 imm) 2
  else if Str.startsWith "-" imm then
    Str.parseInt imm 10
  else
    Str.parseInt imm 10.

(** [parseImmediate(imm, bits)] *)
Definition parseImmediate (imm : string) (bits : Z) : Result Z :=
  match literalValue imm with
  | None => Throw (InvalidImmediate imm)
  | Some value =>
      let maxValue := JS.shl 1 (bits - 1) - 1 in
      let minValue := - JS.shl 1 (bits - 1) in
      if (maxValue <? value) || (value <? minValue) then
        Throw (ImmediateOutOfRange value bits minValue maxValue)
      else Ok value
  end.

Definition with_rd (v : Z) (i : Instruction) : Instruction :=
  mkInstruction (i_opcode i) (i_format i) (i_index i) (i_lineNum i)
    (i_original i) (Some v) (i_rs1 i) (i_rs2 i) (i_imm i) (i_label i).
Definition with_rs1 (v : Z) (i : Instruction) : Instruction :=
  mkInstruction (i_opcode i) (i_format i) (i_index i) (i_lineNum i)
    (i_original i) (i_rd i) (Some v) (i_rs2 i) (i_imm i) (i_label i).
Definition with_rs2 (v : Z) (i : Instruction) : Instruction :=
  mkInstruction (i_opcode i) (i_format i) (i_index i) (i_lineNum i)
    (i_original i) (i_rd i) (i_rs1 i) (Some v) (i_imm i) (i_label i).
Definition with_imm (v : Z) (i : Instruction) : Instruction :=
  mkInstruction (i_opcode i) (i_format i) (i_index i) (i_lineNum i)
    (i_original i) (i_rd i) (i_rs1 i) (i_rs2 i) (Some v) (i_label i).
Definition with_label (v : string) (i : Instruction) : Instruction :=
  mkInstruction (i_opcode i) (i_format i) (i_index i) (i_lineNum i)
    (i_original i) (i_rd i) (i_rs1 i) (i_rs2 i) (i_imm i) (Some v).

(** *** The label table

    [this.labels] is a plain object, created by [{}]: its own
    properties are the labels bound so far, and any other name is
    looked up in [Object.prototype].  The table is modelled by the map
    of its own properties; the two names for which this makes a
    difference are [__proto__] and [hasOwnProperty]. *)

(** [labels[labelName] = instructionIndex].  For the name [__proto__]
    the assignment reaches the setter of [Object.prototype], which
    ignores a number: no property is created. *)
Definition bindLabel (labelName : string) (instructionIndex : Z)
    (labels : gmap string Z) : gmap string Z :=
  if String.eqb labelName "__proto__" then labels
  else <[labelName := instructionIndex]> labels.

(** [labels.hasOwnProperty(part)].  A label named [hasOwnProperty] is
    an own property that holds a number and hides the method of
    [Object.prototype]: the call throws a [TypeError]. *)
Definition hasOwnProperty (labels : gmap string Z) (part : string)
    : Result bool :=
  match labels !! "hasOwnProperty"%string with
  | Some _ => Throw TypeErrorHasOwnProperty
  | None => Ok (match labels !! part with Some _ => true | None => false end)
  end.

Section WithLabels.
(** [this.labels], filled by the first pass of [parse]. *)
Variable labels : gmap string Z.

(** The operand that is a label or an immediate of [bits] bits:
    [if (this.labels.hasOwnProperty(part)) { ... this.labels[part] ... }
     else { ... this.parseImmediate(part, bits) }]. *)
Definition labelOrImmediate (part : string) (bits : Z)
    (instruction : Instruction) : Result Instruction :=
  known ← hasOwnProperty labels part;
  if known : bool then
    target ← defined (labels !! part);
    Ok (with_imm ((target - i_index instruction) * 4)
          (with_label part instruction))
  else
    imm ← parseImmediate part bits;
    Ok (with_imm imm instruction).

Definition parseRFormat (instruction : Instruction) (parts : list string)
    : Result Instruction :=
  match parts with
  | [_; p1; p2; p3] =>
      rd ← parseRegister p1;
      rs1 ← parseRegister p2;
      rs2 ← parseRegister p3;
      Ok (with_rs2 rs2 (with_rs1 rs1 (with_rd rd instruction)))
  | _ => Throw (RequiresOperands (i_opcode instruction) "3 operands (rd, rs1, rs2)")
  end.

Definition parseIFormat (instruction : Instruction) (parts : list string)
    : Result Instruction :=
  match parts with
  | [_; p1; p2; p3] =>
      rd ← parseRegister p1;
      rs1 ← parseRegister p2;
      imm ← parseImmediate p3 12;
      Ok (with_imm imm (with_rs1 rs1 (with_rd rd instruction)))
  | _ => Throw (RequiresOperands (i_opcode instruction) "3 operands (rd, rs1, imm)")
  end.

Definition parseLoadFormat (instruction : Instruction) (parts : list string)
    : Result Instruction :=
  match parts with
  | [_; _; _] =>
      Throw (RequiresOperands (i_opcode instruction)
               "format: rd, imm(rs1) or rd, rs1, imm")
  | [_; p1; p2; p3] =>
      rd ← parseRegister p1;
      rs1 ← parseRegister p2;
      imm ← parseImmediate p3 12;
      Ok (with_imm imm (with_rs1 rs1 (with_rd rd instruction)))
  | [_; p1; p2; p3; _] =>
      rd ← parseRegister p1;
      imm ← parseImmediate p2 12;
      rs1 ← parseRegister p3;
      Ok (with_rs1 rs1 (with_imm imm (with_rd rd instruction)))
  | _ => Throw (InvalidFormat (i_opcode instruction))
  end.

Definition parseStoreFormat (instruction : Instruction) (parts : list string)
    : Result Instruction :=
  match parts with
  | [_; p1; p2; p3] =>
      rs2 ← parseRegister p1;
      rs1 ← parseRegister p2;
      imm ← parseImmediate p3 12;
      Ok (with_imm imm (with_rs1 rs1 (with_rs2 rs2 instruction)))
  | [_; p1; p2; p3; _] =>
      rs2 ← parseRegister p1;
      imm ← parseImmediate p2 12;
      rs1 ← parseRegister p3;
      Ok (with_rs1 rs1 (with_imm imm (with_rs2 rs2 instruction)))
  | _ => Throw (InvalidFormat (i_opcode instruction))
  end.

Definition parseBranchFormat (instruction : Instruction) (parts : list string)
    : Result Instruction :=
  match parts with
  | [_; p1; p2; p3] =>
      rs1 ← parseRegister p1;
      rs2 ← parseRegister p2;
      labelOrImmediate p3 13 (with_rs2 rs2 (with_rs1 rs1 instruction))
  | _ => Throw (RequiresOperands (i_opcode instruction)
                  "3 operands (rs1, rs2, label/offset)")
  end.

Definition parseJALFormat (instruction : Instruction) (parts : list string)
    : Result Instruction :=
  match parts with
  | [_; p1] => labelOrImmediate p1 21 (with_rd 1 instruction)
  | [_; p1; p2] =>
      rd ← parseRegister p1;
      labelOrImmediate p2 21 (with_rd rd instruction)
  | _ => Throw (RequiresOperands (i_opcode instruction) "1 or 2 operands")
  end.

Definition parseJALRFormat (instruction : Instruction) (parts : list string)
    : Result Instruction :=
  match parts with
  | [_; p1] =>
      rs1 ← parseRegister p1;
      Ok (with_imm 0 (with_rs1 rs1 (with_rd 1 instruction)))
  | [_; p1; p2] =>
      rd ← parseRegister p1;
      rs1 ← parseRegister p2;
      Ok (with_imm 0 (with_rs1 rs1 (with_rd rd instruction)))
  | [_; p1; p2; p3] =>
      rd ← parseRegister p1;
      rs1 ← parseRegister p2;
      imm ← parseImmediate p3 12;
      Ok (with_imm imm (with_rs1 rs1 (with_rd rd instruction)))
  | _ => Throw (InvalidFormat (i_opcode instruction))
  end.

Definition parseUFormat (instruction : Instruction) (parts : list string)
    : Result Instruction :=
  match parts with
  | [_; p1; p2] =>
      rd ← parseRegister p1;
      imm ← parseImmediate p2 20;
      Ok (with_imm imm (with_rd rd instruction))
  | _ => Throw (RequiresOperands (i_opcode instruction) "2 operands (rd, imm)")
  end.

(** [parseInstruction(line, index, lineNum)] *)
Definition parseInstruction (line : string) (index lineNum : Z)
    : Result Instruction :=
  let parts := Str.tokens line in
  match parts with
  | [] => Throw EmptyInstruction
  | part0 :: _ =>
      let opcode := Str.toUpperCase part0 in
      match assoc opcode mnemonics with
      | None => Throw (UnknownInstruction opcode)
      | Some op =>
          let format := instructionFormats op in
          let instruction :=
            {| i_opcode := op; i_format := format; i_index := index;
               i_lineNum := lineNum; i_original := line;
               i_rd := None; i_rs1 := None; i_rs2 := None; i_imm := None;
               i_label := None |} in
          match format with
          | F_R => parseRFormat instruction parts
          | F_I => parseIFormat instruction parts
          | F_IL => parseLoadFormat instruction parts
          | F_S => parseStoreFormat instruction parts
          | F_SB => parseBranchFormat instruction parts
          | F_UJ => parseJALFormat instruction parts
          | F_JALR => parseJALRFormat instruction parts
          | F_U => parseUFormat instruction parts
          | F_HLT => Ok instruction
          end
      end
  end.

(** The second pass of [parse] over the lines from number
    [lineNum] (counted from 0) on. *)
Fixpoint secondPass (lines : list string) (lineNum instructionIndex : Z)
    : Result (list Instruction) :=
  match lines with
  | [] => Ok []
  | raw :: rest =>
      let line := cleanLine raw in
      let skip := secondPass rest (lineNum + 1) instructionIndex in
      if Str.isEmpty line then skip
      else if
        (* the label-only pattern: a run of word characters, a colon,
           and white space up to the end *)
        let name := Str.takeWhile Str.isWord line in
        let after := Str.dropWhile Str.isWord line in
        negb (Str.isEmpty name) &&
        match after with
        | String ":" tail => Str.isEmpty (Str.dropWhile Str.isSpace tail)
        | _ => false
        end
      then skip
      else
        let instructionLine :=
          if Str.includes ":" line then
            match Str.split ":" line with
            | _ :: part1 :: _ => Str.trim part1
            | _ => EmptyString
            end
          else line in
        if Str.isEmpty instructionLine then skip
        else
          match parseInstruction instructionLine instructionIndex (lineNum + 1) with
          | Ok instruction =>
              more ← secondPass rest (lineNum + 1) (instructionIndex + 1);
              Ok (instruction :: more)
          | Throw e => Throw (AtLine (lineNum + 1) e)
          | Undef => Undef
          end
  end.
End WithLabels.

(** The first pass of [parse]: the label table and the lines, those
    that carry a label and an instruction cut down to the
    instruction. *)
Fixpoint firstPass (lines : list string) (instructionIndex : Z)
    (labels : gmap string Z) : gmap string Z * list string :=
  match lines with
  | [] => (labels, [])
  | raw :: rest =>
      let line := cleanLine raw in
      let keep (l : string) (index : Z) (labels : gmap string Z) :=
        let '(labels, rest) := firstPass rest index labels in
        (labels, l :: rest) in
      if Str.isEmpty line then keep raw instructionIndex labels
      else if Str.includes ":" line then
        (* the label pattern: a run of word characters, a colon, white
           space, and the rest of the line up to a line terminator *)
        let labelName := Str.takeWhile Str.isWord line in
        match Str.dropWhile Str.isWord line with
        | String ":" tail =>
            if Str.isEmpty labelName then keep raw (instructionIndex + 1) labels
            else
              let labels := bindLabel labelName instructionIndex labels in
              let restOfLine :=
                Str.trim (Str.takeWhile (λ c, negb (Str.isLineTerminator c))
                            (Str.dropWhile Str.isSpace tail)) in
              if Str.isEmpty restOfLine then keep raw instructionIndex labels
              else keep restOfLine (instructionIndex + 1) labels
        | _ => keep raw (instructionIndex + 1) labels
        end
      else keep raw (instructionIndex + 1) labels
  end.

(** The label table [parse(code)] builds in its first pass. *)
Definition labelsOf (code : string) : gmap string Z :=
  (firstPass (Str.split (ascii_of_N 10) code) 0 ∅).1.

(** [parse(code)] *)
Definition parse (code : string) : Result (list Instruction) :=
  let lines := Str.split (ascii_of_N 10) code in
  let '(labels, lines) := firstPass lines 0 ∅ in
  secondPass labels lines 0 0.

End Parser.


(** ** Controller ([controllers/simulatorController.js])

    The module-level [simulatorState] is threaded explicitly: every
    endpoint takes the state the server holds and returns the state
    it holds afterwards. *)

(** What an endpoint answers with: [state] of a success response. *)
Record Snapshot := mkSnapshot {
  s_registers : JSArray;
  s_memory : JSArray;
  s_pc : Z;
  s_halted : bool
}.

Module Controller.

(** A response: [Ok state] for [{success: true, state}], [Throw e]
    for the status-400 answer that carries the message of [e]. *)
Definition Response := Result Snapshot.

(** The freshly initialised [simulatorState]. *)
Definition initialState : State :=
  {| registers := Arr.fill 32 0;
     memory := Arr.fill 1024 0;
     pc := 0;
     instructions := Some [];
     halted := false |}.

(** The [state] object of a success response as [res.json] sends it. *)
Definition snapshot (st : State) : Snapshot :=
  {| s_registers := Arr.toJSON (registers st);
     s_memory := Arr.toJSON (Arr.slice0 256 (memory st));
     s_pc := pc st;
     s_halted := halted st |}.

(** [!simulatorState.halted && simulatorState.pc < instructions.length] *)
Definition running (program : list Instruction) (st : State) : bool :=
  negb (halted st) && (pc st <? Z.of_nat (length program)).

(** The body shared by the loop of [executeProgram] and by
    [stepExecution]: fetch at the program counter, decode, execute. *)
Definition executeNext (program : list Instruction) (st : State) : Result State :=
  let instruction := nth_instruction program (pc st) in
  decoded ← Decoder.decode instruction;
  Executor.execute decoded st.

(** The [while] loop of [executeProgram], run for at most [fuel]
    instructions: [None] when the loop is still running after them,
    otherwise the state reached and how the loop ended. *)
Fixpoint runLoop (fuel : nat) (program : list Instruction) (st : State)
    : option (State * Result unit) :=
  if running program st then
    match fuel with
    | O => None
    | S fuel' =>
        match executeNext program st with
        | Ok st' => runLoop fuel' program st'
        | Throw e => Some (st, Throw e)
        | Undef => Some (st, Undef)
        end
    end
  else Some (st, Ok tt).

(** [executeProgram]: the state the server holds afterwards and the
    response; [None] when the loop needs more than [fuel]
    instructions. *)
Definition executeProgram (fuel : nat) (code : string)
    : option (State * Response) :=
  let st := initialState in
  match Parser.parse code with
  | Ok program =>
      let st := set_instructions (Some program) st in
      match runLoop fuel program st with
      | Some (st, Ok _) => Some (st, Ok (snapshot st))
      | Some (st, Throw e) => Some (st, Throw e)
      | Some (st, Undef) => Some (st, Undef)
      | None => None
      end
  | Throw e => Some (st, Throw e)
  | Undef => Some (st, Undef)
  end.

(** The program a Step request works on: the cached one, or the parse
    of the source text when none is cached
    ([if (!simulatorState.instructions.length) ... = parser.parse(code)]). *)
Definition programOf (cached : list Instruction) (code : string)
    : Result (list Instruction) :=
  if Nat.eqb (length cached) 0 then Parser.parse code else Ok cached.

(** [stepExecution]; [server] is the state held before the request
    and [currentState] the one the request carries, if any. *)
Definition stepExecution (server : State) (code : string)
    (currentState : option State) : State * Response :=
  let st := match currentState with
            | Some given => given
            | None => server
            end in
  match instructions st with
  | None => (st, Throw TypeErrorLengthOfUndefined)
  | Some cached =>
      match programOf cached code with
      | Ok program =>
          let st := set_instructions (Some program) st in
          if running program st then
            match executeNext program st with
            | Ok st' => (st', Ok (snapshot st'))
            | Throw e => (st, Throw e)
            | Undef => (st, Undef)
            end
          else (st, Ok (snapshot st))
      | Throw e => (st, Throw e)
      | Undef => (st, Undef)
      end
  end.

(** [reset] *)
Definition reset : State * Response := (initialState, Ok (snapshot initialState)).

(** *** Driving [stepExecution] from the client side *)

(** The returned snapshot sent back as it is: the object has no
    [instructions] property. *)
Definition threadLiteral (s : Snapshot) : State :=
  {| registers := s_registers s; memory := s_memory s; pc := s_pc s;
     instructions := None; halted := s_halted s |}.

(** The returned snapshot sent back with an empty [instructions] list
    added, as the front end adds one to the [currentState] it sends
    (see [App.currentState] for what else the front end does). *)
Definition threadEmpty (s : Snapshot) : State :=
  {| registers := s_registers s; memory := s_memory s; pc := s_pc s;
     instructions := Some []; halted := s_halted s |}.

(** [n] Step requests after a Reset.  The first request carries no
    snapshot and runs on the state the server holds; every later one
    carries the snapshot the previous one returned, completed by
    [thread].  A failed request ends the sequence. *)
Fixpoint stepThread (thread : Snapshot → State) (code : string) (n : nat)
    : State * Response :=
  match n with
  | O => reset
  | S k =>
      match stepThread thread code k with
      | (server, Ok previous) =>
          stepExecution server code
            (match k with
             | O => None
             | S _ => Some (thread previous)
             end)
      | failed => failed
      end
  end.

(** [n] further Step requests when the server holds [server], each
    carrying the snapshot of the state held, completed by [thread]. *)
Fixpoint threadFrom (thread : Snapshot → State) (code : string) (n : nat)
    (server : State) : State * Response :=
  match n with
  | O => (server, Ok (snapshot server))
  | S k =>
      match stepExecution server code (Some (thread (snapshot server))) with
      | (server', Ok _) => threadFrom thread code k server'
      | failed => failed
      end
  end.

(** [n] Step requests after a Reset, none of which carries a snapshot:
    all run on the state the server holds. *)
Fixpoint stepServer (code : string) (n : nat) : State * Response :=
  match n with
  | O => reset
  | S k =>
      match stepServer code k with
      | (server, Ok _) => stepExecution server code None
      | failed => failed
      end
  end.

(** *** The stores of a run *)

(** The address and width of the store that [decoded] performs on
    [st], if it is a store. *)
Definition storeRange (decoded : Decoded) (st : State) : option (Z * Z) :=
  let width :=
    match d_opcode decoded with
    | SB => Some 1
    | SH => Some 2
    | SW => Some 4
    | _ => None
    end in
  match width, d_rs1 decoded, d_imm decoded with
  | Some w, Some rs1, Some imm =>
      match Executor.getRegister st rs1 with
      | Ok rs1Val => Some (JS.bor (rs1Val + imm) 0, w)
      | _ => None
      end
  | _, _, _ => None
  end.

(** The store of [decoded] on [st], if any, stays within the first
    256 bytes. *)
Definition storeLow (decoded : Decoded) (st : State) : Prop :=
  match storeRange decoded st with
  | Some (address, width) => 0 <= address ∧ address + width <= 256
  | None => True
  end.

(** Every store among the first [fuel] instructions executed from
    [st] stays within the first 256 bytes. *)
Fixpoint storesLow (fuel : nat) (program : list Instruction) (st : State) : Prop :=
  match fuel with
  | O => True
  | S fuel' =>
      if running program st then
        match Decoder.decode (nth_instruction program (pc st)) with
        | Ok decoded =>
            storeLow decoded st ∧
            match Executor.execute decoded st with
            | Ok st' => storesLow fuel' program st'
            | _ => True
            end
        | _ => True
        end
      else True
  end.

Definition runStoresLow (fuel : nat) (code : string) : Prop :=
  match Parser.parse code with
  | Ok program =>
      storesLow fuel program (set_instructions (Some program) initialState)
  | _ => True
  end.

End Controller.


(** ** The front end ([frontend/src/App.js]) *)

Module App.

(** The [currentState] that [handleStep] sends, built from the state
    object of the last response.  The memory is rebuilt by
    [memory.reduce((acc, item) => { acc[item.address] = item.value;
    return acc; }, new Array(1024).fill(0))]; the items of the memory
    the controller returns are numbers, [item.address] is [undefined]
    for each of them, and the array sent is the initial one, 1024
    zeros. *)
Definition currentState (s : Snapshot) : State :=
  {| registers := s_registers s; memory := Arr.fill 1024 0; pc := s_pc s;
     instructions := Some []; halted := s_halted s |}.

End App.

(** ** Predicates used in the statements *)

(** A number in the range of a signed 32-bit integer. *)
Definition int32 (x : Z) : Prop := - 2 ^ 31 <= x < 2 ^ 31.

Definition isBranch (op : Opcode) : bool :=
  match op with
  | BEQ | BNE | BLT | BGE | BLTU | BGEU => true
  | _ => false
  end.

Definition isJump (op : Opcode) : bool :=
  match op with
  | JAL | JALR => true
  | _ => false
  end.

(** The opcodes of the formats that carry a destination register. *)
Definition hasRd (op : Opcode) : bool :=
  match Decoder.opcodes op with
  | F_S | F_SB | F_HLT => false
  | _ => true
  end.

(** A register operand that is present and names one of x0..x31. *)
Definition regOk (o : option Z) : Prop := ∃ r, o = Some r ∧ 0 <= r <= 31.

(** The operands the handler of the instruction reads. *)
Definition operands (d : Decoded) : Prop :=
  match Decoder.opcodes (d_opcode d) with
  | F_R => regOk (d_rd d) ∧ regOk (d_rs1 d) ∧ regOk (d_rs2 d)
  | F_I | F_IL | F_JALR => regOk (d_rd d) ∧ regOk (d_rs1 d) ∧ is_Some (d_imm d)
  | F_S | F_SB => regOk (d_rs1 d) ∧ regOk (d_rs2 d) ∧ is_Some (d_imm d)
  | F_UJ | F_U => regOk (d_rd d) ∧ is_Some (d_imm d)
  | F_HLT => True
  end.

(** The state holds a number in each of x1..x31. *)
Definition regs32 (st : State) : Prop :=
  ∀ r, 1 <= r <= 31 → is_Some (Arr.get (registers st) r).

(** ** Statements of the specification, as they are worded *)

(** "(rs1 + rs2) mod 2^32 reinterpreted as signed" *)
Definition wrapSigned32 (x : Z) : Z :=
  let m := x mod 2 ^ 32 in
  if m <? 2 ^ 31 then m else m - 2 ^ 32.

(** "For all opcodes outside branch/jump, executing one instruction
    advances PC by exactly 1 instruction slot." *)
Definition pc_advances_outside_branch_jump : Prop :=
  ∀ i d st st',
    Decoder.decode (Some i) = Ok d →
    isBranch (d_opcode d) = false → isJump (d_opcode d) = false →
    Executor.execute d st = Ok st' →
    pc st' = pc st + 1.


(** "Branch and jump immediates must be even; an odd value fails
    decoding", for the branch (SB), JAL (UJ) and JALR formats. *)
Definition odd_immediate_fails_decoding : Prop :=
  ∀ i imm,
    (Decoder.opcodes (i_opcode i) = F_SB ∨ Decoder.opcodes (i_opcode i) = F_UJ
     ∨ Decoder.opcodes (i_opcode i) = F_JALR) →
    i_imm i = Some imm → Z.odd imm = true →
    ∃ e, Decoder.decode (Some i) = Throw e.


(** The fields of a record that decoding and execution read. *)
Definition recordView (r : Instruction)
    : Opcode * option Z * option Z * option Z * option Z :=
  (i_opcode r, i_rd r, i_rs1 r, i_rs2 r, i_imm r).

Definition decodedView (d : Decoded)
    : Opcode * option Z * option Z * option Z * option Z * option Z :=
  (d_opcode d, d_rd d, d_rs1 d, d_rs2 d, d_imm d, d_shamt d).

(** A record with its [original] text replaced. *)
Definition with_original (text : string) (r : Instruction) : Instruction :=
  mkInstruction (i_opcode r) (i_format r) (i_index r) (i_lineNum r) text
    (i_rd r) (i_rs1 r) (i_rs2 r) (i_imm r) (i_label r).

(** "A branch to a label N instructions ahead parses to the same
    instruction record as the identical branch written with the
    literal byte offset N*4": the two lines differ in their last
    operand only, and the records are compared up to the source text
    they keep in [original]. *)
Definition label_branch_parses_as_literal : Prop :=
  ∀ (labels : gmap string Z) lineLabel lineLiteral index lineNum
    p0 p1 p2 name literal op target rLabel,
    Str.tokens lineLabel = [p0; p1; p2; name] →
    Str.tokens lineLiteral = [p0; p1; p2; literal] →
    Parser.assoc (Str.toUpperCase p0) Parser.mnemonics = Some op →
    Parser.instructionFormats op = F_SB →
    labels !! name = Some target →
    labels !! literal = None →
    Parser.literalValue literal = Some ((target - index) * 4) →
    Parser.parseInstruction labels lineLabel index lineNum = Ok rLabel →
    ∃ rLiteral,
      Parser.parseInstruction labels lineLiteral index lineNum = Ok rLiteral ∧
      rLabel = with_original (i_original rLabel) rLiteral.


(** "Executing a program N steps one instruction at a time via Step,
    threading the returned snapshot each time, produces the same final
    Machine State as a single Run over the same source": whenever Run
    completes within [N] instructions, [N] Step requests end on the
    state Run answers with.  [thread] is how the client turns a
    returned snapshot into the next [currentState]. *)
Definition step_mode_equals_run (thread : Snapshot → State) : Prop :=
  ∀ code (N : nat) server snap,
    Controller.executeProgram N code = Some (server, Ok snap) →
    (Controller.stepThread thread code N).2 = Ok snap.

(** ** Notions used in the proof of step-mode equivalence *)

(** A sequence of element assignments. *)
Definition writeAll (ws : list (Z * Z)) (m : JSArray) : JSArray :=
  foldl (λ m w, Arr.set m w.1 w.2) m ws.

(** An element assignment within the first 256 elements. *)
Definition lowWrite (w : Z * Z) : Prop := 0 <= w.1 < 256.

(** The element assignments the store of [decoded] makes on [st]. *)
Definition storeWrites (decoded : Decoded) (st : State) : list (Z * Z) :=
  match d_rs1 decoded, d_rs2 decoded, d_imm decoded with
  | Some rs1, Some rs2, Some imm =>
      match Executor.getRegister st rs1, Executor.getRegister st rs2 with
      | Ok rs1Val, Ok rs2Val =>
          let address := JS.bor (rs1Val + imm) 0 in
          match d_opcode decoded with
          | SB =>
              [(address, JS.band (JS.band rs2Val 255) 255)]
          | SH =>
              let val := JS.band rs2Val 65535 in
              [(address, JS.band val 255);
               (address + 1, JS.band (JS.sar val 8) 255)]
          | SW =>
              [(address, JS.band rs2Val 255);
               (address + 1, JS.band (JS.sar rs2Val 8) 255);
               (address + 2, JS.band (JS.sar rs2Val 16) 255);
               (address + 3, JS.band (JS.sar rs2Val 24) 255)]
          | _ => []
          end
      | _, _ => []
      end
  | _, _, _ => []
  end.

(** Two memories that no load tells apart and that are sent alike. *)
Definition memAgree (run step : JSArray) : Prop :=
  Arr.slice0 256 step = Arr.slice0 256 run ∧
  256 <= len run ∧ 256 <= len step ∧
  ∀ a, Arr.getOr0 step a = Arr.getOr0 run a.

(** The state a run is in and the state the server holds in step mode
    after the same instructions. *)
Definition related (run step : State) : Prop :=
  registers step = registers run ∧ pc step = pc run ∧
  halted step = halted run ∧ memAgree (memory run) (memory step).

(** What holds of every state of a run whose stores stay within the
    first 256 bytes. *)
Definition runInvariant (st : State) : Prop :=
  regs32 st ∧
  Arr.toJSON (registers st) = registers st ∧
  256 <= len (memory st) ∧
  ∀ a, ¬ 0 <= a < 256 → Arr.getOr0 (memory st) a = 0.


(** ** Programs used as examples *)

Definition newline : string := String (ascii_of_N 10) EmptyString.

(** [ADDI x1, x0, 1 / HLT] *)
Definition twoSteps : string :=
  ("ADDI x1, x0, 1" ++ newline ++ "HLT")%string.

(** [ADDI x1, x0, 7 / SW x1, x0, 300 / LW x2, x0, 300 / HLT]: a word
    stored beyond the first 256 bytes and loaded back *)
Definition storeBeyond256 : string :=
  ("ADDI x1, x0, 7" ++ newline ++ "SW x1, x0, 300" ++ newline
   ++ "LW x2, x0, 300" ++ newline ++ "HLT")%string.

(** The scenario of the specification:
    [ADDI x1, x0, 10 / ADDI x2, x0, 20 / ADD x3, x1, x2 / SW x3, x0, 100 / HLT] *)
Definition scenario : string :=
  ("ADDI x1, x0, 10" ++ newline ++ "ADDI x2, x0, 20" ++ newline
   ++ "ADD x3, x1, x2" ++ newline ++ "SW x3, x0, 100" ++ newline ++ "HLT")%string.

(** Register [r] of a response, [None] when the request failed. *)
Definition responseRegister (r : Z) (response : Controller.Response) : option Z :=
  match response with
  | Ok s => Arr.get (s_registers s) r
  | _ => None
  end.


(** Whether Run answered with a state, and register [r] of it. *)
Definition runSucceeded (result : option (State * Controller.Response)) : bool :=
  match result with
  | Some (_, Ok _) => true
  | _ => false
  end.

Definition runRegister (r : Z) (result : option (State * Controller.Response))
    : option Z :=
  match result with
  | Some (_, response) => responseRegister r response
  | None => None
  end.

(** What the scenario of the specification looks at in the answer of
    Run: x0..x3, the bytes at 100..103, PC and the halted flag. *)
Definition runView (result : option (State * Controller.Response))
    : option (list (option Z) * list (option Z) * Z * bool) :=
  match result with
  | Some (_, Ok s) =>
      Some (map (Arr.get (s_registers s)) [0; 1; 2; 3],
            map (Arr.get (s_memory s)) [100; 101; 102; 103],
            s_pc s, s_halted s)
  | _ => None
  end.

(** ** Records and states used as examples *)

(** [SH x1, x0, 1]: a half-word store to the odd address 1 *)
Definition shAt1 : Instruction :=
  {| i_opcode := SH; i_format := F_S; i_index := 0; i_lineNum := 1;
     i_original := "SH x1, x0, 1"; i_rd := None; i_rs1 := Some 0;
     i_rs2 := Some 1; i_imm := Some 1; i_label := None |}.

(** [LW x2, x1, 0]: a word load from the address in x1 *)
Definition lwAtX1 : Instruction :=
  {| i_opcode := LW; i_format := F_IL; i_index := 0; i_lineNum := 1;
     i_original := "LW x2, x1, 0"; i_rd := Some 2; i_rs1 := Some 1;
     i_rs2 := None; i_imm := Some 0; i_label := None |}.

(** x1 = 2000000, beyond the 1 MiB of the [Simulator] class and the
    1024 elements of the controller's memory *)
Definition x1Is2000000 : State :=
  set_registers (Arr.set (Arr.fill 32 0) 1 2000000) Controller.initialState.

(** A state whose program counter is below the program: pc = -1. *)
Definition belowTheProgram : State :=
  {| registers := Arr.fill 32 0; memory := Arr.fill 1024 0;
     pc := -1; instructions := Some []; halted := false |}.

Definition hltRecord : Instruction :=
  {| i_opcode := HLT; i_format := F_HLT; i_index := 0; i_lineNum := 1;
     i_original := "HLT"; i_rd := None; i_rs1 := None; i_rs2 := None;
     i_imm := None; i_label := None |}.

Definition addiRecord : Instruction :=
  {| i_opcode := ADDI; i_format := F_I; i_index := 0; i_lineNum := 1;
     i_original := "ADDI x1, x0, 10"; i_rd := Some 1; i_rs1 := Some 0;
     i_rs2 := None; i_imm := Some 10; i_label := None |}.

Definition addiX0 : Decoded :=
  {| d_opcode := ADDI; d_type := F_I; d_format := F_I; d_index := 0;
     d_lineNum := 1; d_original := "ADDI x0, x0, 5"; d_rd := Some 0;
     d_rs1 := Some 0; d_rs2 := None; d_imm := Some 5; d_shamt := None;
     d_label := None |}.

Definition addX3 : Decoded :=
  {| d_opcode := ADD; d_type := F_R; d_format := F_R; d_index := 0;
     d_lineNum := 1; d_original := "ADD x3, x1, x2"; d_rd := Some 3;
     d_rs1 := Some 1; d_rs2 := Some 2; d_imm := None; d_shamt := None;
     d_label := None |}.

(** x1 = 0x7FFFFFFF and x2 = 1 *)
Definition maxPlusOneState : State :=
  set_registers (Arr.set (Arr.set (Arr.fill 32 0) 1 2147483647) 2 1)
    Controller.initialState.

Definition jalrOdd : Instruction :=
  {| i_opcode := JALR; i_format := F_JALR; i_index := 0; i_lineNum := 1;
     i_original := "JALR x1, x2, 1"; i_rd := Some 1; i_rs1 := Some 2;
     i_rs2 := None; i_imm := Some 1; i_label := None |}.

Definition beqOdd : Instruction :=
  {| i_opcode := BEQ; i_format := F_SB; i_index := 0; i_lineNum := 1;
     i_original := "BEQ x1, x2, 3"; i_rd := None; i_rs1 := Some 1;
     i_rs2 := Some 2; i_imm := Some 3; i_label := None |}.

(** [SW x1, x0, 1]: a word store to address 1 *)
Definition swAt1 : Instruction :=
  {| i_opcode := SW; i_format := F_S; i_index := 0; i_lineNum := 1;
     i_original := "SW x1, x0, 1"; i_rd := None; i_rs1 := Some 0;
     i_rs2 := Some 1; i_imm := Some 1; i_label := None |}.

(** x1 = 258 *)
Definition x1Is258 : State :=
  set_registers (Arr.set (Arr.fill 32 0) 1 258) Controller.initialState.

Definition labelsL2 : gmap string Z := {[ "L"%string := 2 ]}.

(** The state after [ADDI x1, x0, 1] has run: pc = 1, not halted. *)
Definition pastTheEnd : State :=
  {| registers := Arr.set (Arr.fill 32 0) 1 1; memory := Arr.fill 1024 0;
     pc := 1; instructions := Some []; halted := false |}.

Definition addi1Program : list Instruction :=
  [ {| i_opcode := ADDI; i_format := F_I; i_index := 0; i_lineNum := 1;
       i_original := "ADDI x1, x0, 1"; i_rd := Some 1; i_rs1 := Some 0;
       i_rs2 := None; i_imm := Some 1; i_label := None |} ].

(** ** Further predicates and examples

    The statements about the rest of the parser, the decoder, the
    executor, the controller and the [Simulator] class use these. *)

(** The low [bits] bits of [v], read as a signed number of [bits] bits *)
Definition signedLow (bits v : Z) : Z :=
  let m := v mod 2 ^ bits in
  if m <? 2 ^ (bits - 1) then m else m - 2 ^ bits.

(** The operands the decoder asks of a record, by the format of its opcode *)
Definition parsedOperands (r : Instruction) : Prop :=
  match Parser.instructionFormats (i_opcode r) with
  | F_R => regOk (i_rd r) ∧ regOk (i_rs1 r) ∧ regOk (i_rs2 r)
  | F_I | F_IL | F_JALR => regOk (i_rd r) ∧ regOk (i_rs1 r) ∧ is_Some (i_imm r)
  | F_S | F_SB => regOk (i_rs1 r) ∧ regOk (i_rs2 r) ∧ is_Some (i_imm r)
  | F_UJ | F_U => regOk (i_rd r) ∧ is_Some (i_imm r)
  | F_HLT => True
  end.

(** The errors the parser raises on a line, before [parse] wraps them
    with the line number *)
Definition syntaxError (e : Error) : bool :=
  match e with
  | EmptyInstruction | UnknownInstruction _ | RequiresOperands _ _ | InvalidFormat _
  | InvalidRegisterName _ | InvalidImmediate _ | ImmediateOutOfRange _ _ _ _ => true
  | _ => false
  end.

(** What [parseInstruction] can fail with under a label table: one
    of the parser's own errors, or the [TypeError] of calling
    [hasOwnProperty] on a table that has a label of that name. *)
Definition lineError (labels : gmap string Z) (e : Error) : Prop :=
  syntaxError e = true ∨
  (e = TypeErrorHasOwnProperty ∧ is_Some (labels !! "hasOwnProperty"%string)).

(** A letter, in either case *)
Definition isLetter (c : ascii) : bool :=
  let n := Str.code c in ((65 <=? n) && (n <=? 90)) || ((97 <=? n) && (n <=? 122)).

Definition startsWithLetter (s : string) : bool :=
  match s with
  | String c _ => isLetter c
  | EmptyString => false
  end.

(** Two lines that clean to the same text *)
Definition sameCleaned (a b : string) : Prop := Parser.cleanLine a = Parser.cleanLine b.

(** The shape of the states of a run: 32 registers that hold signed
    32-bit integers, the first being 0, and at least 1024 memory cells
    that hold bytes. *)
Definition wellFormed (st : State) : Prop :=
  len (registers st) = 32 ∧ Arr.toJSON (registers st) = registers st ∧
  (∀ r, 0 <= r <= 31 → ∃ v, Arr.get (registers st) r = Some v ∧ int32 v) ∧
  Arr.get (registers st) 0 = Some 0 ∧
  1024 <= len (memory st) ∧
  (∀ a, 0 <= a < 1024 → is_Some (Arr.get (memory st) a)) ∧
  (∀ a b, Arr.get (memory st) a = Some b → 0 <= b <= 255).

(** A write of a byte *)
Definition byteWrite (w : Z * Z) : Prop := 0 <= w.2 <= 255.

(** A halted state stands on a HLT instruction of the program. *)
Definition haltedAtHLT (program : list Instruction) (st : State) : Prop :=
  halted st = true → ∃ i, nth_instruction program (pc st) = Some i ∧ i_opcode i = HLT.

(** An instruction that is neither a branch nor a jump *)
Definition straightLine (i : Instruction) : Prop :=
  isBranch (i_opcode i) = false ∧ isJump (i_opcode i) = false.

(** The memory array of a state and the buffer of a simulator that
    hold the same bytes *)
Definition sameBytes (m : JSArray) (s : Simulator.t) : Prop :=
  ∀ a, Arr.getOr0 m a = Simulator.byteAt s a ∧ 0 <= Simulator.byteAt s a <= 255.

(** The buffer of a simulator holds bytes. *)
Definition holdsBytes (s : Simulator.t) : Prop :=
  ∀ a v, Simulator.memory s !! a = Some v → 0 <= v <= 255.

(** The initial state with x1 = [a] and x2 = [b] *)
Definition withX1X2 (a b : Z) : State :=
  set_registers (Arr.set (Arr.set (Arr.fill 32 0) 1 a) 2 b) Controller.initialState.

(** Decoded instructions and records with the given operands, at index 0 *)
Definition decodedWith (op : Opcode) (rd rs1 rs2 imm : option Z) : Decoded :=
  {| d_opcode := op; d_type := Decoder.opcodes op; d_format := Decoder.opcodes op;
     d_index := 0; d_lineNum := 1; d_original := EmptyString; d_rd := rd;
     d_rs1 := rs1; d_rs2 := rs2; d_imm := imm; d_shamt := None; d_label := None |}.

Definition recordWith (op : Opcode) (rd rs1 rs2 imm : option Z) : Instruction :=
  {| i_opcode := op; i_format := Parser.instructionFormats op; i_index := 0;
     i_lineNum := 1; i_original := EmptyString; i_rd := rd; i_rs1 := rs1;
     i_rs2 := rs2; i_imm := imm; i_label := None |}.

(** The program of the scenario, parsed *)
Definition scenarioProgram : list Instruction :=
  Eval vm_compute in
    match Parser.parse scenario with
    | Ok program => program
    | _ => []
    end.

(** [far] is bound to index 1024. *)
Definition labelsFar : gmap string Z := {[ "far"%string := 1024 ]}.

(** A simulator with the byte 7 at address 300, after three cycles *)
Definition byteAt300 : Simulator.instance :=
  {| Simulator.core := Simulator.setUint8 Simulator.reset 300 7;
     Simulator.cycleCount := 3; Simulator.executionHistory := [] |}.

(* ================================================================== *)
(** * Properties *)
(* ================================================================== *)

(** ** Basic facts about the integer operators *)

Lemma toInt32_range x : int32 (JS.toInt32 x).
Proof.
  unfold int32, JS.toInt32. cbv zeta.
  pose proof (Z.mod_pos_bound x (2 ^ 32) ltac:(lia)).
  destruct (Z.ltb_spec (x mod 2 ^ 32) (2 ^ 31)); lia.
Qed.

Lemma toInt32_id x : int32 x → JS.toInt32 x = x.
Proof.
  unfold int32, JS.toInt32. intros H. cbv zeta.
  destruct (Z_lt_dec x 0) as [Hn | Hp].
  - replace (x mod 2 ^ 32) with (x + 2 ^ 32).
    + destruct (Z.ltb_spec (x + 2 ^ 32) (2 ^ 31)); lia.
    + apply Z.mod_unique with (q := -1); lia.
  - rewrite Z.mod_small by lia.
    destruct (Z.ltb_spec x (2 ^ 31)); lia.
Qed.

Lemma bor_0 v : JS.bor v 0 = JS.toInt32 v.
Proof. unfold JS.bor. change (JS.toInt32 0) with 0. apply Z.lor_0_r. Qed.

Lemma orZero_id x : JS.orZero x = x.
Proof. unfold JS.orZero. destruct (Z.eqb_spec x 0); congruence. Qed.

(** ** What decoding guarantees, and that execution is then defined *)

Lemma validateRegister_Ok reg name :
  Decoder.validateRegister reg name = Ok tt ↔ 0 <= reg <= 31.
Proof.
  unfold Decoder.validateRegister.
  destruct (Z.ltb_spec reg 0), (Z.ltb_spec 31 reg); simpl;
    split; intros; try lia; try discriminate; reflexivity.
Qed.

Lemma validateRegister_cases reg name :
  (0 <= reg <= 31 ∧ Decoder.validateRegister reg name = Ok tt) ∨
  (¬ 0 <= reg <= 31 ∧
   Decoder.validateRegister reg name = Throw (InvalidRegisterNumber name reg)).
Proof.
  unfold Decoder.validateRegister.
  destruct (Z.ltb_spec reg 0), (Z.ltb_spec 31 reg); simpl;
    first [ left; split; [lia | reflexivity] | right; split; [lia | reflexivity] ].
Qed.

Ltac case_validate :=
  repeat match goal with
    | |- context [Decoder.validateRegister ?r ?n] =>
        destruct (validateRegister_cases r n) as [[? ->] | [? ->]]; simpl
    | H : context [Decoder.validateRegister ?r ?n] |- _ =>
        let Hv := fresh "Hv" in
        destruct (validateRegister_cases r n) as [[? Hv] | [? Hv]];
        rewrite Hv in H; simpl in H; clear Hv
    end.

Lemma regOk_intro r : 0 <= r <= 31 → regOk (Some r).
Proof. intros. exists r. auto. Qed.

Local Hint Resolve regOk_intro : core.

Lemma decode_operands i d :
  Decoder.decode (Some i) = Ok d → d_opcode d = i_opcode i ∧ operands d.
Proof.
  unfold Decoder.decode, operands.
  destruct i as [op fmt idx ln orig rd rs1 rs2 imm lbl]; simpl.
  destruct op; simpl;
    unfold Decoder.decodeRFormat, Decoder.decodeIFormat, Decoder.decodeLoadFormat,
      Decoder.decodeStoreFormat, Decoder.decodeBranchFormat, Decoder.decodeJALFormat,
      Decoder.decodeJALRFormat, Decoder.decodeUFormat, Decoder.copy_label; simpl;
    intros H;
    repeat match type of H with
      | context [match ?o with Some _ => _ | None => _ end] => destruct o; simpl in H
      | context [if ?b then _ else _] => destruct b eqn:?; simpl in H
      end;
    try discriminate; case_validate; try discriminate;
    inversion H; subst; simpl; auto 10.
Qed.

Lemma getRegister_defined st r :
  regs32 st → 0 <= r <= 31 → ∃ v, Executor.getRegister st r = Ok v.
Proof.
  intros Hst Hr. unfold Executor.getRegister.
  destruct (Z.eqb_spec r 0) as [-> | Hne]; [by eexists |].
  destruct (Hst r ltac:(lia)) as [v ->]. by eexists.
Qed.

Lemma pc_setRegister st r v : pc (Executor.setRegister st r v) = pc st.
Proof. unfold Executor.setRegister. by destruct (negb (r =? 0)). Qed.

Lemma halted_setRegister st r v : halted (Executor.setRegister st r v) = halted st.
Proof. unfold Executor.setRegister. by destruct (negb (r =? 0)). Qed.

Lemma memory_setRegister st r v : memory (Executor.setRegister st r v) = memory st.
Proof. unfold Executor.setRegister. by destruct (negb (r =? 0)). Qed.

Lemma instructions_setRegister st r v :
  instructions (Executor.setRegister st r v) = instructions st.
Proof. unfold Executor.setRegister. by destruct (negb (r =? 0)). Qed.

(** The handlers, unfolded down to the adapter calls. *)
Create HintDb handlers.
#[local] Hint Unfold Executor.execute Executor.handler
  Executor.executeADD Executor.executeSUB Executor.executeSLL
  Executor.executeSLT Executor.executeSLTU Executor.executeXOR
  Executor.executeSRL Executor.executeSRA Executor.executeOR
  Executor.executeAND Executor.executeADDI Executor.executeSLTI
  Executor.executeSLTIU Executor.executeXORI Executor.executeORI
  Executor.executeANDI Executor.executeSLLI Executor.executeSRLI
  Executor.executeSRAI Executor.executeLB Executor.executeLH
  Executor.executeLW Executor.executeLBU Executor.executeLHU
  Executor.executeSB Executor.executeSH Executor.executeSW
  Executor.executeBEQ Executor.executeBNE Executor.executeBLT
  Executor.executeBGE Executor.executeBLTU Executor.executeBGEU
  Executor.executeJAL Executor.executeJALR Executor.executeLUI
  Executor.executeAUIPC Executor.executeHLT
  Executor.readOperand Executor.writeOperand : handlers.

Ltac unfold_handler := autounfold with handlers.
Tactic Notation "unfold_handler" "in" hyp(H) := autounfold with handlers in H.

(** Splits the operand facts of [operands d] and substitutes them. *)
Ltac split_operands :=
  repeat match goal with
    | H : _ ∧ _ |- _ => destruct H
    | H : regOk _ |- _ => destruct H as (? & ? & ?)
    | H : is_Some _ |- _ => destruct H as [? ?]
    end;
  simpl in *; subst.

(** Resolves the register reads of the goal on a state with 32 registers. *)
Ltac read_registers Hst :=
  repeat match goal with
    | |- context [Executor.getRegister ?st ?r] =>
        let v := fresh "v" in
        let E := fresh "E" in
        destruct (getRegister_defined st r Hst ltac:(lia)) as [v E];
        rewrite E; clear E; simpl
    end.

Lemma execute_defined d st :
  operands d → regs32 st → ∃ st', Executor.execute d st = Ok st'.
Proof.
  intros Hop Hst. unfold operands in Hop.
  destruct d as [op ty fmt idx ln orig rd rs1 rs2 imm shamt lbl].
  destruct op; simpl in Hop; split_operands; unfold_handler; simpl;
    read_registers Hst;
    repeat match goal with
      | |- context [if ?b then _ else _] => destruct b; simpl
      end;
    by eexists.
Qed.

Lemma decode_execute_defined i d st :
  Decoder.decode (Some i) = Ok d → regs32 st →
  ∃ st', Executor.execute d st = Ok st'.
Proof.
  intros Hd Hst. apply execute_defined; [| done].
  by destruct (decode_operands i d Hd).
Qed.

(** ** The initial state *)

Lemma fillFrom_lookup n v k :
  Arr.fillFrom n v !! k = if decide (0 <= k < Z.of_nat n) then Some v else None.
Proof.
  induction n as [| n IH]; simpl.
  - rewrite lookup_empty. case_decide; [lia | done].
  - rewrite lookup_insert, IH.
    destruct (decide (Z.of_nat n = k)), (decide (0 <= k < Z.of_nat n)),
      (decide (0 <= k < Z.of_nat (S n))); try done; lia.
Qed.

Lemma regs32_initialState : regs32 Controller.initialState.
Proof.
  intros r Hr.
  change (is_Some (Arr.fillFrom 32 0 !! r)).
  rewrite fillFrom_lookup.
  case_decide; [by eexists | lia].
Qed.

(** ** The scenario of the specification, evaluated

    [ADDI x1, x0, 10 / ADDI x2, x0, 20 / ADD x3, x1, x2 / SW x3, x0, 100 / HLT]
    run to completion leaves x1 = 10, x2 = 20, x3 = 30, the bytes
    30, 0, 0, 0 at address 100, halted = true and PC = 4. *)

Example scenario_run :
  runView (Controller.executeProgram 5 scenario)
  = Some ([Some 0; Some 10; Some 20; Some 30],
          [Some 30; Some 0; Some 0; Some 0], 4, true).
Proof. vm_compute. reflexivity. Qed.

Example scenario_stepped :
  runView (Some (Controller.stepThread Controller.threadEmpty scenario 5))
  = Some ([Some 0; Some 10; Some 20; Some 30],
          [Some 30; Some 0; Some 0; Some 0], 4, true).
Proof. vm_compute. reflexivity. Qed.

Example parse_immediate_2048 :
  Parser.parse "ADDI x1, x0, 2048"
  = Throw (AtLine 1 (ImmediateOutOfRange 2048 12 (-2048) 2047)).
Proof. vm_compute. reflexivity. Qed.

Example parse_hlt_with_operands :
  Parser.parse "start: hlt x1, 5(x2)   # stop"
  = Ok [ {| i_opcode := HLT; i_format := F_HLT; i_index := 0; i_lineNum := 1;
            i_original := "hlt x1, 5(x2)"; i_rd := None; i_rs1 := None;
            i_rs2 := None; i_imm := None; i_label := None |} ].
Proof. vm_compute. reflexivity. Qed.

(** ** C3: the program counter after an instruction that is neither a
    branch nor a jump *)

(** C3, counterexample: HLT is outside branch/jump, and executing it
    on the initial state leaves the program counter at 0. *)
Lemma C3_counterexample : ¬ pc_advances_outside_branch_jump.
Proof.
  intros H.
  specialize (H hltRecord (Decoder.base hltRecord) Controller.initialState
                (Executor.halt Controller.initialState)
                eq_refl eq_refl eq_refl eq_refl).
  discriminate H.
Qed.

(** The program counter after any instruction that is neither a branch
    nor a jump, given the operands decoding provides. *)
Lemma execute_pc_next d st :
  operands d → regs32 st →
  isBranch (d_opcode d) = false → isJump (d_opcode d) = false →
  ∃ st', Executor.execute d st = Ok st' ∧
    if decide (d_opcode d = HLT) then pc st' = pc st ∧ halted st' = true
    else pc st' = pc st + 1.
Proof.
  intros Hop Hst Hb Hj.
  unfold operands in Hop.
  destruct d as [op ty fmt idx ln orig rd rs1 rs2 imm shamt lbl].
  simpl in Hb, Hj.
  destruct op; try discriminate; simpl in Hop; split_operands;
    unfold_handler; simpl; read_registers Hst;
    (eexists; split; [reflexivity |]); simpl;
    rewrite ?pc_setRegister; auto.
Qed.

(** C3, amended: every decoded instruction that is neither a branch,
    nor a jump, nor HLT executes and leaves the program counter one
    slot further; HLT executes, leaves the program counter where it is
    and sets the halted flag. *)
Theorem C3_pc_after_execute i d st :
  Decoder.decode (Some i) = Ok d →
  regs32 st →
  isBranch (d_opcode d) = false → isJump (d_opcode d) = false →
  ∃ st', Executor.execute d st = Ok st' ∧
    if decide (d_opcode d = HLT) then pc st' = pc st ∧ halted st' = true
    else pc st' = pc st + 1.
Proof.
  intros Hd. destruct (decode_operands i d Hd) as [_ Hop].
  by apply execute_pc_next.
Qed.

Lemma C3_witness :
  ∃ st', Executor.execute (Decoder.with_imm 10 (Decoder.with_rs1 0
             (Decoder.with_rd 1 (Decoder.base addiRecord))))
           Controller.initialState = Ok st' ∧
         pc st' = pc Controller.initialState + 1.
Proof.
  exact (C3_pc_after_execute addiRecord _ Controller.initialState
           eq_refl regs32_initialState eq_refl eq_refl).
Defined.

(** ** C4: register 0 *)

(** Takes apart a successful monadic computation in hypothesis [H]. *)
Ltac invert_execute H :=
  repeat match type of H with
    | context [defined ?o] => destruct o; simpl in H
    | context [Executor.getRegister ?st ?r] =>
        destruct (Executor.getRegister st r); simpl in H
    | context [if ?b then _ else _] => destruct b eqn:?; simpl in H
    end;
  try discriminate H;
  try (injection H as H; subst).

(** What an instruction does to the register file: nothing, or one
    write of a 32-bit value to a register [rd] other than x0, by an
    instruction of a format that has an [rd]. *)
Lemma execute_registers d st st' :
  Executor.execute d st = Ok st' →
  registers st' = registers st ∨
  ∃ rd v, d_rd d = Some rd ∧ rd ≠ 0 ∧ hasRd (d_opcode d) = true ∧
          registers st' = Arr.set (registers st) rd (JS.bor v 0).
Proof.
  destruct d as [op ty fmt idx ln orig rd rs1 rs2 imm shamt lbl].
  intros H. unfold Executor.execute in H. cbn [d_opcode] in H.
  destruct op; unfold_handler in H; cbn [d_rd d_rs1 d_rs2 d_imm] in H;
    invert_execute H;
    cbn [registers Executor.incrementPC Executor.setPC Executor.halt
         Executor.writeByte Executor.writeHalfWord Executor.writeWord
         set_pc set_halted set_memory];
    try (by left);
    match goal with
    | |- context [Executor.setRegister ?s ?r ?v] =>
        unfold Executor.setRegister;
        destruct (Z.eqb_spec r 0); cbn [negb registers set_registers];
        [by left | right; by exists r, v]
    end.
Qed.

Lemma get_set_ne a i j v : i ≠ j → Arr.get (Arr.set a i v) j = Arr.get a j.
Proof. intros. unfold Arr.get, Arr.set. cbn [elems]. by rewrite lookup_insert_ne. Qed.

Lemma get_set_eq a i v : Arr.get (Arr.set a i v) i = Some v.
Proof. unfold Arr.get, Arr.set. cbn [elems]. by rewrite lookup_insert_eq. Qed.

(** C4: register 0 reads as 0 whatever is written to it, through the
    adapter of the executor and through the [Simulator] class alike;
    and no executed instruction changes what register 0 holds or reads
    as, an instruction with [rd = 0] leaving the whole register file
    as it was. *)
Theorem C4_register_zero_invariant :
  (∀ st v, Executor.getRegister (Executor.setRegister st 0 v) 0 = Ok 0 ∧
           Executor.setRegister st 0 v = st) ∧
  (∀ s v, Simulator.setRegister s 0 v = Ok s ∧ Simulator.getRegister s 0 = Ok 0) ∧
  (∀ d st st', Executor.execute d st = Ok st' →
     Executor.getRegister st' 0 = Ok 0 ∧
     Arr.get (registers st') 0 = Arr.get (registers st) 0 ∧
     (d_rd d = Some 0 → registers st' = registers st)).
Proof.
  split; [| split].
  - intros st v. split; reflexivity.
  - intros s v. split; reflexivity.
  - intros d st st' H. split; [reflexivity |].
    destruct (execute_registers d st st' H) as [-> | (rd & v & Hrd & Hne & _ & ->)].
    + split; [reflexivity | done].
    + split; [by apply get_set_ne |].
      intros Hz. rewrite Hz in Hrd. congruence.
Qed.

Lemma C4_witness :
  Executor.execute addiX0 Controller.initialState
    = Ok (Executor.incrementPC Controller.initialState) ∧
  Executor.getRegister (Executor.incrementPC Controller.initialState) 0 = Ok 0 ∧
  registers (Executor.incrementPC Controller.initialState)
    = registers Controller.initialState.
Proof.
  split; [reflexivity |].
  destruct C4_register_zero_invariant as (_ & _ & H).
  destruct (H addiX0 Controller.initialState
              (Executor.incrementPC Controller.initialState) eq_refl)
    as (H0 & _ & Hrd).
  split; [exact H0 | exact (Hrd eq_refl)].
Defined.

(** ** C5: 32-bit wrap-around *)

Lemma wrapSigned32_toInt32 x : wrapSigned32 x = JS.toInt32 x.
Proof. reflexivity. Qed.

(** The signed reading of [x mod 2^32] is the one 32-bit integer
    congruent to [x] modulo 2^32. *)
Lemma wrapSigned32_spec x :
  int32 (wrapSigned32 x) ∧ (wrapSigned32 x) mod 2 ^ 32 = x mod 2 ^ 32.
Proof.
  split; [apply toInt32_range |].
  unfold wrapSigned32. cbv zeta.
  pose proof (Z.mod_pos_bound x (2 ^ 32) ltac:(lia)).
  destruct (Z.ltb_spec (x mod 2 ^ 32) (2 ^ 31)).
  - apply Z.mod_mod. lia.
  - replace (x mod 2 ^ 32 - 2 ^ 32) with (x mod 2 ^ 32 + (-1) * 2 ^ 32) by lia.
    rewrite Z.mod_add by lia. apply Z.mod_mod. lia.
Qed.

Lemma toInt32_idem x : JS.toInt32 (JS.toInt32 x) = JS.toInt32 x.
Proof. apply toInt32_id, toInt32_range. Qed.

(** Every register an instruction writes receives a 32-bit value. *)
Lemma execute_regs_int32 d st st' :
  Executor.execute d st = Ok st' →
  (∀ r v, Arr.get (registers st) r = Some v → int32 v) →
  ∀ r v, Arr.get (registers st') r = Some v → int32 v.
Proof.
  intros H Hst r v.
  destruct (execute_registers d st st' H) as [-> | (rd & w & _ & _ & _ & ->)];
    [apply Hst |].
  destruct (decide (rd = r)) as [-> | Hne].
  - rewrite get_set_eq. intros [= <-]. rewrite bor_0. apply toInt32_range.
  - rewrite get_set_ne by done. apply Hst.
Qed.

(** C5: on 32-bit register values [a] and [b], ADD executes and leaves
    in [rd] the sum reduced modulo 2^32 and read as signed (x0 keeps
    reading 0); the result is the 32-bit integer congruent to [a + b],
    the program counter moves on by one, and 0x7FFFFFFF + 1 comes out
    as -2147483648. *)
Theorem C5_add_wraps_around d st rd rs1 rs2 a b :
  d_opcode d = ADD →
  d_rd d = Some rd → d_rs1 d = Some rs1 → d_rs2 d = Some rs2 →
  0 <= rd <= 31 →
  Executor.getRegister st rs1 = Ok a →
  Executor.getRegister st rs2 = Ok b →
  int32 a → int32 b →
  ∃ st', Executor.execute d st = Ok st' ∧
    Executor.getRegister st' rd
      = Ok (if rd =? 0 then 0 else wrapSigned32 (a + b)) ∧
    int32 (wrapSigned32 (a + b)) ∧
    (wrapSigned32 (a + b)) mod 2 ^ 32 = (a + b) mod 2 ^ 32 ∧
    pc st' = pc st + 1 ∧
    wrapSigned32 (2147483647 + 1) = -2147483648.
Proof.
  intros Hop Hrd Hrs1 Hrs2 Hr Ha Hb _ _.
  destruct d as [op ty fmt idx ln orig ord ors1 ors2 imm shamt lbl].
  simpl in Hop, Hrd, Hrs1, Hrs2. subst.
  unfold Executor.execute. cbn [d_opcode Executor.handler].
  unfold Executor.executeADD, Executor.readOperand, Executor.writeOperand.
  cbn [d_rd d_rs1 d_rs2 defined].
  cbn [mbind Result_bind]. rewrite Ha. cbn [mbind Result_bind].
  rewrite Hb. cbn [mbind Result_bind].
  eexists. split; [reflexivity |].
  destruct (wrapSigned32_spec (a + b)) as [Hi Hm].
  split; [| split; [exact Hi | split; [exact Hm | split; [| reflexivity]]]].
  - unfold Executor.getRegister, Executor.incrementPC, Executor.setRegister.
    destruct (Z.eqb_spec rd 0) as [-> | Hne]; [reflexivity |].
    cbn [negb registers set_pc set_registers].
    rewrite get_set_eq. cbn [defined].
    by rewrite !bor_0, toInt32_idem.
  - unfold Executor.incrementPC. cbn [pc set_pc]. by rewrite pc_setRegister.
Qed.

Lemma C5_witness :
  ∃ st', Executor.execute addX3 maxPlusOneState = Ok st' ∧
         Executor.getRegister st' 3 = Ok (-2147483648).
Proof.
  destruct (C5_add_wraps_around addX3 maxPlusOneState 3 1 2 2147483647 1
              eq_refl eq_refl eq_refl eq_refl ltac:(lia) eq_refl eq_refl
              ltac:(unfold int32; lia) ltac:(unfold int32; lia))
    as (st' & He & Hr & _).
  exists st'. split; [exact He | exact Hr].
Defined.

(** ** C6: parity of branch and jump immediates *)

Lemma odd_toInt32 x : Z.odd (JS.toInt32 x) = Z.odd x.
Proof.
  unfold JS.toInt32. cbv zeta.
  assert (Hm : Z.odd (x mod 2 ^ 32) = Z.odd x).
  { rewrite (Z.mod_eq x (2 ^ 32)) by lia.
    rewrite Z.odd_sub, Z.odd_mul. change (Z.odd (2 ^ 32)) with false.
    cbn [andb]. apply xorb_false_r. }
  destruct (x mod 2 ^ 32 <? 2 ^ 31); [exact Hm |].
  rewrite Z.odd_sub, Hm. apply xorb_false_r.
Qed.

Lemma odd_lor a b : Z.odd (Z.lor a b) = Z.odd a || Z.odd b.
Proof. rewrite <- !Z.bit0_odd. apply Z.lor_spec. Qed.

Lemma odd_land a b : Z.odd (Z.land a b) = Z.odd a && Z.odd b.
Proof. rewrite <- !Z.bit0_odd. apply Z.land_spec. Qed.

Lemma rem2_odd a : (JS.rem a 2 =? 0) = negb (Z.odd a).
Proof.
  unfold JS.rem.
  pose proof (Z.quot_rem' a 2) as Hq.
  pose proof (Z.rem_bound_abs a 2 ltac:(lia)) as Hb.
  assert (Ho : Z.odd a = Z.odd (Z.rem a 2)).
  { rewrite Hq at 1. rewrite Z.add_comm, Z.odd_add_mul_2. reflexivity. }
  rewrite Ho.
  assert (Hc : Z.rem a 2 = -1 ∨ Z.rem a 2 = 0 ∨ Z.rem a 2 = 1) by lia.
  destruct Hc as [-> | [-> | ->]]; reflexivity.
Qed.

(** Sign extension from 13 or from 21 bits keeps the parity. *)
Lemma odd_signExtend_13 v : Z.odd (Decoder.signExtend v 13) = Z.odd v.
Proof.
  unfold Decoder.signExtend. cbv zeta.
  destruct (negb _).
  - unfold JS.bor. rewrite odd_lor, odd_toInt32.
    change (Z.odd (JS.toInt32 (JS.shl (-1) 13))) with false. apply orb_false_r.
  - unfold JS.band. rewrite odd_land, odd_toInt32.
    change (Z.odd (JS.toInt32 (JS.shl 1 13 - 1))) with true. apply andb_true_r.
Qed.

Lemma odd_signExtend_21 v : Z.odd (Decoder.signExtend v 21) = Z.odd v.
Proof.
  unfold Decoder.signExtend. cbv zeta.
  destruct (negb _).
  - unfold JS.bor. rewrite odd_lor, odd_toInt32.
    change (Z.odd (JS.toInt32 (JS.shl (-1) 21))) with false. apply orb_false_r.
  - unfold JS.band. rewrite odd_land, odd_toInt32.
    change (Z.odd (JS.toInt32 (JS.shl 1 21 - 1))) with true. apply andb_true_r.
Qed.

(** C6, counterexample: [JALR x1, x2, 1] has an odd immediate and
    decodes. *)
Lemma C6_counterexample : ¬ odd_immediate_fails_decoding.
Proof.
  intros H.
  destruct (H jalrOdd 1 (or_intror (or_intror eq_refl)) eq_refl eq_refl) as [e He].
  discriminate He.
Qed.

(** C6, amended: a branch (SB) or JAL (UJ) record with an odd
    immediate fails decoding, with the odd-offset error as soon as its
    other operands are present; with an even immediate and registers
    in x0..x31 it decodes, to the sign-extended immediate.  A JALR
    record is not checked for evenness: with registers in x0..x31 it
    decodes whatever the parity of its immediate. *)
Theorem C6_odd_offsets_rejected i imm :
  i_imm i = Some imm →
  match Decoder.opcodes (i_opcode i) with
  | F_SB =>
      (Z.odd imm = true →
       ∃ e, Decoder.decode (Some i) = Throw e ∧
            (is_Some (i_rs1 i) → is_Some (i_rs2 i) →
             e = BranchOffsetOdd (i_opcode i))) ∧
      (Z.odd imm = false → regOk (i_rs1 i) → regOk (i_rs2 i) →
       ∃ d, Decoder.decode (Some i) = Ok d ∧
            d_imm d = Some (Decoder.signExtend imm 13))
  | F_UJ =>
      (Z.odd imm = true →
       ∃ e, Decoder.decode (Some i) = Throw e ∧
            (is_Some (i_rd i) → e = JumpOffsetOdd (i_opcode i))) ∧
      (Z.odd imm = false → regOk (i_rd i) →
       ∃ d, Decoder.decode (Some i) = Ok d ∧
            d_imm d = Some (Decoder.signExtend imm 21))
  | F_JALR =>
      regOk (i_rd i) → regOk (i_rs1 i) →
      ∃ d, Decoder.decode (Some i) = Ok d ∧
           d_imm d = Some (Decoder.signExtend imm 12)
  | _ => True
  end.
Proof.
  intros Himm.
  destruct i as [op fmt idx ln orig rd rs1 rs2 oimm lbl]. simpl in Himm. subst oimm.
  unfold Decoder.decode. cbn [i_opcode i_rd i_rs1 i_rs2].
  destruct (Decoder.opcodes op) eqn:Hty; try exact I.
  - (* SB *)
    unfold Decoder.decodeBranchFormat. cbn [i_opcode i_rd i_rs1 i_rs2 i_imm].
    rewrite rem2_odd, negb_involutive, odd_signExtend_13.
    split.
    + intros Ho. rewrite Ho.
      destruct rs1 as [rs1 |], rs2 as [rs2 |]; eexists; (split; [reflexivity |]);
        intros [? ?] [? ?]; congruence.
    + intros He (r1 & -> & Hr1) (r2 & -> & Hr2). rewrite He.
      destruct (validateRegister_Ok r1 "rs1") as [_ H1].
      destruct (validateRegister_Ok r2 "rs2") as [_ H2].
      rewrite (H1 Hr1), (H2 Hr2). cbn [mbind Result_bind].
      eexists. split; [reflexivity |].
      unfold Decoder.copy_label. cbn [i_label].
      destruct lbl as [l |]; [destruct (String.eqb l "") |]; reflexivity.
  - (* UJ *)
    unfold Decoder.decodeJALFormat. cbn [i_opcode i_rd i_rs1 i_rs2 i_imm].
    rewrite rem2_odd, negb_involutive, odd_signExtend_21.
    split.
    + intros Ho. rewrite Ho.
      destruct rd as [rd |]; eexists; (split; [reflexivity |]);
        intros [? ?]; congruence.
    + intros He (r & -> & Hr). rewrite He.
      destruct (validateRegister_Ok r "rd") as [_ H1].
      rewrite (H1 Hr). cbn [mbind Result_bind].
      eexists. split; [reflexivity |].
      unfold Decoder.copy_label. cbn [i_label].
      destruct lbl as [l |]; [destruct (String.eqb l "") |]; reflexivity.
  - (* JALR *)
    unfold Decoder.decodeJALRFormat. cbn [i_opcode i_rd i_rs1 i_rs2 i_imm].
    intros (r & -> & Hr) (r1 & -> & Hr1).
    destruct (validateRegister_Ok r "rd") as [_ H1].
    destruct (validateRegister_Ok r1 "rs1") as [_ H2].
    rewrite (H1 Hr), (H2 Hr1). cbn [mbind Result_bind].
    eexists. split; reflexivity.
Qed.

Lemma C6_witness :
  ∃ e, Decoder.decode (Some beqOdd) = Throw e ∧
       (is_Some (i_rs1 beqOdd) → is_Some (i_rs2 beqOdd) → e = BranchOffsetOdd BEQ).
Proof.
  exact (proj1 (C6_odd_offsets_rejected beqOdd 3 eq_refl) eq_refl).
Defined.

(** ** C2: alignment and bounds of memory accesses *)

(** The [Simulator] class checks every access. *)
Lemma validateAddress_Ok s address size :
  Simulator.validateAddress s address size = Ok tt ↔
  0 <= address ∧ address + size <= Simulator.byteLength ∧
  (size = 2 → JS.rem address 2 = 0) ∧ (size = 4 → JS.rem address 4 = 0).
Proof.
  unfold Simulator.validateAddress.
  destruct (Z.ltb_spec address 0), (Z.ltb_spec Simulator.byteLength (address + size));
    cbn [orb]; try (split; [discriminate | lia]).
  destruct (Z.eqb_spec size 2), (Z.eqb_spec (JS.rem address 2) 0);
    cbn [andb negb]; try (split; [discriminate | intros (_ & _ & ? & _); tauto]);
  destruct (Z.eqb_spec size 4), (Z.eqb_spec (JS.rem address 4) 0);
    cbn [andb negb]; try (split; [discriminate | intros (_ & _ & _ & ?); tauto]);
  (split; [intros _; repeat split; (lia || congruence || tauto) | reflexivity]).
Qed.

Lemma Simulator_writeWord_unaligned s address value :
  0 <= address → address + 4 <= Simulator.byteLength → JS.rem address 4 ≠ 0 →
  Simulator.writeWord s address value = Throw (UnalignedWord address).
Proof.
  intros H0 H1 H4. unfold Simulator.writeWord, Simulator.validateAddress.
  destruct (Z.ltb_spec address 0); [lia |].
  destruct (Z.ltb_spec Simulator.byteLength (address + 4)); [lia |].
  cbn [orb]. change (4 =? 2) with false. change (4 =? 4) with true. cbn [andb].
  destruct (Z.eqb_spec (JS.rem address 4) 0); [done | reflexivity].
Qed.

Lemma Simulator_access_out_of_bounds s address size :
  address < 0 ∨ Simulator.byteLength < address + size →
  Simulator.validateAddress s address size = Throw (MemoryAccessViolation address).
Proof.
  intros H. unfold Simulator.validateAddress.
  destruct (Z.ltb_spec address 0), (Z.ltb_spec Simulator.byteLength (address + size));
    cbn [orb]; try reflexivity; lia.
Qed.

(** C2, what the code does: [execute] runs every load and store through
    the adapter, which checks neither bounds nor alignment; a decoded
    load or store executes on every state with 32 registers and moves
    the program counter on, whatever its address. *)
Theorem C2_execute_checks_no_address i d st :
  Decoder.decode (Some i) = Ok d →
  regs32 st →
  Decoder.opcodes (d_opcode d) = F_S ∨ Decoder.opcodes (d_opcode d) = F_IL →
  ∃ st', Executor.execute d st = Ok st' ∧ pc st' = pc st + 1.
Proof.
  intros Hd Hst Hty. destruct (decode_operands i d Hd) as [_ Hop].
  assert (Hb : isBranch (d_opcode d) = false)
    by (destruct (d_opcode d), Hty; try reflexivity; discriminate).
  assert (Hj : isJump (d_opcode d) = false)
    by (destruct (d_opcode d), Hty; try reflexivity; discriminate).
  destruct (execute_pc_next d st Hop Hst Hb Hj) as (st' & He & Hpc).
  exists st'. split; [exact He |].
  destruct (decide (d_opcode d = HLT)) as [Heq |]; [| exact Hpc].
  rewrite Heq in Hty. destruct Hty; discriminate.
Qed.

Lemma regs32_set_registers a st :
  (∀ r, 1 <= r <= 31 → is_Some (Arr.get a r)) → regs32 (set_registers a st).
Proof. intros H r Hr. by apply H. Qed.

Lemma regs32_x1Is258 : regs32 x1Is258.
Proof.
  apply regs32_set_registers. intros r Hr.
  destruct (decide (1 = r)) as [<- | Hne].
  - rewrite get_set_eq. by eexists.
  - rewrite get_set_ne by done. by apply regs32_initialState.
Qed.

Lemma C2_witness :
  ∃ st', Executor.execute
           (Decoder.with_imm 1 (Decoder.with_rs2 1 (Decoder.with_rs1 0
              (Decoder.base swAt1)))) x1Is258 = Ok st' ∧
         pc st' = pc x1Is258 + 1.
Proof.
  exact (C2_execute_checks_no_address swAt1 _ x1Is258 eq_refl regs32_x1Is258
           (or_introl eq_refl)).
Defined.

(** The same store, evaluated: the four bytes land at addresses 1..4
    and the program counter moves to 1, where the [Simulator] class
    refuses the access. *)
Example C2_unaligned_store_evaluated :
  ∃ st', (d ← Decoder.decode (Some swAt1); Executor.execute d x1Is258) = Ok st' ∧
         map (Arr.get (memory st')) [0; 1; 2; 3; 4; 5]
           = [Some 0; Some 2; Some 1; Some 0; Some 0; Some 0] ∧
         pc st' = 1 ∧
         Simulator.writeWord Simulator.reset 1 258 = Throw (UnalignedWord 1).
Proof. eexists. split; [reflexivity |]. vm_compute. auto. Qed.

(** A half-word store to the odd address 1 and a word load from
    address 2000000 execute as well; the [Simulator] class refuses
    both. *)
Example C2_odd_and_out_of_range_evaluated :
  (∃ st', (d ← Decoder.decode (Some shAt1); Executor.execute d x1Is258) = Ok st' ∧
          map (Arr.get (memory st')) [0; 1; 2; 3] = [Some 0; Some 2; Some 1; Some 0] ∧
          pc st' = 1) ∧
  (∃ st', (d ← Decoder.decode (Some lwAtX1); Executor.execute d x1Is2000000) = Ok st' ∧
          Arr.get (registers st') 2 = Some 0 ∧ pc st' = 1) ∧
  Simulator.writeHalfWord Simulator.reset 1 258 = Throw (UnalignedHalfWord 1) ∧
  Simulator.readWord Simulator.reset 2000000 = Throw (MemoryAccessViolation 2000000).
Proof.
  split; [| split; [| split]].
  - eexists. split; [reflexivity |]. vm_compute. auto.
  - eexists. split; [reflexivity |]. vm_compute. auto.
  - reflexivity.
  - reflexivity.
Qed.

(** ** C8: the range of immediates *)

(** On the bit widths the parser uses, [1 << (bits - 1)] is
    2^(bits-1). *)
Lemma shl_1_width bits :
  In bits [12; 13; 20; 21] → JS.shl 1 (bits - 1) = 2 ^ (bits - 1).
Proof.
  intros [<- | [<- | [<- | [<- | []]]]]; reflexivity.
Qed.

Lemma parseImmediate_range imm bits v :
  In bits [12; 13; 20; 21] →
  Parser.literalValue imm = Some v →
  Parser.parseImmediate imm bits =
    if (2 ^ (bits - 1) - 1 <? v) || (v <? - 2 ^ (bits - 1))
    then Throw (ImmediateOutOfRange v bits (- 2 ^ (bits - 1)) (2 ^ (bits - 1) - 1))
    else Ok v.
Proof.
  intros Hb Hv. unfold Parser.parseImmediate. rewrite Hv. cbv zeta.
  by rewrite (shl_1_width bits Hb).
Qed.

(** An I-format line with four tokens and two register names parses
    up to its immediate. *)
Lemma parseInstruction_IFormat (labels : gmap string Z) line index lineNum
    m r1 r2 literal op rd rs1 :
  Str.tokens line = [m; r1; r2; literal] →
  Parser.assoc (Str.toUpperCase m) Parser.mnemonics = Some op →
  Parser.instructionFormats op = F_I →
  Parser.parseRegister r1 = Ok rd →
  Parser.parseRegister r2 = Ok rs1 →
  Parser.parseInstruction labels line index lineNum =
    (imm ← Parser.parseImmediate literal 12;
     Ok {| i_opcode := op; i_format := F_I; i_index := index;
           i_lineNum := lineNum; i_original := line; i_rd := Some rd;
           i_rs1 := Some rs1; i_rs2 := None; i_imm := Some imm;
           i_label := None |}).
Proof.
  intros Ht Hm Hf H1 H2. unfold Parser.parseInstruction.
  rewrite Ht, Hm, Hf. unfold Parser.parseIFormat.
  rewrite H1. cbn [mbind Result_bind]. rewrite H2. cbn [mbind Result_bind].
  reflexivity.
Qed.

(** C8: on an I-format instruction with valid register names the
    immediate literal 2048 fails parsing with the range error and 2047
    parses; and for every literal and every bit width of a format (12,
    13, 20, 21), [parseImmediate] throws the range error when the
    value of the literal lies outside [-2^(bits-1), 2^(bits-1) - 1] and
    returns the value when it lies inside. *)
Theorem C8_immediate_out_of_range_rejected :
  (∀ (labels : gmap string Z) line index lineNum m r1 r2 literal op rd rs1,
     Str.tokens line = [m; r1; r2; literal] →
     Parser.assoc (Str.toUpperCase m) Parser.mnemonics = Some op →
     Parser.instructionFormats op = F_I →
     Parser.parseRegister r1 = Ok rd →
     Parser.parseRegister r2 = Ok rs1 →
     (literal = "2048"%string →
      Parser.parseInstruction labels line index lineNum
        = Throw (ImmediateOutOfRange 2048 12 (-2048) 2047)) ∧
     (literal = "2047"%string →
      Parser.parseInstruction labels line index lineNum
        = Ok {| i_opcode := op; i_format := F_I; i_index := index;
                i_lineNum := lineNum; i_original := line; i_rd := Some rd;
                i_rs1 := Some rs1; i_rs2 := None; i_imm := Some 2047;
                i_label := None |})) ∧
  (∀ imm bits v,
     In bits [12; 13; 20; 21] →
     Parser.literalValue imm = Some v →
     (v < - 2 ^ (bits - 1) ∨ 2 ^ (bits - 1) - 1 < v →
      Parser.parseImmediate imm bits
        = Throw (ImmediateOutOfRange v bits (- 2 ^ (bits - 1)) (2 ^ (bits - 1) - 1))) ∧
     (- 2 ^ (bits - 1) <= v <= 2 ^ (bits - 1) - 1 →
      Parser.parseImmediate imm bits = Ok v)).
Proof.
  split.
  - intros labels line index lineNum m r1 r2 literal op rd rs1 Ht Hm Hf H1 H2.
    rewrite (parseInstruction_IFormat labels line index lineNum m r1 r2 literal
               op rd rs1 Ht Hm Hf H1 H2).
    split; intros ->; reflexivity.
  - intros imm bits v Hb Hv. rewrite (parseImmediate_range imm bits v Hb Hv).
    split; intros Hr.
    + destruct (Z.ltb_spec (2 ^ (bits - 1) - 1) v), (Z.ltb_spec v (- 2 ^ (bits - 1)));
        cbn [orb]; try reflexivity; lia.
    + destruct (Z.ltb_spec (2 ^ (bits - 1) - 1) v), (Z.ltb_spec v (- 2 ^ (bits - 1)));
        cbn [orb]; try reflexivity; lia.
Qed.

Lemma C8_witness :
  Parser.parseInstruction ∅ "ADDI x1, x0, 2048" 0 1
    = Throw (ImmediateOutOfRange 2048 12 (-2048) 2047) ∧
  Parser.parseInstruction ∅ "ADDI x1, x0, 2047" 0 1
    = Ok {| i_opcode := ADDI; i_format := F_I; i_index := 0; i_lineNum := 1;
            i_original := "ADDI x1, x0, 2047"; i_rd := Some 1; i_rs1 := Some 0;
            i_rs2 := None; i_imm := Some 2047; i_label := None |} ∧
  Parser.parseImmediate "-4097" 13
    = Throw (ImmediateOutOfRange (-4097) 13 (- 2 ^ (13 - 1)) (2 ^ (13 - 1) - 1)).
Proof.
  destruct C8_immediate_out_of_range_rejected as [HI HR].
  split; [| split].
  - exact (proj1 (HI ∅ "ADDI x1, x0, 2048"%string 0 1 "ADDI"%string "x1"%string
                    "x0"%string "2048"%string ADDI 1 0
                    eq_refl eq_refl eq_refl eq_refl eq_refl) eq_refl).
  - exact (proj2 (HI ∅ "ADDI x1, x0, 2047"%string 0 1 "ADDI"%string "x1"%string
                    "x0"%string "2047"%string ADDI 1 0
                    eq_refl eq_refl eq_refl eq_refl eq_refl) eq_refl).
  - apply (HR "-4097"%string 13 (-4097)); [simpl; tauto | reflexivity | lia].
Defined.

(** ** C10: HLT takes no operands and checks none *)

(** C10: a line whose first token is HLT in any letter case parses,
    whatever tokens follow, to the record that carries the opcode, the
    format, the index, the line number and the text of the line, and
    no operand. *)
Theorem C10_hlt_operands_ignored (labels : gmap string Z) line index lineNum m rest :
  Str.tokens line = m :: rest →
  Str.toUpperCase m = "HLT"%string →
  Parser.parseInstruction labels line index lineNum
    = Ok {| i_opcode := HLT; i_format := F_HLT; i_index := index;
            i_lineNum := lineNum; i_original := line; i_rd := None;
            i_rs1 := None; i_rs2 := None; i_imm := None; i_label := None |}.
Proof.
  intros Ht Hm. unfold Parser.parseInstruction. rewrite Ht, Hm. reflexivity.
Qed.

Lemma C10_witness :
  Parser.parseInstruction ∅ "hlt x1, 5(foo) bar" 7 9
    = Ok {| i_opcode := HLT; i_format := F_HLT; i_index := 7;
            i_lineNum := 9; i_original := "hlt x1, 5(foo) bar"; i_rd := None;
            i_rs1 := None; i_rs2 := None; i_imm := None; i_label := None |}.
Proof.
  exact (C10_hlt_operands_ignored ∅ "hlt x1, 5(foo) bar"%string 7 9 "hlt"%string
           ["x1"; "5"; "foo"; "bar"]%string eq_refl eq_refl).
Defined.

(** ** C7: branches to labels *)

(** Execution reads the opcode and the operands of a decoded
    instruction, nothing else. *)
Lemma execute_ext d1 d2 st :
  decodedView d1 = decodedView d2 → Executor.execute d1 st = Executor.execute d2 st.
Proof.
  destruct d1 as [op ty fmt idx ln orig rd rs1 rs2 imm shamt lbl].
  destruct d2 as [op' ty' fmt' idx' ln' orig' rd' rs1' rs2' imm' shamt' lbl'].
  unfold decodedView. cbn [d_opcode d_rd d_rs1 d_rs2 d_imm d_shamt].
  intros [= -> -> -> -> -> ->].
  destruct op'; reflexivity.
Qed.

(** Decoding followed by execution reads the opcode and the operands
    of a record, nothing else. *)
Lemma decode_execute_ext r1 r2 st :
  recordView r1 = recordView r2 →
  (d ← Decoder.decode (Some r1); Executor.execute d st)
  = (d ← Decoder.decode (Some r2); Executor.execute d st).
Proof.
  destruct r1 as [op fmt idx ln orig rd rs1 rs2 imm lbl].
  destruct r2 as [op' fmt' idx' ln' orig' rd' rs1' rs2' imm' lbl'].
  unfold recordView. cbn [i_opcode i_rd i_rs1 i_rs2 i_imm].
  intros [= -> -> -> -> ->].
  unfold Decoder.decode. cbn [i_opcode].
  destruct op'; cbn [Decoder.opcodes];
    unfold Decoder.decodeRFormat, Decoder.decodeIFormat, Decoder.decodeLoadFormat,
      Decoder.decodeStoreFormat, Decoder.decodeBranchFormat, Decoder.decodeJALFormat,
      Decoder.decodeJALRFormat, Decoder.decodeUFormat;
    cbn [i_opcode i_rd i_rs1 i_rs2 i_imm Decoder.isShiftImmediate];
    repeat match goal with
      | |- context [match ?o with Some _ => _ | None => _ end] =>
          is_var o; destruct o
      end;
    try reflexivity;
    repeat match goal with
      | |- context [if ?b then _ else _] => destruct b
      end;
    try reflexivity;
    case_validate; try reflexivity;
    cbn [mbind Result_bind]; apply execute_ext;
    unfold Decoder.copy_label; cbn [i_label];
    repeat match goal with
      | |- context [match ?o with Some _ => _ | None => _ end] =>
          is_var o; destruct o
      | |- context [if ?b then _ else _] => destruct b
      end;
    reflexivity.
Qed.

(** C7, counterexample: with [L] bound to index 2, [BEQ x0, x0, L] at
    index 0 parses to a record that names the label, and
    [BEQ x0, x0, 8] to one that does not. *)
Lemma C7_counterexample : ¬ label_branch_parses_as_literal.
Proof.
  intros H.
  destruct (H labelsL2 "BEQ x0, x0, L"%string "BEQ x0, x0, 8"%string 0 1
              "BEQ"%string "x0"%string "x0"%string "L"%string "8"%string BEQ 2
              _ eq_refl eq_refl eq_refl eq_refl eq_refl eq_refl eq_refl eq_refl)
    as (r & Hr & Heq).
  vm_compute in Hr. injection Hr as <-.
  vm_compute in Heq. discriminate Heq.
Qed.

(** A branch line with four tokens and two register names parses up to
    its last operand. *)
Lemma parseInstruction_branch (labels : gmap string Z) line index lineNum
    p0 p1 p2 p3 op rs1 rs2 :
  Str.tokens line = [p0; p1; p2; p3] →
  Parser.assoc (Str.toUpperCase p0) Parser.mnemonics = Some op →
  Parser.instructionFormats op = F_SB →
  Parser.parseRegister p1 = Ok rs1 →
  Parser.parseRegister p2 = Ok rs2 →
  Parser.parseInstruction labels line index lineNum =
    Parser.labelOrImmediate labels p3 13
      {| i_opcode := op; i_format := F_SB; i_index := index;
         i_lineNum := lineNum; i_original := line; i_rd := None;
         i_rs1 := Some rs1; i_rs2 := Some rs2; i_imm := None;
         i_label := None |}.
Proof.
  intros Ht Hm Hf H1 H2. unfold Parser.parseInstruction.
  rewrite Ht, Hm, Hf. unfold Parser.parseBranchFormat.
  rewrite H1. cbn [mbind Result_bind]. rewrite H2. cbn [mbind Result_bind].
  reflexivity.
Qed.

(** The three ways the last operand of a branch is read: the table
    has a label named [hasOwnProperty], and the call of that name
    throws; or the operand is a label of the table; or it is not. *)
Lemma labelOrImmediate_shadowed (labels : gmap string Z) part bits i v :
  labels !! "hasOwnProperty"%string = Some v →
  Parser.labelOrImmediate labels part bits i = Throw TypeErrorHasOwnProperty.
Proof.
  intros Hh. unfold Parser.labelOrImmediate, Parser.hasOwnProperty. by rewrite Hh.
Qed.

Lemma labelOrImmediate_bound (labels : gmap string Z) part bits i target :
  labels !! "hasOwnProperty"%string = None →
  labels !! part = Some target →
  Parser.labelOrImmediate labels part bits i
  = Ok (Parser.with_imm ((target - i_index i) * 4) (Parser.with_label part i)).
Proof.
  intros Hh Hl. unfold Parser.labelOrImmediate, Parser.hasOwnProperty.
  by rewrite Hh, Hl.
Qed.

Lemma labelOrImmediate_literal (labels : gmap string Z) part bits i :
  labels !! "hasOwnProperty"%string = None →
  labels !! part = None →
  Parser.labelOrImmediate labels part bits i
  = (imm ← Parser.parseImmediate part bits; Ok (Parser.with_imm imm i)).
Proof.
  intros Hh Hl. unfold Parser.labelOrImmediate, Parser.hasOwnProperty.
  by rewrite Hh, Hl.
Qed.

(** *** Labels in a whole program *)

(** A parsed record sits at the index it was parsed for, and when it
    names a label its immediate is the distance to the index the label
    is bound to, in bytes. *)
Lemma parseInstruction_label (labels : gmap string Z) line index lineNum r :
  Parser.parseInstruction labels line index lineNum = Ok r →
  i_index r = index ∧
  ∀ name, i_label r = Some name →
    ∃ target, labels !! name = Some target ∧
              i_imm r = Some ((target - index) * 4).
Proof.
  unfold Parser.parseInstruction.
  destruct (Str.tokens line) as [| p0 parts]; [discriminate |].
  destruct (Parser.assoc _ _) as [op |]; [| discriminate].
  destruct (Parser.instructionFormats op);
    unfold Parser.parseRFormat, Parser.parseIFormat, Parser.parseLoadFormat,
      Parser.parseStoreFormat, Parser.parseBranchFormat, Parser.parseJALFormat,
      Parser.parseJALRFormat, Parser.parseUFormat, Parser.labelOrImmediate,
      Parser.hasOwnProperty;
    cbn [i_opcode i_index].
  all: repeat match goal with
         | |- context [match ?l with [] => _ | _ :: _ => _ end] =>
             is_var l; destruct l
         end;
       try discriminate.
  all: repeat match goal with
         | |- context [Parser.parseRegister ?p] =>
             destruct (Parser.parseRegister p); cbn [mbind Result_bind]
         | |- context [Parser.parseImmediate ?p ?b] =>
             destruct (Parser.parseImmediate p b); cbn [mbind Result_bind]
         | |- context [?m !! ?p] =>
             let E := fresh "E" in
             destruct (m !! p) eqn:E; cbn [mbind Result_bind defined]
         end;
       try discriminate.
  all: intros [= <-]; cbn; (split; [reflexivity |]); intros name Hn;
       try discriminate Hn.
  all: injection Hn as <-; eexists; split; [eassumption | reflexivity].
Qed.

(** The same through the second pass: the records come out in index
    order, starting from the index the pass starts at. *)
Lemma secondPass_labels (labels : gmap string Z) lines :
  ∀ lineNum index program,
    Parser.secondPass labels lines lineNum index = Ok program →
    ∀ (k : nat) r, program !! k = Some r →
      i_index r = index + Z.of_nat k ∧
      ∀ name, i_label r = Some name →
        ∃ target, labels !! name = Some target ∧
                  i_imm r = Some ((target - i_index r) * 4).
Proof.
  induction lines as [| raw rest IH]; intros lineNum index program;
    cbn [Parser.secondPass].
  - intros [= <-] k r Hk. by rewrite lookup_nil in Hk.
  - destruct (Str.isEmpty (Parser.cleanLine raw)); [apply IH |].
    destruct (negb _ && _); [apply IH |].
    destruct (Str.isEmpty _); [apply IH |].
    destruct (Parser.parseInstruction _ _ _ _) as [i | e |] eqn:Hi;
      try discriminate.
    destruct (Parser.secondPass labels rest (lineNum + 1) (index + 1))
      as [more | e |] eqn:Hmore; cbn [mbind Result_bind]; try discriminate.
    intros [= <-] k r Hk.
    destruct (parseInstruction_label _ _ _ _ _ Hi) as [Hidx Hlab].
    destruct k as [| k]; cbn in Hk.
    + injection Hk as <-. split; [lia |]. by rewrite Hidx.
    + destruct (IH _ _ _ Hmore k r Hk) as [Hidx' Hlab'].
      split; [lia | exact Hlab'].
Qed.

(** In a parsed program the record at position [k] has index [k],
    and when it names a label, the label is in the table of the first
    pass and the immediate is the distance to its index in bytes. *)
Lemma parse_labels code program (k : nat) r name :
  Parser.parse code = Ok program →
  program !! k = Some r →
  i_label r = Some name →
  ∃ target,
    Parser.labelsOf code !! name = Some target ∧
    i_index r = Z.of_nat k ∧
    i_imm r = Some ((target - Z.of_nat k) * 4).
Proof.
  unfold Parser.parse, Parser.labelsOf.
  destruct (Parser.firstPass _ _ _) as [labels lines]. cbn [fst].
  intros Hp Hk Hn.
  destruct (secondPass_labels labels lines 0 0 program Hp k r Hk) as [Hidx Hlab].
  destruct (Hlab name Hn) as (target & Ht & Hi).
  exists target. split; [exact Ht |]. split; [lia |].
  rewrite Hi. do 3 f_equal. lia.
Qed.

(** Two label names reach [Object.prototype].  A label named
    [hasOwnProperty] hides the method the parser calls on its table,
    and the first branch after it is refused; a label named
    [__proto__] is never bound, and a branch to it is read as an
    immediate. *)
Example label_named_hasOwnProperty :
  Parser.parse ("hasOwnProperty: ADDI x1, x0, 1" ++ newline
                ++ "BEQ x0, x0, hasOwnProperty")
  = Throw (AtLine 2 TypeErrorHasOwnProperty).
Proof. vm_compute. reflexivity. Qed.

Example label_named_proto :
  Parser.parse ("__proto__: ADDI x1, x0, 1" ++ newline ++ "BEQ x0, x0, __proto__")
  = Throw (AtLine 2 (InvalidImmediate "__proto__")).
Proof. vm_compute. reflexivity. Qed.

(** The index the table holds for a label is the number of lines the
    first pass has counted before it.  The first pass counts a line
    such as [start :], which the second pass skips: here [loop] is
    bound to 2 while the instruction it stands before has index 1, and
    the branch to [loop], at index 2, gets the offset 0. *)
Example label_index_is_the_count_of_the_first_pass :
  let code := ("start :" ++ newline ++ "ADDI x1, x0, 1" ++ newline
               ++ "loop: ADDI x1, x1, 1" ++ newline ++ "BEQ x0, x0, loop")%string in
  Parser.labelsOf code !! "loop"%string = Some 2 ∧
  match Parser.parse code with
  | Ok program =>
      map (λ r, (i_index r, i_label r, i_imm r)) program
      = [(0, None, Some 1); (1, None, Some 1); (2, Some "loop"%string, Some 0)]
  | _ => False
  end.
Proof. vm_compute. split; reflexivity. Qed.

(** C7, amended: in every parsed program, a record at index [k] that
    names a label carries the immediate [(target - k) * 4], where
    [target] is the index the label table of the first pass holds for
    that name (and the name of the label).  When no label is named
    [hasOwnProperty], a branch line whose last operand is a label of
    the table parses accordingly; the same branch written with a
    literal that is not itself a label and that [parseImmediate]
    accepts for 13 bits with that value parses to the record that
    differs in the [label] field and in the source text kept in
    [original] only, and decoded and executed the two records give the
    same result on every state.  When a label is named
    [hasOwnProperty], every branch line with two register names is
    refused with the [TypeError] of the call on the table. *)
Theorem C7_label_resolves_to_byte_offset :
  (∀ code program (k : nat) r name,
     Parser.parse code = Ok program →
     program !! k = Some r →
     i_label r = Some name →
     ∃ target,
       Parser.labelsOf code !! name = Some target ∧
       i_index r = Z.of_nat k ∧
       i_imm r = Some ((target - Z.of_nat k) * 4)) ∧
  (∀ (labels : gmap string Z) lineLabel index lineNum p0 p1 p2 name op rs1 rs2 target,
     Str.tokens lineLabel = [p0; p1; p2; name] →
     Parser.assoc (Str.toUpperCase p0) Parser.mnemonics = Some op →
     Parser.instructionFormats op = F_SB →
     Parser.parseRegister p1 = Ok rs1 →
     Parser.parseRegister p2 = Ok rs2 →
     labels !! "hasOwnProperty"%string = None →
     labels !! name = Some target →
     ∃ rLabel,
       Parser.parseInstruction labels lineLabel index lineNum = Ok rLabel ∧
       i_imm rLabel = Some ((target - index) * 4) ∧
       i_label rLabel = Some name ∧
       ∀ lineLiteral literal,
         Str.tokens lineLiteral = [p0; p1; p2; literal] →
         labels !! literal = None →
         Parser.parseImmediate literal 13 = Ok ((target - index) * 4) →
         ∃ rLiteral,
           Parser.parseInstruction labels lineLiteral index lineNum = Ok rLiteral ∧
           i_label rLiteral = None ∧
           rLabel = Parser.with_label name (with_original lineLabel rLiteral) ∧
           ∀ st,
             (d ← Decoder.decode (Some rLabel); Executor.execute d st)
             = (d ← Decoder.decode (Some rLiteral); Executor.execute d st)) ∧
  (∀ (labels : gmap string Z) line index lineNum p0 p1 p2 p3 op rs1 rs2 v,
     Str.tokens line = [p0; p1; p2; p3] →
     Parser.assoc (Str.toUpperCase p0) Parser.mnemonics = Some op →
     Parser.instructionFormats op = F_SB →
     Parser.parseRegister p1 = Ok rs1 →
     Parser.parseRegister p2 = Ok rs2 →
     labels !! "hasOwnProperty"%string = Some v →
     Parser.parseInstruction labels line index lineNum = Throw TypeErrorHasOwnProperty).
Proof.
  split; [exact parse_labels |]. split.
  - intros labels lineLabel index lineNum p0 p1 p2 name op rs1 rs2 target
      Ht Hm Hf H1 H2 Hh Hl.
    rewrite (parseInstruction_branch labels lineLabel index lineNum p0 p1 p2 name
               op rs1 rs2 Ht Hm Hf H1 H2).
    rewrite (labelOrImmediate_bound labels name 13 _ target Hh Hl).
    eexists. split; [reflexivity |]. split; [reflexivity |]. split; [reflexivity |].
    intros lineLiteral literal Ht' Hnl Hv.
    rewrite (parseInstruction_branch labels lineLiteral index lineNum p0 p1 p2
               literal op rs1 rs2 Ht' Hm Hf H1 H2).
    rewrite (labelOrImmediate_literal labels literal 13 _ Hh Hnl), Hv.
    cbn [mbind Result_bind].
    eexists. split; [reflexivity |]. split; [reflexivity |]. split; [reflexivity |].
    intros st. by apply decode_execute_ext.
  - intros labels line index lineNum p0 p1 p2 p3 op rs1 rs2 v Ht Hm Hf H1 H2 Hh.
    rewrite (parseInstruction_branch labels line index lineNum p0 p1 p2 p3
               op rs1 rs2 Ht Hm Hf H1 H2).
    by apply labelOrImmediate_shadowed with (v := v).
Qed.

Lemma C7_witness :
  ∃ rLabel,
    Parser.parseInstruction labelsL2 "BEQ x0, x0, L" 0 1 = Ok rLabel ∧
    i_imm rLabel = Some ((2 - 0) * 4) ∧
    ∃ rLiteral,
      Parser.parseInstruction labelsL2 "BEQ x0, x0, 8" 0 1 = Ok rLiteral ∧
      ∀ st,
        (d ← Decoder.decode (Some rLabel); Executor.execute d st)
        = (d ← Decoder.decode (Some rLiteral); Executor.execute d st).
Proof.
  destruct (proj1 (proj2 C7_label_resolves_to_byte_offset) labelsL2
              "BEQ x0, x0, L"%string 0 1
              "BEQ"%string "x0"%string "x0"%string "L"%string BEQ 0 0 2
              eq_refl eq_refl eq_refl eq_refl eq_refl eq_refl eq_refl)
    as (rLabel & Hp & Hi & _ & Hlit).
  exists rLabel. split; [exact Hp |]. split; [exact Hi |].
  destruct (Hlit "BEQ x0, x0, 8"%string "8"%string eq_refl eq_refl eq_refl)
    as (rLiteral & Hp' & _ & _ & Hex).
  exists rLiteral. split; [exact Hp' | exact Hex].
Defined.

(** ** C9: a Step request outside the program, or on a halted state *)

Lemma set_instructions_id st program :
  instructions st = Some program → set_instructions (Some program) st = st.
Proof. destruct st. simpl. by intros ->. Qed.

(** The [Simulator] class halts when it fetches outside the program,
    below it as well as beyond it. *)
Lemma Simulator_fetch_outside_halts s :
  Simulator.pc s < 0 ∨ Z.of_nat (length (Simulator.instructions s)) <= Simulator.pc s →
  Simulator.halted (Simulator.fetchInstruction s).1 = true ∧
  (Simulator.fetchInstruction s).2 = None.
Proof.
  intros H. unfold Simulator.fetchInstruction.
  destruct (Z.ltb_spec (Simulator.pc s) 0),
    (Z.leb_spec (Z.of_nat (length (Simulator.instructions s))) (Simulator.pc s));
    cbn [orb]; try (split; reflexivity); lia.
Qed.

(** C9, what the code does: on a state that is halted, or whose
    program counter is at or beyond the end of the program, a Step
    request executes nothing and answers with the state as it is, the
    halted flag included: it is not set when the program counter is
    out of range.  On a state that is not halted and whose program
    counter is negative the request fails, the decoder being handed
    [undefined]. *)
Theorem C9_step_outside_program server code st cached program :
  instructions st = Some cached →
  Controller.programOf cached code = Ok program →
  let st' := set_instructions (Some program) st in
  (halted st = true ∨ Z.of_nat (length program) <= pc st →
   Controller.stepExecution server code (Some st)
     = (st', Ok (Controller.snapshot st)) ∧
   registers st' = registers st ∧ memory st' = memory st ∧
   pc st' = pc st ∧ halted st' = halted st) ∧
  (halted st = false → pc st < 0 →
   Controller.stepExecution server code (Some st) = (st', Throw MissingOpcode)).
Proof.
  intros Hi Hp st'. unfold Controller.stepExecution. rewrite Hi.
  rewrite Hp.
  fold st'. unfold Controller.running.
  replace (halted st') with (halted st) by (by destruct st).
  replace (pc st') with (pc st) by (by destruct st).
  split.
  - intros H. split; [| by destruct st].
    assert (Hr : negb (halted st) && (pc st <? Z.of_nat (length program)) = false).
    { destruct H as [-> | H]; [reflexivity |].
      destruct (Z.ltb_spec (pc st) (Z.of_nat (length program))); [lia |].
      apply andb_false_r. }
    rewrite Hr. by destruct st.
  - intros Hh Hn. rewrite Hh. cbn [negb andb].
    destruct (Z.ltb_spec (pc st) (Z.of_nat (length program))); [| lia].
    unfold Controller.executeNext, nth_instruction.
    replace (pc st') with (pc st) by (by destruct st).
    destruct (Z.ltb_spec (pc st) 0); [reflexivity | lia].
Qed.

Lemma C9_witness :
  (Controller.stepExecution Controller.initialState "ADDI x1, x0, 1" (Some pastTheEnd)
     = (set_instructions (Some addi1Program) pastTheEnd,
        Ok (Controller.snapshot pastTheEnd)) ∧
   s_halted (Controller.snapshot pastTheEnd) = false) ∧
  Controller.stepExecution Controller.initialState "ADDI x1, x0, 1"
    (Some belowTheProgram)
    = (set_instructions (Some addi1Program) belowTheProgram, Throw MissingOpcode).
Proof.
  split; [split; [| reflexivity] |].
  - pose proof (C9_step_outside_program Controller.initialState
                  "ADDI x1, x0, 1"%string pastTheEnd [] addi1Program
                  eq_refl eq_refl) as [H _].
    apply H. right. unfold addi1Program, pastTheEnd. simpl. lia.
  - pose proof (C9_step_outside_program Controller.initialState
                  "ADDI x1, x0, 1"%string belowTheProgram [] addi1Program
                  eq_refl eq_refl) as [_ H].
    apply H; [reflexivity | unfold belowTheProgram; simpl; lia].
Defined.
(** ** C1: step mode against a run *)

(** Loads see a memory through [Arr.getOr0] only. *)
Lemma reads_congr regs mr mu pc0 lr lu h :
  (∀ a, Arr.getOr0 mu a = Arr.getOr0 mr a) →
  (∀ a, Executor.readByte (mkState regs mu pc0 lu h) a
        = Executor.readByte (mkState regs mr pc0 lr h) a) ∧
  (∀ a, Executor.readByteUnsigned (mkState regs mu pc0 lu h) a
        = Executor.readByteUnsigned (mkState regs mr pc0 lr h) a) ∧
  (∀ a, Executor.readHalfWord (mkState regs mu pc0 lu h) a
        = Executor.readHalfWord (mkState regs mr pc0 lr h) a) ∧
  (∀ a, Executor.readHalfWordUnsigned (mkState regs mu pc0 lu h) a
        = Executor.readHalfWordUnsigned (mkState regs mr pc0 lr h) a) ∧
  (∀ a, Executor.readWord (mkState regs mu pc0 lu h) a
        = Executor.readWord (mkState regs mr pc0 lr h) a).
Proof.
  intros H.
  unfold Executor.readByte, Executor.readByteUnsigned, Executor.readHalfWord,
    Executor.readHalfWordUnsigned, Executor.readWord.
  cbn [memory]. repeat split; intros a; by rewrite !H.
Qed.

Ltac destruct_scrutinee :=
  match goal with
  | |- context [defined ?x] => destruct x
  | |- context [match ?x with Some _ => _ | None => _ end] => destruct x
  | |- context [if ?b then _ else _] => destruct b
  | |- context [match ?x with Ok _ => _ | Throw _ => _ | Undef => _ end] => destruct x
  end.

Lemma execute_congr d regs mr mu pc0 lr lu h r' :
  (∀ a, Arr.getOr0 mu a = Arr.getOr0 mr a) →
  Executor.execute d (mkState regs mr pc0 lr h) = Ok r' →
  let ws := storeWrites d (mkState regs mr pc0 lr h) in
  memory r' = writeAll ws mr ∧ instructions r' = lr ∧
  Executor.execute d (mkState regs mu pc0 lu h)
    = Ok (mkState (registers r') (writeAll ws mu) (pc r') lu (halted r')).
Proof.
  intros Hmem.
  destruct (reads_congr regs mr mu pc0 lr lu h Hmem) as (Hb & Hbu & Hh & Hhu & Hw).
  destruct d as [op ty fmt idx ln orig rd rs1 rs2 imm shamt lbl].
  unfold storeWrites, Executor.execute. cbn [d_opcode d_rd d_rs1 d_rs2 d_imm pc].
  destruct op; unfold_handler; unfold Executor.getRegister;
    cbn [d_opcode d_rd d_rs1 d_rs2 d_imm d_shamt registers mbind Result_bind defined].
  all: repeat (destruct_scrutinee; cbn [mbind Result_bind defined]).
  all: try discriminate.
  all: intros [= <-].
  all: unfold Executor.incrementPC, Executor.setPC, Executor.halt,
         Executor.writeByte, Executor.writeHalfWord, Executor.writeWord,
         Executor.setRegister, writeAll;
       cbn [foldl fst snd].
  all: repeat (destruct_scrutinee;
               cbn [registers memory pc instructions halted
                    set_registers set_memory set_pc set_halted]).
  all: cbn [registers memory pc instructions halted
                    set_registers set_memory set_pc set_halted].
  all: rewrite ?Hb, ?Hbu, ?Hh, ?Hhu, ?Hw.
  all: split; [reflexivity | split; reflexivity].
Qed.

(** *** Arrays *)

Lemma arr_eq (a b : JSArray) :
  len a = len b → (∀ i, Arr.get a i = Arr.get b i) → a = b.
Proof.
  destruct a as [ea la], b as [eb lb]. unfold Arr.get. cbn [elems len].
  intros -> H. f_equal. by apply map_eq.
Qed.

Lemma get_set a i v j :
  Arr.get (Arr.set a i v) j = if decide (i = j) then Some v else Arr.get a j.
Proof. unfold Arr.get, Arr.set. cbn [elems]. apply lookup_insert. Qed.

Lemma len_set a i v :
  len (Arr.set a i v) = if 0 <=? i then Z.max (len a) (i + 1) else len a.
Proof. reflexivity. Qed.

Lemma get_filter_range (e : gmap Z Z) lo hi i :
  filter (λ kv : Z * Z, lo <= kv.1 < hi) e !! i
  = if decide (lo <= i < hi) then e !! i else None.
Proof.
  rewrite map_lookup_filter. destruct (e !! i) as [x |]; cbn.
  - destruct (decide (lo <= i < hi));
      [by rewrite option_guard_True | by rewrite option_guard_False].
  - by case_decide.
Qed.

Lemma get_slice0 n a i :
  Arr.get (Arr.slice0 n a) i
  = if decide (0 <= i < Z.max 0 (Z.min n (len a))) then Arr.get a i else None.
Proof. unfold Arr.get, Arr.slice0. cbn [elems]. apply get_filter_range. Qed.

Lemma get_toJSON a i :
  Arr.get (Arr.toJSON a) i = if decide (0 <= i < len a) then Arr.get a i else None.
Proof. unfold Arr.get, Arr.toJSON. cbn [elems]. apply get_filter_range. Qed.

Lemma getOr0_set a i v j :
  Arr.getOr0 (Arr.set a i v) j
  = if decide (i = j) then JS.orZero v else Arr.getOr0 a j.
Proof. unfold Arr.getOr0. rewrite get_set. by case_decide. Qed.

Lemma getOr0_slice0 n a i :
  Arr.getOr0 (Arr.slice0 n a) i
  = if decide (0 <= i < Z.max 0 (Z.min n (len a))) then Arr.getOr0 a i else 0.
Proof. unfold Arr.getOr0. rewrite get_slice0. by case_decide. Qed.

(** A slice is what JSON carries of it, and slicing twice changes
    nothing. *)
Lemma toJSON_slice0 n a : Arr.toJSON (Arr.slice0 n a) = Arr.slice0 n a.
Proof.
  apply arr_eq; [reflexivity |]. intros i.
  rewrite get_toJSON, get_slice0. cbn [Arr.slice0 len].
  by repeat case_decide.
Qed.

Lemma slice0_slice0 n a : Arr.slice0 n (Arr.slice0 n a) = Arr.slice0 n a.
Proof.
  apply arr_eq.
  - cbn [Arr.slice0 len]. lia.
  - intros i. rewrite !get_slice0. cbn [Arr.slice0 len].
    repeat case_decide; try done; lia.
Qed.

Lemma toJSON_toJSON a : Arr.toJSON (Arr.toJSON a) = Arr.toJSON a.
Proof.
  apply arr_eq; [reflexivity |]. intros i.
  rewrite !get_toJSON. cbn [Arr.toJSON len]. by repeat case_decide.
Qed.

(** An assignment within the first 256 elements commutes with taking
    the first 256 elements of an array that has them. *)
Lemma slice0_set_low a i v :
  0 <= i < 256 → 256 <= len a →
  Arr.slice0 256 (Arr.set a i v) = Arr.set (Arr.slice0 256 a) i v.
Proof.
  intros Hi Hl. apply arr_eq.
  - cbn [Arr.slice0 Arr.set len].
    destruct (Z.leb_spec 0 i); lia.
  - intros j. rewrite get_slice0, !get_set, get_slice0, len_set.
    destruct (Z.leb_spec 0 i); [| lia].
    repeat case_decide; try done; lia.
Qed.

(** Assigning an element keeps an array free of other properties. *)
Lemma toJSON_set a i v :
  Arr.toJSON a = a → 0 <= i → Arr.toJSON (Arr.set a i v) = Arr.set a i v.
Proof.
  intros Ha Hi. apply arr_eq; [reflexivity |]. intros j.
  rewrite get_toJSON, get_set, len_set.
  destruct (Z.leb_spec 0 i); [| lia].
  destruct (decide (i = j)) as [<- | Hne].
  - case_decide; [done | lia].
  - case_decide as Hj; [done |].
    rewrite <- Ha, get_toJSON. case_decide; [lia | done].
Qed.

Lemma toJSON_fill n v : Arr.toJSON (Arr.fill n v) = Arr.fill n v.
Proof.
  apply arr_eq; [reflexivity |]. intros i.
  rewrite get_toJSON. unfold Arr.get. cbn [Arr.fill elems len].
  rewrite fillFrom_lookup. by repeat case_decide.
Qed.

(** *** Memories that agree, and the invariant of a run *)

Lemma memAgree_set mr mu a v :
  memAgree mr mu → 0 <= a < 256 → memAgree (Arr.set mr a v) (Arr.set mu a v).
Proof.
  intros (Hs & Hr & Hu & Hg) Ha. repeat split.
  - rewrite !slice0_set_low by done. by rewrite Hs.
  - rewrite len_set. destruct (0 <=? a); lia.
  - rewrite len_set. destruct (0 <=? a); lia.
  - intros b. rewrite !getOr0_set. by rewrite Hg.
Qed.

Lemma memAgree_writeAll ws : ∀ mr mu,
  Forall lowWrite ws → memAgree mr mu → memAgree (writeAll ws mr) (writeAll ws mu).
Proof.
  induction ws as [| [a v] ws IH]; intros mr mu Hws Hm; [exact Hm |].
  inversion Hws as [| ? ? Ha Hrest]; subst.
  unfold writeAll. cbn [foldl fst snd]. apply IH; [exact Hrest |].
  by apply memAgree_set.
Qed.

Lemma zero_outside_writeAll ws : ∀ m,
  Forall lowWrite ws →
  (∀ a, ¬ 0 <= a < 256 → Arr.getOr0 m a = 0) →
  ∀ a, ¬ 0 <= a < 256 → Arr.getOr0 (writeAll ws m) a = 0.
Proof.
  induction ws as [| [x v] ws IH]; intros m Hws Hm; [exact Hm |].
  inversion Hws as [| ? ? Hx Hrest]; subst.
  unfold writeAll. cbn [foldl fst snd]. apply IH; [exact Hrest |].
  intros a Ha. rewrite getOr0_set. unfold lowWrite in Hx. cbn [fst] in Hx.
  case_decide; [lia | by apply Hm].
Qed.

Lemma len_writeAll ws : ∀ m, len m <= len (writeAll ws m).
Proof.
  induction ws as [| [x v] ws IH]; intros m; [reflexivity |].
  unfold writeAll. cbn [foldl fst snd].
  etransitivity; [| apply IH]. rewrite len_set. destruct (0 <=? x); lia.
Qed.

(** The assignments of a store that stays within the first 256 bytes
    do. *)
Lemma storeWrites_low d st : Controller.storeLow d st → Forall lowWrite (storeWrites d st).
Proof.
  unfold Controller.storeLow, Controller.storeRange, storeWrites.
  destruct (d_rs1 d) as [rs1 |], (d_rs2 d) as [rs2 |], (d_imm d) as [imm |];
    try (intros; by apply Forall_nil).
  all: destruct (Executor.getRegister st rs1) as [a | |],
         (Executor.getRegister st rs2) as [b | |];
    try (intros; by apply Forall_nil).
  all: destruct (d_opcode d); try (intros; by apply Forall_nil).
  all: intros [H0 H1]; repeat constructor; unfold lowWrite; cbn [fst]; lia.
Qed.

Lemma regOk_rd d rd :
  operands d → hasRd (d_opcode d) = true → d_rd d = Some rd → 0 <= rd <= 31.
Proof.
  unfold operands, hasRd. intros Hop Hh Hrd.
  destruct (Decoder.opcodes (d_opcode d)); try discriminate;
    destruct Hop as [(r & Hr & ?) _]; rewrite Hrd in Hr; by injection Hr as ->.
Qed.

(** The invariant is kept by an instruction whose store, if it is one,
    stays within the first 256 bytes. *)
Lemma runInvariant_execute d r r' :
  operands d → Controller.storeLow d r →
  Executor.execute d r = Ok r' →
  runInvariant r → runInvariant r'.
Proof.
  intros Hop Hlow He (H32 & Hclean & Hlen & Hzero).
  assert (Hmem : memory r' = writeAll (storeWrites d r) (memory r)).
  { destruct r as [regs mr pc0 lr h].
    by destruct (execute_congr d regs mr mr pc0 lr lr h r' (λ _, eq_refl) He). }
  pose proof (storeWrites_low d r Hlow) as Hws.
  destruct (execute_registers d r r' He) as [Hr | (rd & v & Hrd & Hne & Hh & Hr)].
  - split; [| split; [| split]].
    + intros x Hx. rewrite Hr. by apply H32.
    + by rewrite Hr.
    + rewrite Hmem. etransitivity; [exact Hlen | apply len_writeAll].
    + rewrite Hmem. by apply zero_outside_writeAll.
  - pose proof (regOk_rd d rd Hop Hh Hrd) as Hrange.
    split; [| split; [| split]].
    + intros x Hx. rewrite Hr, get_set. case_decide; [by eexists | by apply H32].
    + rewrite Hr. apply toJSON_set; [exact Hclean | lia].
    + rewrite Hmem. etransitivity; [exact Hlen | apply len_writeAll].
    + rewrite Hmem. by apply zero_outside_writeAll.
Qed.

Lemma runInvariant_initial program :
  runInvariant (set_instructions (Some program) Controller.initialState).
Proof.
  split; [| split; [| split]].
  - apply regs32_initialState.
  - apply toJSON_fill.
  - cbn [set_instructions memory Controller.initialState Arr.fill len]. lia.
  - intros a Ha. unfold Arr.getOr0, Arr.get.
    cbn [set_instructions memory Controller.initialState Arr.fill elems].
    rewrite fillFrom_lookup. by case_decide.
Qed.

Lemma related_refl r : 256 <= len (memory r) → related r r.
Proof.
  intros H. split; [done |]. split; [done |]. split; [done |].
  split; [done |]. split; [done |]. split; done.
Qed.

(** *** One Step request against one iteration of the loop *)

Lemma snapshot_related r t : related r t → Controller.snapshot t = Controller.snapshot r.
Proof.
  intros (Hr & Hp & Hh & Hs & _). unfold Controller.snapshot.
  by rewrite Hr, Hp, Hh, Hs.
Qed.

Lemma snapshot_set_instructions l st :
  Controller.snapshot (set_instructions l st) = Controller.snapshot st.
Proof. reflexivity. Qed.

(** A success response is the snapshot of the state the server holds
    afterwards. *)
Lemma stepExecution_response server code current t snap :
  Controller.stepExecution server code current = (t, Ok snap) →
  snap = Controller.snapshot t.
Proof.
  unfold Controller.stepExecution.
  destruct (instructions _); [| discriminate].
  destruct (Controller.programOf _ _); try discriminate.
  destruct (Controller.running _ _).
  - destruct (Controller.executeNext _ _); try discriminate. by intros [= <- <-].
  - by intros [= <- <-].
Qed.

Lemma threadFrom_response thread code n : ∀ t t' snap,
  Controller.threadFrom thread code n t = (t', Ok snap) →
  snap = Controller.snapshot t'.
Proof.
  induction n as [| n IH]; intros t t' snap; cbn [Controller.threadFrom].
  - by intros [= <- <-].
  - destruct (Controller.stepExecution _ _ _) as [t1 [s1 | e |]];
      try discriminate. apply IH.
Qed.

Lemma threadFrom_snoc thread code n : ∀ t,
  Controller.threadFrom thread code (S n) t
  = match Controller.threadFrom thread code n t with
    | (t', Ok _) =>
        Controller.stepExecution t' code (Some (thread (Controller.snapshot t')))
    | failed => failed
    end.
Proof.
  induction n as [| n IH]; intros t.
  - cbn [Controller.threadFrom].
    destruct (Controller.stepExecution _ _ _) as [t1 [s1 | e |]] eqn:E;
      try reflexivity.
    by rewrite (stepExecution_response _ _ _ _ _ E).
  - change (Controller.threadFrom thread code (S (S n)) t)
      with (match Controller.stepExecution t code
                    (Some (thread (Controller.snapshot t))) with
            | (server', Ok _) => Controller.threadFrom thread code (S n) server'
            | failed => failed
            end).
    change (Controller.threadFrom thread code (S n) t)
      with (match Controller.stepExecution t code
                    (Some (thread (Controller.snapshot t))) with
            | (server', Ok _) => Controller.threadFrom thread code n server'
            | failed => failed
            end).
    destruct (Controller.stepExecution _ _ _) as [t1 [s1 | e |]];
      try reflexivity.
    apply IH.
Qed.

(** The requests after the first one, read from the first one on. *)
Lemma stepThread_S thread code n :
  Controller.stepThread thread code (S n)
  = match Controller.stepExecution Controller.initialState code None with
    | (t1, Ok _) => Controller.threadFrom thread code n t1
    | failed => failed
    end.
Proof.
  induction n as [| n IH].
  - cbn [Controller.stepThread Controller.reset Controller.threadFrom].
    destruct (Controller.stepExecution _ _ _) as [t1 [s1 | e |]] eqn:E;
      try reflexivity.
    by rewrite (stepExecution_response _ _ _ _ _ E).
  - change (Controller.stepThread thread code (S (S n)))
      with (match Controller.stepThread thread code (S n) with
            | (server, Ok previous) =>
                Controller.stepExecution server code (Some (thread previous))
            | failed => failed
            end).
    rewrite IH.
    destruct (Controller.stepExecution _ _ _) as [t1 [s1 | e |]];
      try reflexivity.
    rewrite threadFrom_snoc.
    destruct (Controller.threadFrom thread code n t1) as [t' [s' | e |]] eqn:E;
      try reflexivity.
    by rewrite (threadFrom_response _ _ _ _ _ _ E).
Qed.

(** The state a Step request works on when it carries the snapshot of
    [t], and its memory against the memory of the run. *)
Lemma thread_state r t program :
  related r t → runInvariant r →
  set_instructions (Some program) (Controller.threadEmpty (Controller.snapshot t))
  = mkState (registers r) (Arr.slice0 256 (memory t)) (pc r) (Some program) (halted r).
Proof.
  intros (Hr & Hp & Hh & _) (_ & Hclean & _).
  unfold set_instructions, Controller.threadEmpty, Controller.snapshot.
  cbn [registers memory pc halted s_registers s_memory s_pc s_halted].
  by rewrite Hr, Hclean, toJSON_slice0, Hp, Hh.
Qed.

Lemma memAgree_thread r t :
  related r t → runInvariant r → memAgree (memory r) (Arr.slice0 256 (memory t)).
Proof.
  intros (_ & _ & _ & Hs & Hlr & Hlt & Hg) (_ & _ & _ & Hzero).
  split; [| split; [| split]].
  - by rewrite slice0_slice0.
  - exact Hlr.
  - cbn [Arr.slice0 len]. lia.
  - intros a. rewrite getOr0_slice0.
    case_decide as Ha; [apply Hg |].
    symmetry. apply Hzero. lia.
Qed.

Lemma programOf_nil code : Controller.programOf [] code = Parser.parse code.
Proof. reflexivity. Qed.

(** While the loop runs: the Step request executes the instruction
    the loop executes, and the states stay related. *)
Lemma step_running server code program r t d r' :
  Parser.parse code = Ok program →
  related r t → runInvariant r →
  Controller.running program r = true →
  Decoder.decode (nth_instruction program (pc r)) = Ok d →
  Executor.execute d r = Ok r' →
  Controller.storeLow d r →
  ∃ t',
    Controller.stepExecution server code
      (Some (Controller.threadEmpty (Controller.snapshot t)))
      = (t', Ok (Controller.snapshot t')) ∧
    related r' t'.
Proof.
  intros Hparse Hrel Hinv Hrun Hd He Hlow.
  unfold Controller.stepExecution.
  cbn [Controller.threadEmpty instructions].
  rewrite programOf_nil, Hparse.
  rewrite (thread_state r t program Hrel Hinv).
  pose proof (memAgree_thread r t Hrel Hinv) as Hm.
  set (mu := Arr.slice0 256 (memory t)) in *.
  unfold Controller.running in *. cbn [pc halted]. rewrite Hrun.
  unfold Controller.executeNext. cbn [pc]. rewrite Hd. cbn [mbind Result_bind].
  destruct Hm as (Hs & Hlr & Hlu & Hg).
  destruct r as [regs mr pc0 lr h]. cbn [registers memory pc halted] in *.
  destruct (execute_congr d regs mr mu pc0 lr (Some program) h r' Hg He)
    as (Hmem & _ & Hex).
  rewrite Hex. eexists. split; [reflexivity |].
  pose proof (storeWrites_low d _ Hlow) as Hws.
  split; [reflexivity |]. split; [reflexivity |]. split; [reflexivity |].
  cbn [memory]. rewrite Hmem.
  apply memAgree_writeAll; [exact Hws |].
  split; [exact Hs |]. split; [exact Hlr |]. split; [exact Hlu | exact Hg].
Qed.

(** Once the loop has stopped: the Step request executes nothing, and
    the states stay related. *)
Lemma step_stopped server code program r t :
  Parser.parse code = Ok program →
  related r t → runInvariant r →
  Controller.running program r = false →
  ∃ t',
    Controller.stepExecution server code
      (Some (Controller.threadEmpty (Controller.snapshot t)))
      = (t', Ok (Controller.snapshot t')) ∧
    related r t'.
Proof.
  intros Hparse Hrel Hinv Hrun.
  unfold Controller.stepExecution.
  cbn [Controller.threadEmpty instructions].
  rewrite programOf_nil, Hparse.
  rewrite (thread_state r t program Hrel Hinv).
  pose proof (memAgree_thread r t Hrel Hinv) as Hm.
  unfold Controller.running in *. cbn [pc halted]. rewrite Hrun.
  eexists. split; [reflexivity |].
  split; [reflexivity |]. split; [reflexivity |]. split; [reflexivity |].
  exact Hm.
Qed.

(** The loop, unfolded once. *)
Lemma runLoop_stopped fuel program r :
  Controller.running program r = false →
  Controller.runLoop fuel program r = Some (r, Ok tt).
Proof. intros H. destruct fuel; cbn [Controller.runLoop]; by rewrite H. Qed.

Lemma runLoop_running fuel program r sf :
  Controller.running program r = true →
  Controller.runLoop fuel program r = Some (sf, Ok tt) →
  ∃ fuel' d r',
    fuel = S fuel' ∧
    Decoder.decode (nth_instruction program (pc r)) = Ok d ∧
    Executor.execute d r = Ok r' ∧
    Controller.runLoop fuel' program r' = Some (sf, Ok tt).
Proof.
  intros Hrun. destruct fuel as [| fuel']; cbn [Controller.runLoop]; rewrite Hrun;
    [discriminate |].
  unfold Controller.executeNext.
  destruct (Decoder.decode _) as [d | e |] eqn:Hd; cbn [mbind Result_bind];
    try discriminate.
  destruct (Executor.execute d r) as [r' | e |] eqn:He; try discriminate.
  intros H. by exists fuel', d, r'.
Qed.

(** Step requests follow the loop and then stay put. *)
Lemma thread_follows_run code program :
  Parser.parse code = Ok program →
  ∀ n fuel r t sf,
    related r t → runInvariant r →
    Controller.runLoop fuel program r = Some (sf, Ok tt) →
    Controller.storesLow fuel program r →
    (fuel <= n)%nat →
    ∃ tf,
      Controller.threadFrom Controller.threadEmpty code n t
        = (tf, Ok (Controller.snapshot tf)) ∧
      Controller.snapshot tf = Controller.snapshot sf.
Proof.
  intros Hparse. induction n as [| n IH]; intros fuel r t sf Hrel Hinv Hloop Hlow Hn.
  - assert (fuel = O) as -> by lia.
    cbn [Controller.runLoop] in Hloop.
    destruct (Controller.running program r); [discriminate |].
    injection Hloop as <-.
    exists t. split; [reflexivity | by apply snapshot_related].
  - cbn [Controller.threadFrom].
    destruct (Controller.running program r) eqn:Hrun.
    + destruct (runLoop_running fuel program r sf Hrun Hloop)
        as (fuel' & d & r' & -> & Hd & He & Hloop').
      cbn [Controller.storesLow] in Hlow. rewrite Hrun, Hd, He in Hlow.
      destruct Hlow as [Hstore Hlow'].
      destruct (step_running t code program r t d r' Hparse Hrel Hinv Hrun Hd He Hstore)
        as (t' & Hstep & Hrel').
      rewrite Hstep.
      assert (Hop : operands d).
      { unfold nth_instruction in Hd.
        destruct (pc r <? 0); [discriminate |].
        destruct (program !! Z.to_nat (pc r)) as [i |] eqn:Hi; [| discriminate].
        by destruct (decode_operands i d Hd). }
      apply (IH fuel' r' t' sf Hrel'); [| exact Hloop' | exact Hlow' | lia].
      by apply (runInvariant_execute d r r').
    + rewrite (runLoop_stopped fuel program r Hrun) in Hloop.
      injection Hloop as <-.
      destruct (step_stopped t code program r t Hparse Hrel Hinv Hrun)
        as (t' & Hstep & Hrel').
      rewrite Hstep.
      apply (IH O r t' r Hrel' Hinv); [by apply runLoop_stopped | exact I | lia].
Qed.

(** *** The statement and its amendment *)

(** C1, counterexample.  Sent back as it is, the snapshot has no
    [instructions] property and the second Step request fails on
    [simulatorState.instructions.length], where Run succeeds.  Sent
    back with an empty [instructions] list, the snapshot still holds
    the first 256 bytes of memory only: a word stored at address 300
    is read back as 7 by Run and as 0 by the Step request that
    follows the store. *)
Lemma C1_counterexample :
  ¬ step_mode_equals_run Controller.threadLiteral ∧
  ¬ step_mode_equals_run Controller.threadEmpty.
Proof.
  split; intros H.
  - assert (Hok : runSucceeded (Controller.executeProgram 2 twoSteps) = true)
      by (vm_compute; reflexivity).
    destruct (Controller.executeProgram 2 twoSteps) as [[server [snap | e |]] |] eqn:E;
      try discriminate Hok.
    specialize (H twoSteps 2%nat server snap E).
    assert (Hstep : (Controller.stepThread Controller.threadLiteral twoSteps 2).2
                    = Throw TypeErrorLengthOfUndefined)
      by (vm_compute; reflexivity).
    rewrite Hstep in H. discriminate H.
  - assert (Hok : runSucceeded (Controller.executeProgram 4 storeBeyond256) = true)
      by (vm_compute; reflexivity).
    assert (Hrun : runRegister 2 (Controller.executeProgram 4 storeBeyond256) = Some 7)
      by (vm_compute; reflexivity).
    destruct (Controller.executeProgram 4 storeBeyond256)
      as [[server [snap | e |]] |] eqn:E;
      try discriminate Hok.
    specialize (H storeBeyond256 4%nat server snap E).
    apply (f_equal (responseRegister 2)) in H.
    assert (Hstep : responseRegister 2
                      (Controller.stepThread Controller.threadEmpty storeBeyond256 4).2
                    = Some 0)
      by (vm_compute; reflexivity).
    rewrite Hstep in H. cbn [runRegister] in Hrun. rewrite Hrun in H.
    discriminate H.
Qed.

(** C1, amended: when Run completes within [fuel] instructions and
    every store it executes stays within the first 256 bytes, then
    [N >= fuel] Step requests after a Reset, the first without a
    snapshot and each later one carrying the snapshot the previous one
    returned with an empty [instructions] list added, end on the very
    state (registers, first 256 bytes of memory, PC, halted flag) that
    Run answers with. *)
Theorem C1_step_mode_follows_run code fuel server snap (N : nat) :
  Controller.executeProgram fuel code = Some (server, Ok snap) →
  Controller.runStoresLow fuel code →
  (fuel <= N)%nat →
  (Controller.stepThread Controller.threadEmpty code N).2 = Ok snap.
Proof.
  unfold Controller.executeProgram, Controller.runStoresLow.
  destruct (Parser.parse code) as [program | e |] eqn:Hparse; try discriminate.
  set (s0 := set_instructions (Some program) Controller.initialState).
  destruct (Controller.runLoop fuel program s0) as [[sf [[] | e |]] |] eqn:Hloop;
    try discriminate.
  intros [= <- <-] Hlow Hn.
  pose proof (runInvariant_initial program) as Hinv. fold s0 in Hinv.
  destruct N as [| n].
  - assert (fuel = O) as -> by lia.
    cbn [Controller.runLoop] in Hloop.
    destruct (Controller.running program s0); [discriminate |].
    by injection Hloop as <-.
  - rewrite stepThread_S.
    unfold Controller.stepExecution at 1.
    cbn [instructions Controller.initialState].
    rewrite programOf_nil, Hparse. fold s0.
    destruct (Controller.running program s0) eqn:Hrun.
    + destruct (runLoop_running fuel program s0 sf Hrun Hloop)
        as (fuel' & d & r' & -> & Hd & He & Hloop').
      cbn [Controller.storesLow] in Hlow. rewrite Hrun, Hd, He in Hlow.
      destruct Hlow as [Hstore Hlow'].
      unfold Controller.executeNext. rewrite Hd. cbn [mbind Result_bind].
      rewrite He.
      assert (Hop : operands d).
      { unfold nth_instruction in Hd.
        destruct (pc s0 <? 0); [discriminate |].
        destruct (program !! Z.to_nat (pc s0)) as [i |] eqn:Hi; [| discriminate].
        by destruct (decode_operands i d Hd). }
      pose proof (runInvariant_execute d s0 r' Hop Hstore He Hinv) as Hinv'.
      assert (Hrel : related r' r').
      { apply related_refl. by destruct Hinv' as (_ & _ & ? & _). }
      destruct (thread_follows_run code program Hparse n fuel' r' r' sf
                  Hrel Hinv' Hloop' Hlow' ltac:(lia)) as (tf & -> & Hsnap).
      cbn [snd]. by rewrite Hsnap.
    + rewrite (runLoop_stopped fuel program s0 Hrun) in Hloop.
      injection Hloop as <-.
      assert (Hrel : related s0 s0).
      { apply related_refl. by destruct Hinv as (_ & _ & ? & _). }
      destruct (thread_follows_run code program Hparse n O s0 s0 s0
                  Hrel Hinv (runLoop_stopped O program s0 Hrun) I ltac:(lia))
        as (tf & -> & Hsnap).
      cbn [snd]. by rewrite Hsnap.
Qed.

Lemma C1_witness :
  (Controller.stepThread Controller.threadEmpty scenario 7).2
  = match Controller.executeProgram 5 scenario with
    | Some (_, response) => response
    | None => Undef
    end.
Proof.
  assert (Hok : runSucceeded (Controller.executeProgram 5 scenario) = true)
    by (vm_compute; reflexivity).
  destruct (Controller.executeProgram 5 scenario) as [[server [snap | e |]] |] eqn:E;
    try discriminate Hok.
  apply (C1_step_mode_follows_run scenario 5 server snap 7 E); [| lia].
  vm_compute. repeat split; discriminate.
Defined.

(** *** Two other ways of driving Step *)

(** The front end's own [currentState] drops the memory at every
    request: stepping the scenario of the specification through it
    ends with 0 at address 100, where Run ends with 30. *)
Example front_end_steps_lose_memory :
  runView (Some (Controller.stepThread App.currentState scenario 5))
  = Some ([Some 0; Some 10; Some 20; Some 30],
          [Some 0; Some 0; Some 0; Some 0], 4, true).
Proof. vm_compute. reflexivity. Qed.

(** Without any snapshot, on the state the server holds, Step follows
    the loop of Run instruction by instruction, whatever the program
    stores and wherever. *)
Lemma programOf_cached code program :
  Parser.parse code = Ok program → Controller.programOf program code = Ok program.
Proof.
  intros Hp. unfold Controller.programOf. by destruct program.
Qed.

Lemma server_steps_follow_run code program :
  Parser.parse code = Ok program →
  ∀ n fuel sf,
    Controller.runLoop fuel program
      (set_instructions (Some program) Controller.initialState) = Some (sf, Ok tt) →
    (fuel <= n)%nat →
    ∃ tf, Controller.stepServer code n = (tf, Ok (Controller.snapshot sf)) ∧
          (n ≠ O → tf = sf).
Proof.
  intros Hparse.
  set (s0 := set_instructions (Some program) Controller.initialState).
  (* the state held after [k] requests, against the loop *)
  assert (Hgen : ∀ k r fuel sf,
            instructions r = Some program →
            Controller.runLoop fuel program r = Some (sf, Ok tt) →
            (fuel <= k)%nat →
            ∀ n, Controller.stepServer code (S n) = (r, Ok (Controller.snapshot r)) →
                 ∃ tf, Controller.stepServer code (S n + k)
                       = (tf, Ok (Controller.snapshot sf)) ∧ tf = sf).
  { induction k as [| k IH]; intros r fuel sf Hi Hloop Hk n Hn.
    - assert (fuel = O) as -> by lia. cbn [Controller.runLoop] in Hloop.
      destruct (Controller.running program r); [discriminate |].
      injection Hloop as <-. exists r. by rewrite Nat.add_0_r.
    - replace (S n + S k)%nat with (S (S n) + k)%nat by lia.
      assert (Hstep : Controller.stepServer code (S (S n))
                      = Controller.stepExecution r code None).
      { change (Controller.stepServer code (S (S n)))
          with (match Controller.stepServer code (S n) with
                | (server, Ok _) => Controller.stepExecution server code None
                | failed => failed
                end).
        by rewrite Hn. }
      unfold Controller.stepExecution in Hstep. rewrite Hi in Hstep.
      rewrite (programOf_cached code program Hparse) in Hstep.
      rewrite (set_instructions_id r program Hi) in Hstep.
      destruct (Controller.running program r) eqn:Hrun.
      + destruct (runLoop_running fuel program r sf Hrun Hloop)
          as (fuel' & d & r' & -> & Hd & He & Hloop').
        unfold Controller.executeNext in Hstep. rewrite Hd in Hstep.
        cbn [mbind Result_bind] in Hstep. rewrite He in Hstep.
        apply (IH r' fuel' sf); [| exact Hloop' | lia | exact Hstep].
        destruct r as [regs mr pc0 lr h]. cbn [instructions] in Hi. subst lr.
        by destruct (execute_congr d regs mr mr pc0 (Some program) (Some program)
                       h r' (λ _, eq_refl) He) as (_ & ? & _).
      + rewrite (runLoop_stopped fuel program r Hrun) in Hloop.
        injection Hloop as <-.
        apply (IH r O r Hi (runLoop_stopped O program r Hrun) ltac:(lia)).
        exact Hstep. }
  intros n fuel sf Hloop Hn. fold s0 in Hloop.
  destruct n as [| n].
  - assert (fuel = O) as -> by lia. cbn [Controller.runLoop] in Hloop.
    destruct (Controller.running program s0); [discriminate |].
    injection Hloop as <-. exists Controller.initialState. split; [reflexivity | done].
  - (* the first request *)
    assert (H1 : Controller.stepServer code 1
                 = Controller.stepExecution Controller.initialState code None)
      by reflexivity.
    unfold Controller.stepExecution in H1.
    cbn [instructions Controller.initialState] in H1.
    rewrite programOf_nil, Hparse in H1. fold s0 in H1.
    destruct (Controller.running program s0) eqn:Hrun.
    + destruct (runLoop_running fuel program s0 sf Hrun Hloop)
        as (fuel' & d & r' & -> & Hd & He & Hloop').
      unfold Controller.executeNext in H1. rewrite Hd in H1.
      cbn [mbind Result_bind] in H1. rewrite He in H1.
      assert (Hi : instructions r' = Some program).
      { unfold s0 in He. unfold set_instructions, Controller.initialState in He.
        cbn [registers memory pc halted] in He.
        by destruct (execute_congr d _ _ (Arr.fill 1024 0) _ _ (Some program) _ r'
                       (λ _, eq_refl) He) as (_ & ? & _). }
      destruct (Hgen n r' fuel' sf Hi Hloop' ltac:(lia) O H1) as (tf & Hs & ->).
      exists sf. split; [exact Hs | done].
    + rewrite (runLoop_stopped fuel program s0 Hrun) in Hloop.
      injection Hloop as <-.
      destruct (Hgen n s0 O s0 eq_refl (runLoop_stopped O program s0 Hrun)
                  ltac:(lia) O H1) as (tf & Hs & ->).
      exists s0. split; [exact Hs | done].
Qed.

(* ================================================================== *)
(** * Further properties

    Properties of the parser, the decoder, the executor, the controller
    and the [Simulator] class besides C1 to C10, each read off the
    source and numbered X1, X2, ... *)
(* ================================================================== *)

(** ** Shifts, masks and sign extension as arithmetic *)

Lemma shiftCount_small n : 0 <= n <= 31 → JS.shiftCount n = n.
Proof.
  intros H. unfold JS.shiftCount, JS.toUint32.
  rewrite (Z.mod_small n) by lia.
  change 31 with (Z.ones 5). rewrite Z.land_ones by lia.
  apply Z.mod_small. change (2 ^ 5) with 32. lia.
Qed.

Lemma toInt32_mod x : JS.toInt32 x mod 2 ^ 32 = x mod 2 ^ 32.
Proof. exact (proj2 (wrapSigned32_spec x)). Qed.

Lemma toInt32_congr a b : a mod 2 ^ 32 = b mod 2 ^ 32 → JS.toInt32 a = JS.toInt32 b.
Proof. unfold JS.toInt32. by intros ->. Qed.

(** Reduction modulo a power of two that divides 2^32 *)
Lemma toInt32_mod_pow2 x n : 0 <= n <= 32 → JS.toInt32 x mod 2 ^ n = x mod 2 ^ n.
Proof.
  intros Hn.
  assert (Hd : (2 ^ n | 2 ^ 32)).
  { exists (2 ^ (32 - n)). rewrite <- Z.pow_add_r by lia. f_equal. lia. }
  rewrite <- (Z.mod_mod_divide (JS.toInt32 x) (2 ^ 32) (2 ^ n) Hd), toInt32_mod.
  by apply Z.mod_mod_divide.
Qed.

Lemma testbit_neg_pow2 n k : 0 <= n → 0 <= k → Z.testbit (- 2 ^ n) k = (n <=? k).
Proof.
  intros Hn Hk.
  replace (- 2 ^ n) with (Z.shiftl (-1) n) by (rewrite Z.shiftl_mul_pow2 by lia; lia).
  rewrite Z.shiftl_spec by lia.
  destruct (Z.leb_spec n k).
  - apply Z.bits_m1. lia.
  - apply Z.testbit_neg_r. lia.
Qed.

Lemma lor_neg_pow2 w n : 0 <= n → Z.lor w (- 2 ^ n) = w mod 2 ^ n - 2 ^ n.
Proof.
  intros Hn.
  assert (Hp : 0 < 2 ^ n) by (apply Z.pow_pos_nonneg; lia).
  assert (Hd : Z.land (w mod 2 ^ n) (- 2 ^ n) = 0).
  { apply Z.bits_inj'. intros k Hk. rewrite Z.land_spec, Z.bits_0, testbit_neg_pow2 by lia.
    destruct (Z.leb_spec n k); [| apply andb_false_r].
    rewrite Z.mod_pow2_bits_high by lia. reflexivity. }
  replace (w mod 2 ^ n - 2 ^ n) with (w mod 2 ^ n + - 2 ^ n) by lia.
  rewrite Z.add_nocarry_lxor by exact Hd.
  rewrite Z.lxor_lor by exact Hd.
  apply Z.bits_inj'. intros k Hk. rewrite !Z.lor_spec, testbit_neg_pow2 by lia.
  destruct (Z.leb_spec n k); [by rewrite !orb_true_r |].
  rewrite !orb_false_r. symmetry. apply Z.mod_pow2_bits_low. lia.
Qed.

Lemma land_pow2_testbit w n : 0 <= n → (Z.land w (2 ^ n) =? 0) = negb (Z.testbit w n).
Proof.
  intros Hn.
  destruct (Z.testbit w n) eqn:Hb; cbn [negb].
  - apply Z.eqb_neq. intros H0.
    assert (Z.testbit (Z.land w (2 ^ n)) n = true).
    { rewrite Z.land_spec, Hb, Z.pow2_bits_true by lia. reflexivity. }
    rewrite H0, Z.bits_0 in H. discriminate.
  - apply Z.eqb_eq. apply Z.bits_inj'. intros k Hk.
    rewrite Z.land_spec, Z.bits_0.
    destruct (decide (k = n)) as [-> | Hne]; [by rewrite Hb |].
    rewrite Z.pow2_bits_false by lia. apply andb_false_r.
Qed.

Lemma testbit_top_mod w n :
  1 <= n → Z.testbit w (n - 1) = negb (w mod 2 ^ n <? 2 ^ (n - 1)).
Proof.
  intros Hn.
  assert (Hp : 0 < 2 ^ (n - 1)) by (apply Z.pow_pos_nonneg; lia).
  assert (H2 : 2 ^ n = 2 ^ (n - 1) * 2).
  { replace n with ((n - 1) + 1) at 1 by lia. rewrite Z.pow_add_r by lia. lia. }
  pose proof (Z.testbit_spec' w (n - 1) ltac:(lia)) as Hs.
  assert (Hm : w mod 2 ^ n = w mod 2 ^ (n - 1) + 2 ^ (n - 1) * ((w / 2 ^ (n - 1)) mod 2)).
  { rewrite H2. apply Z.rem_mul_r; lia. }
  pose proof (Z.mod_pos_bound w (2 ^ (n - 1)) ltac:(lia)) as Hl.
  rewrite Hm, <- Hs.
  destruct (Z.testbit w (n - 1)); cbn [Z.b2z].
  - destruct (Z.ltb_spec (w mod 2 ^ (n - 1) + 2 ^ (n - 1) * 1) (2 ^ (n - 1))); [lia | done].
  - destruct (Z.ltb_spec (w mod 2 ^ (n - 1) + 2 ^ (n - 1) * 0) (2 ^ (n - 1))); [done | lia].
Qed.

Lemma shl_1 n : 0 <= n <= 30 → JS.shl 1 n = 2 ^ n.
Proof.
  intros Hn. unfold JS.shl. rewrite shiftCount_small by lia.
  change (JS.toInt32 1) with 1. rewrite Z.shiftl_1_l.
  apply toInt32_id. unfold int32.
  assert (0 < 2 ^ n) by (apply Z.pow_pos_nonneg; lia).
  assert (2 ^ n <= 2 ^ 30) by (apply Z.pow_le_mono_r; lia). lia.
Qed.

Lemma shl_m1 n : 0 <= n <= 31 → JS.shl (-1) n = - 2 ^ n.
Proof.
  intros Hn. unfold JS.shl. rewrite shiftCount_small by lia.
  change (JS.toInt32 (-1)) with (-1). rewrite Z.shiftl_mul_pow2 by lia.
  replace (-1 * 2 ^ n) with (- 2 ^ n) by lia.
  apply toInt32_id. unfold int32.
  assert (0 < 2 ^ n) by (apply Z.pow_pos_nonneg; lia).
  assert (2 ^ n <= 2 ^ 31) by (apply Z.pow_le_mono_r; lia). lia.
Qed.

(** [toInt32 ((1 << bits) - 1)] is the mask of the low [bits] bits. *)
Lemma toInt32_low_mask n : 1 <= n <= 31 → JS.toInt32 (JS.shl 1 n - 1) = Z.ones n.
Proof.
  intros Hn. rewrite Z.ones_equiv.
  destruct (decide (n = 31)) as [-> | Hne]; [reflexivity |].
  rewrite shl_1 by lia.
  assert (0 < 2 ^ n) by (apply Z.pow_pos_nonneg; lia).
  assert (2 ^ n <= 2 ^ 30) by (apply Z.pow_le_mono_r; lia).
  rewrite toInt32_id; [lia | unfold int32; lia].
Qed.

Lemma signExtend_spec v bits :
  1 <= bits <= 31 ->
  Decoder.signExtend v bits
  = if v mod 2 ^ bits <? 2 ^ (bits - 1) then v mod 2 ^ bits else v mod 2 ^ bits - 2 ^ bits.
Proof.
  intros Hb. unfold Decoder.signExtend. cbv zeta.
  assert (Hp : 0 < 2 ^ (bits - 1)) by (apply Z.pow_pos_nonneg; lia).
  assert (Hq : 2 ^ (bits - 1) <= 2 ^ 30) by (apply Z.pow_le_mono_r; lia).
  unfold JS.band at 1. rewrite shl_1 by lia.
  rewrite (toInt32_id (2 ^ (bits - 1))) by (unfold int32; lia).
  rewrite land_pow2_testbit by lia. rewrite negb_involutive.
  replace (bits - 1) with (bits - 1) by lia.
  rewrite testbit_top_mod by lia.
  rewrite toInt32_mod_pow2 by lia.
  destruct (v mod 2 ^ bits <? 2 ^ (bits - 1)); cbn [negb].
  - unfold JS.band. rewrite toInt32_low_mask by lia.
    rewrite Z.land_ones by lia. apply toInt32_mod_pow2. lia.
  - unfold JS.bor. rewrite shl_m1 by lia.
    assert (0 < 2 ^ bits) by (apply Z.pow_pos_nonneg; lia).
    assert (2 ^ bits <= 2 ^ 31) by (apply Z.pow_le_mono_r; lia).
    rewrite (toInt32_id (- 2 ^ bits)) by (unfold int32; lia).
    rewrite lor_neg_pow2 by lia. by rewrite toInt32_mod_pow2 by lia.
Qed.

Lemma band_low v n : 0 <= n <= 31 → JS.band v (Z.ones n) = v mod 2 ^ n.
Proof.
  intros Hn. unfold JS.band.
  assert (0 < 2 ^ n) by (apply Z.pow_pos_nonneg; lia).
  assert (2 ^ n <= 2 ^ 31) by (apply Z.pow_le_mono_r; lia).
  rewrite (toInt32_id (Z.ones n)) by (rewrite Z.ones_equiv; unfold int32; lia).
  rewrite Z.land_ones by lia. apply toInt32_mod_pow2. lia.
Qed.

Lemma band_31 v : JS.band v 31 = v mod 32.
Proof. exact (band_low v 5 ltac:(lia)). Qed.

Lemma band_255 v : JS.band v 255 = v mod 256.
Proof. exact (band_low v 8 ltac:(lia)). Qed.

Lemma band_65535 v : JS.band v 65535 = v mod 65536.
Proof. exact (band_low v 16 ltac:(lia)). Qed.

Lemma unsigned_mod v : Executor.unsigned v = v mod 2 ^ 32.
Proof. unfold Executor.unsigned, JS.shr. change (JS.shiftCount 0) with 0. apply Z.shiftr_0_r. Qed.

Lemma shl_mul a s : 0 <= s <= 31 → JS.shl a s = JS.toInt32 (a * 2 ^ s).
Proof.
  intros Hs. unfold JS.shl. rewrite shiftCount_small by lia.
  rewrite Z.shiftl_mul_pow2 by lia. apply toInt32_congr.
  rewrite Z.mul_mod, toInt32_mod, <- Z.mul_mod by lia. reflexivity.
Qed.

Lemma sar_div a s : 0 <= s <= 31 → JS.sar a s = JS.toInt32 a / 2 ^ s.
Proof.
  intros Hs. unfold JS.sar. rewrite shiftCount_small by lia.
  apply Z.shiftr_div_pow2. lia.
Qed.

Lemma shr_div a s : 0 <= s <= 31 → JS.shr a s = (a mod 2 ^ 32) / 2 ^ s.
Proof.
  intros Hs. unfold JS.shr, JS.toUint32. rewrite shiftCount_small by lia.
  apply Z.shiftr_div_pow2. lia.
Qed.

Lemma int32_div_pow2 a s : int32 a → 0 <= s → int32 (a / 2 ^ s).
Proof.
  unfold int32. intros Ha Hs.
  assert (Hp : 0 < 2 ^ s) by (apply Z.pow_pos_nonneg; lia).
  split.
  - apply Z.div_le_lower_bound; [lia |]. nia.
  - apply Z.div_lt_upper_bound; [lia |]. nia.
Qed.

Lemma signedLow_bounds bits v :
  1 <= bits → - 2 ^ (bits - 1) <= signedLow bits v < 2 ^ (bits - 1).
Proof.
  intros Hb. unfold signedLow. cbv zeta.
  assert (Hp : 0 < 2 ^ (bits - 1)) by (apply Z.pow_pos_nonneg; lia).
  assert (H2 : 2 ^ bits = 2 * 2 ^ (bits - 1)).
  { replace bits with (1 + (bits - 1)) at 1 by lia. rewrite Z.pow_add_r by lia. lia. }
  pose proof (Z.mod_pos_bound v (2 ^ bits) ltac:(lia)).
  destruct (Z.ltb_spec (v mod 2 ^ bits) (2 ^ (bits - 1))); lia.
Qed.

Lemma signedLow_int32 bits v : 1 <= bits <= 32 → int32 (signedLow bits v).
Proof.
  intros Hb. pose proof (signedLow_bounds bits v ltac:(lia)) as H.
  assert (2 ^ (bits - 1) <= 2 ^ 31) by (apply Z.pow_le_mono_r; lia).
  unfold int32. lia.
Qed.

Lemma signedLow_mod bits v : 0 <= bits → signedLow bits v mod 2 ^ bits = v mod 2 ^ bits.
Proof.
  intros Hb. unfold signedLow. cbv zeta.
  assert (0 < 2 ^ bits) by (apply Z.pow_pos_nonneg; lia).
  destruct (v mod 2 ^ bits <? 2 ^ (bits - 1)).
  - apply Z.mod_mod. lia.
  - replace (v mod 2 ^ bits - 2 ^ bits) with (v mod 2 ^ bits + (-1) * 2 ^ bits) by lia.
    rewrite Z.mod_add by lia. apply Z.mod_mod. lia.
Qed.

Lemma signedLow_id bits v :
  1 <= bits → - 2 ^ (bits - 1) <= v < 2 ^ (bits - 1) → signedLow bits v = v.
Proof.
  intros Hb Hv. unfold signedLow. cbv zeta.
  assert (Hp : 0 < 2 ^ (bits - 1)) by (apply Z.pow_pos_nonneg; lia).
  assert (H2 : 2 ^ bits = 2 * 2 ^ (bits - 1)).
  { replace bits with (1 + (bits - 1)) at 1 by lia. rewrite Z.pow_add_r by lia. lia. }
  destruct (Z_lt_dec v 0).
  - replace (v mod 2 ^ bits) with (v + 2 ^ bits)
      by (apply Z.mod_unique with (q := -1); lia).
    destruct (Z.ltb_spec (v + 2 ^ bits) (2 ^ (bits - 1))); lia.
  - rewrite Z.mod_small by lia.
    destruct (Z.ltb_spec v (2 ^ (bits - 1))); lia.
Qed.

Lemma pow2_split a b : 0 <= a → 0 <= b → 2 ^ (a + b) = 2 ^ a * 2 ^ b.
Proof. intros. apply Z.pow_add_r; lia. Qed.

Lemma class_signExtend_spec v bits :
  1 <= bits <= 32 → Simulator.signExtend v bits = signedLow bits v.
Proof.
  intros Hb. unfold Simulator.signExtend, signedLow. cbv zeta.
  set (s := 32 - bits).
  assert (Hs : 0 <= s <= 31) by lia.
  assert (Hps : 0 < 2 ^ s) by (apply Z.pow_pos_nonneg; lia).
  assert (Hpb : 0 < 2 ^ (bits - 1)) by (apply Z.pow_pos_nonneg; lia).
  assert (H32 : 2 ^ 32 = 2 ^ bits * 2 ^ s).
  { rewrite <- Z.pow_add_r by lia. f_equal. lia. }
  assert (H31 : 2 ^ 31 = 2 ^ (bits - 1) * 2 ^ s).
  { rewrite <- Z.pow_add_r by lia. f_equal. lia. }
  assert (Hbb : 2 ^ bits = 2 * 2 ^ (bits - 1)).
  { replace bits with (1 + (bits - 1)) at 1 by lia. rewrite Z.pow_add_r by lia. lia. }
  rewrite sar_div, shl_mul by lia. rewrite toInt32_idem.
  assert (Hm : (v * 2 ^ s) mod 2 ^ 32 = v mod 2 ^ bits * 2 ^ s).
  { rewrite H32. apply Z.mul_mod_distr_r; lia. }
  pose proof (Z.mod_pos_bound v (2 ^ bits) ltac:(lia)) as Hv.
  unfold JS.toInt32. cbv zeta. rewrite Hm.
  destruct (Z.ltb_spec (v mod 2 ^ bits * 2 ^ s) (2 ^ 31)),
    (Z.ltb_spec (v mod 2 ^ bits) (2 ^ (bits - 1))); try nia.
  - apply Z.div_mul. lia.
  - replace (v mod 2 ^ bits * 2 ^ s - 2 ^ 32) with ((v mod 2 ^ bits - 2 ^ bits) * 2 ^ s) by lia.
    apply Z.div_mul. lia.
Qed.

Lemma signExtend_id v bits :
  1 <= bits <= 31 → - 2 ^ (bits - 1) <= v < 2 ^ (bits - 1) →
  Decoder.signExtend v bits = v.
Proof.
  intros Hb Hv. rewrite signExtend_spec by done.
  assert (Hp : 0 < 2 ^ (bits - 1)) by (apply Z.pow_pos_nonneg; lia).
  assert (H2 : 2 ^ bits = 2 * 2 ^ (bits - 1)).
  { replace bits with (1 + (bits - 1)) at 1 by lia. rewrite Z.pow_add_r by lia. lia. }
  destruct (Z_lt_dec v 0).
  - replace (v mod 2 ^ bits) with (v + 2 ^ bits)
      by (apply Z.mod_unique with (q := -1); lia).
    destruct (Z.ltb_spec (v + 2 ^ bits) (2 ^ (bits - 1))); lia.
  - rewrite Z.mod_small by lia.
    destruct (Z.ltb_spec v (2 ^ (bits - 1))); lia.
Qed.

(** ** The parser *)

(** *** Cleaning a line *)

Lemma trimEnd_idem s : Str.trimEnd (Str.trimEnd s) = Str.trimEnd s.
Proof.
  induction s as [| c s IH]; [reflexivity |]. cbn [Str.trimEnd].
  destruct (Str.isSpace c && Str.isEmpty (Str.trimEnd s)) eqn:E; [reflexivity |].
  cbn [Str.trimEnd]. by rewrite IH, E.
Qed.

(** What [trimEnd] leaves starts as the string does. *)
Lemma trimEnd_head c s :
  Str.isSpace c = false → ∃ t, Str.trimEnd (String c s) = String c t.
Proof. intros Hc. cbn [Str.trimEnd]. rewrite Hc. by eexists. Qed.

Lemma trimStart_head s :
  match Str.trimStart s with
  | EmptyString => True
  | String c _ => Str.isSpace c = false
  end.
Proof.
  unfold Str.trimStart. induction s as [| c s IH]; [exact I |]. cbn [Str.dropWhile].
  destruct (Str.isSpace c) eqn:E; [exact IH | exact E].
Qed.

Lemma trimStart_fixed s :
  match s with EmptyString => True | String c _ => Str.isSpace c = false end →
  Str.trimStart s = s.
Proof. destruct s as [| c s]; [done |]. intros H. unfold Str.trimStart. cbn. by rewrite H. Qed.

Lemma trim_head s :
  match Str.trim s with
  | EmptyString => True
  | String c _ => Str.isSpace c = false
  end.
Proof.
  unfold Str.trim. pose proof (trimStart_head s) as H.
  destruct (Str.trimStart s) as [| c t]; [exact I |].
  destruct (trimEnd_head c t H) as [u ->]. exact H.
Qed.

Lemma trim_idem s : Str.trim (Str.trim s) = Str.trim s.
Proof.
  unfold Str.trim at 1. rewrite (trimStart_fixed (Str.trim s)) by apply trim_head.
  unfold Str.trim. apply trimEnd_idem.
Qed.

Lemma includes_dropWhile c p s :
  Str.includes c (Str.dropWhile p s) = true → Str.includes c s = true.
Proof.
  induction s as [| c' s IH]; [done |]. cbn [Str.dropWhile].
  destruct (p c'); [| done]. intros H. cbn [Str.includes].
  destruct (Ascii.eqb c c'); [done | by apply IH].
Qed.

Lemma includes_trimEnd c s :
  Str.includes c (Str.trimEnd s) = true → Str.includes c s = true.
Proof.
  induction s as [| c' s IH]; [done |]. cbn [Str.trimEnd].
  destruct (Str.isSpace c' && Str.isEmpty (Str.trimEnd s)); [discriminate |].
  cbn [Str.includes]. destruct (Ascii.eqb c c'); [done | exact IH].
Qed.

Lemma includes_trim c s : Str.includes c (Str.trim s) = true → Str.includes c s = true.
Proof. intros H. by apply includes_trimEnd, includes_dropWhile in H. Qed.

Lemma includes_takeWhile_ne c s :
  Str.includes c (Str.takeWhile (λ x, negb (Ascii.eqb x c)) s) = false.
Proof.
  induction s as [| c' s IH]; [reflexivity |]. cbn [Str.takeWhile].
  destruct (Ascii.eqb c' c) eqn:E; cbn [negb]; [reflexivity |].
  cbn [Str.includes]. rewrite Ascii.eqb_sym, E. exact IH.
Qed.

Lemma takeWhile_ne_fixed c s :
  Str.includes c s = false → Str.takeWhile (λ x, negb (Ascii.eqb x c)) s = s.
Proof.
  induction s as [| c' s IH]; [reflexivity |]. cbn [Str.includes Str.takeWhile].
  rewrite (Ascii.eqb_sym c' c). destruct (Ascii.eqb c c'); [discriminate |].
  cbn [negb]. intros H. by rewrite IH.
Qed.

Lemma takeWhile_ne_app c s t :
  Str.takeWhile (λ x, negb (Ascii.eqb x c)) (s ++ String c t)
  = Str.takeWhile (λ x, negb (Ascii.eqb x c)) s.
Proof.
  induction s as [| c' s IH].
  - change (EmptyString ++ String c t)%string with (String c t).
    cbn [Str.takeWhile]. by rewrite Ascii.eqb_refl.
  - change (String c' s ++ String c t)%string with (String c' (s ++ String c t)).
    cbn [Str.takeWhile]. destruct (Ascii.eqb c' c); cbn [negb]; [reflexivity | by rewrite IH].
Qed.

(** X1: [cleanLine] drops the comment, which is everything from the first
    [#] on, and then the white space on both sides.  So text written
    after a [#] never changes the cleaned line, the cleaned line holds
    no [#] and no white space at either end, and cleaning a cleaned
    line gives it back. *)
Theorem X1_cleanLine_strips_comment_and_blanks line comment :
  Parser.cleanLine (line ++ String "#" comment) = Parser.cleanLine line ∧
  Parser.cleanLine (Parser.cleanLine line) = Parser.cleanLine line ∧
  Str.includes "#" (Parser.cleanLine line) = false ∧
  Str.trim (Parser.cleanLine line) = Parser.cleanLine line.
Proof.
  assert (Hno : Str.includes "#" (Parser.cleanLine line) = false).
  { unfold Parser.cleanLine.
    destruct (Str.includes "#" (Str.trim _)) eqn:E; [| reflexivity].
    apply includes_trim in E. by rewrite includes_takeWhile_ne in E. }
  split; [| split; [| split]].
  - unfold Parser.cleanLine. by rewrite takeWhile_ne_app.
  - unfold Parser.cleanLine at 1. rewrite takeWhile_ne_fixed by exact Hno.
    unfold Parser.cleanLine. apply trim_idem.
  - exact Hno.
  - unfold Parser.cleanLine. apply trim_idem.
Qed.

(** *** The records of a program and the errors of [parse] *)

Lemma assoc_In {A} k (l : list (string * A)) v :
  Parser.assoc k l = Some v → In (k, v) l.
Proof.
  induction l as [| [k' v'] l IH]; cbn [Parser.assoc]; [discriminate |].
  destruct (String.eqb_spec k k') as [-> | _].
  - intros [= ->]. by left.
  - intros H. right. by apply IH.
Qed.

Lemma parseRegister_range reg n : Parser.parseRegister reg = Ok n → 0 <= n <= 31.
Proof.
  unfold Parser.parseRegister.
  destruct (Parser.assoc _ _) as [m |] eqn:E; [| discriminate].
  intros [= <-]. apply assoc_In in E.
  assert (H : Forall (λ kv : string * Z, 0 <= kv.2 <= 31) Parser.registerMap).
  { unfold Parser.registerMap. repeat (constructor; [cbn [snd]; lia |]). constructor. }
  rewrite List.Forall_forall in H. apply (H _ E).
Qed.

Ltac split_parts :=
  repeat match goal with
    | |- context [match ?l with [] => _ | _ :: _ => _ end] => is_var l; destruct l
    end.

Ltac parse_operands :=
  repeat match goal with
    | |- context [Parser.parseRegister ?p] =>
        let E := fresh "R" in
        destruct (Parser.parseRegister p) eqn:E; cbn [mbind Result_bind];
        [apply parseRegister_range in E | |]
    | |- context [Parser.parseImmediate ?p ?b] =>
        destruct (Parser.parseImmediate p b); cbn [mbind Result_bind]
    | |- context [?m !! ?p] =>
        destruct (m !! p); cbn [mbind Result_bind defined]
    end.

Lemma parseInstruction_fields (labels : gmap string Z) line index lineNum r :
  Parser.parseInstruction labels line index lineNum = Ok r →
  i_format r = Parser.instructionFormats (i_opcode r) ∧
  i_index r = index ∧ i_lineNum r = lineNum ∧ i_original r = line ∧
  parsedOperands r.
Proof.
  unfold Parser.parseInstruction, parsedOperands.
  destruct (Str.tokens line) as [| p0 parts]; [discriminate |].
  destruct (Parser.assoc _ _) as [op |]; [| discriminate].
  destruct (Parser.instructionFormats op) eqn:Hf;
    unfold Parser.parseRFormat, Parser.parseIFormat, Parser.parseLoadFormat,
      Parser.parseStoreFormat, Parser.parseBranchFormat, Parser.parseJALFormat,
      Parser.parseJALRFormat, Parser.parseUFormat, Parser.labelOrImmediate,
      Parser.hasOwnProperty;
    cbn [i_opcode i_index].
  all: split_parts; try discriminate.
  all: parse_operands; try discriminate.
  all: intros [= <-]; cbn; rewrite Hf;
    repeat split; try (apply regOk_intro; lia); by eexists.
Qed.

(** The first pass hands on as many lines as it is given. *)
Lemma firstPass_length lines : ∀ index labels,
  length (Parser.firstPass lines index labels).2 = length lines.
Proof.
  induction lines as [| raw rest IH]; intros index labels; [reflexivity |].
  cbn [Parser.firstPass].
  repeat match goal with
    | |- context [if ?b then _ else _] => destruct b
    | |- context [match ?s with EmptyString => _ | String _ _ => _ end] => destruct s
    | |- context [match ?c with Ascii _ _ _ _ _ _ _ _ => _ end] => destruct c
    end;
    repeat match goal with
    | |- context [Parser.firstPass rest ?i ?l] =>
        let H := fresh in
        pose proof (IH i l) as H; destruct (Parser.firstPass rest i l); cbn [snd] in *;
        cbn [length]; try (by rewrite H)
    end.
Qed.

(** One step of the second pass: a line is skipped, or parsed. *)
Lemma secondPass_cons (labels : gmap string Z) raw rest lineNum index :
  Parser.secondPass labels (raw :: rest) lineNum index
  = Parser.secondPass labels rest (lineNum + 1) index
  ∨ ∃ text,
      Parser.secondPass labels (raw :: rest) lineNum index
      = match Parser.parseInstruction labels text index (lineNum + 1) with
        | Ok instruction =>
            more ← Parser.secondPass labels rest (lineNum + 1) (index + 1);
            Ok (instruction :: more)
        | Throw e => Throw (AtLine (lineNum + 1) e)
        | Undef => Undef
        end.
Proof.
  cbn [Parser.secondPass].
  destruct (Str.isEmpty (Parser.cleanLine raw)); [by left |].
  destruct (negb _ && _); [by left |].
  destruct (Str.isEmpty _); [by left |].
  right. by eexists.
Qed.

Lemma parseRegister_defined reg : Parser.parseRegister reg ≠ Undef.
Proof. unfold Parser.parseRegister. by destruct (Parser.assoc _ _). Qed.

Lemma parseImmediate_defined imm bits : Parser.parseImmediate imm bits ≠ Undef.
Proof.
  unfold Parser.parseImmediate. destruct (Parser.literalValue imm); [| done].
  cbv zeta. by destruct (_ || _).
Qed.

Lemma parseRegister_error reg e :
  Parser.parseRegister reg = Throw e → e = InvalidRegisterName reg.
Proof. unfold Parser.parseRegister. destruct (Parser.assoc _ _); congruence. Qed.

Lemma parseImmediate_error imm bits e :
  Parser.parseImmediate imm bits = Throw e → syntaxError e = true.
Proof.
  unfold Parser.parseImmediate. destruct (Parser.literalValue imm).
  - cbv zeta. destruct (_ || _); [| discriminate]. by intros [= <-].
  - by intros [= <-].
Qed.

Lemma parseInstruction_error (labels : gmap string Z) line index lineNum :
  match Parser.parseInstruction labels line index lineNum with
  | Ok _ => True
  | Throw e => lineError labels e
  | Undef => False
  end.
Proof.
  unfold Parser.parseInstruction, lineError.
  destruct (Str.tokens line) as [| p0 parts]; [by left |].
  destruct (Parser.assoc _ _) as [op |]; [| by left].
  destruct (Parser.instructionFormats op);
    unfold Parser.parseRFormat, Parser.parseIFormat, Parser.parseLoadFormat,
      Parser.parseStoreFormat, Parser.parseBranchFormat, Parser.parseJALFormat,
      Parser.parseJALRFormat, Parser.parseUFormat, Parser.labelOrImmediate,
      Parser.hasOwnProperty;
    cbn [i_opcode i_index].
  all: split_parts; try by left.
  all: repeat match goal with
    | |- context [Parser.parseRegister ?p] =>
        let E := fresh "R" in
        destruct (Parser.parseRegister p) eqn:E; cbn [mbind Result_bind];
        [| apply parseRegister_error in E; subst; by left
         | by apply parseRegister_defined in E]
    | |- context [Parser.parseImmediate ?p ?b] =>
        let E := fresh "R" in
        destruct (Parser.parseImmediate p b) eqn:E; cbn [mbind Result_bind];
        [| left; by apply parseImmediate_error in E
         | by apply parseImmediate_defined in E]
    | |- context [?m !! ?p] =>
        let E := fresh "L" in
        destruct (m !! p) eqn:E; cbn [mbind Result_bind defined]
    end.
  all: first [exact I | right; split; [reflexivity | by eexists]].
Qed.

(** The records of the second pass: index, line number, operands *)
Lemma secondPass_records (labels : gmap string Z) lines :
  ∀ lineNum index program,
    Parser.secondPass labels lines lineNum index = Ok program →
    (length program <= length lines)%nat ∧
    ∀ (k : nat) r, program !! k = Some r →
      i_index r = index + Z.of_nat k ∧
      lineNum + Z.of_nat k < i_lineNum r <= lineNum + Z.of_nat (length lines) ∧
      i_format r = Parser.instructionFormats (i_opcode r) ∧
      parsedOperands r.
Proof.
  induction lines as [| raw rest IH]; intros lineNum index program.
  - intros [= <-]. split; [done |]. intros k r Hk. by rewrite lookup_nil in Hk.
  - destruct (secondPass_cons labels raw rest lineNum index) as [-> | [text ->]].
    + intros H. destruct (IH _ _ _ H) as [Hlen Hrec]. cbn [length].
      split; [lia |]. intros k r Hk.
      destruct (Hrec k r Hk) as (? & ? & ? & ?). repeat split; try done; lia.
    + destruct (Parser.parseInstruction _ _ _ _) as [i | e |] eqn:Hi; try discriminate.
      destruct (Parser.secondPass labels rest (lineNum + 1) (index + 1))
        as [more | e |] eqn:Hmore; cbn [mbind Result_bind]; try discriminate.
      intros [= <-]. destruct (IH _ _ _ Hmore) as [Hlen Hrec]. cbn [length].
      split; [lia |]. intros k r Hk.
      destruct k as [| k]; cbn in Hk.
      * injection Hk as <-.
        destruct (parseInstruction_fields _ _ _ _ _ Hi) as (Hf & Hx & Hl & _ & Hop).
        rewrite Hx, Hl. repeat split; try done; lia.
      * destruct (Hrec k r Hk) as (? & ? & ? & ?). repeat split; try done; lia.
Qed.

(** Line numbers grow along the program. *)
Lemma secondPass_sorted (labels : gmap string Z) lines :
  ∀ lineNum index program,
    Parser.secondPass labels lines lineNum index = Ok program →
    ∀ (j k : nat) r r', (j < k)%nat →
      program !! j = Some r → program !! k = Some r' → i_lineNum r < i_lineNum r'.
Proof.
  induction lines as [| raw rest IH]; intros lineNum index program.
  - intros [= <-] j k r r' _ Hj. by rewrite lookup_nil in Hj.
  - destruct (secondPass_cons labels raw rest lineNum index) as [-> | [text ->]];
      [apply IH |].
    destruct (Parser.parseInstruction _ _ _ _) as [i | e |] eqn:Hi; try discriminate.
    destruct (Parser.secondPass labels rest (lineNum + 1) (index + 1))
      as [more | e |] eqn:Hmore; cbn [mbind Result_bind]; try discriminate.
    intros [= <-] j k r r' Hjk Hj Hk.
    destruct k as [| k]; [lia |]. cbn in Hk.
    destruct j as [| j]; cbn in Hj.
    + injection Hj as <-.
      destruct (parseInstruction_fields _ _ _ _ _ Hi) as (_ & _ & Hl & _).
      destruct (secondPass_records _ _ _ _ _ Hmore) as [_ Hrec].
      destruct (Hrec k r' Hk) as (_ & ? & _). lia.
    + apply (IH _ _ _ Hmore j k r r'); [lia | done | done].
Qed.

(** The errors of the second pass name the line. *)
Lemma secondPass_error (labels : gmap string Z) lines :
  ∀ lineNum index,
    match Parser.secondPass labels lines lineNum index with
    | Ok _ => True
    | Throw e =>
        ∃ n cause, e = AtLine n cause ∧
          lineNum < n <= lineNum + Z.of_nat (length lines) ∧
          lineError labels cause
    | Undef => False
    end.
Proof.
  induction lines as [| raw rest IH]; intros lineNum index; [exact I |].
  destruct (secondPass_cons labels raw rest lineNum index) as [-> | [text ->]].
  - specialize (IH (lineNum + 1) index).
    destruct (Parser.secondPass _ _ _ _) as [p | e |]; [done | | done].
    destruct IH as (n & cause & -> & Hn & Hc). exists n, cause. cbn [length].
    repeat split; try done; lia.
  - pose proof (parseInstruction_error labels text index (lineNum + 1)) as He.
    destruct (Parser.parseInstruction _ _ _ _) as [i | e |]; [| | done].
    + specialize (IH (lineNum + 1) (index + 1)).
      destruct (Parser.secondPass _ _ _ _) as [p | e |]; cbn [mbind Result_bind];
        [done | | done].
      destruct IH as (n & cause & -> & Hn & Hc). exists n, cause. cbn [length].
      repeat split; try done; lia.
    + exists (lineNum + 1), e. cbn [length]. repeat split; try done; lia.
Qed.

Lemma parse_ok_records code program :
  Parser.parse code = Ok program →
  (length program <= length (Str.split (ascii_of_N 10) code))%nat ∧
  (∀ (k : nat) r, program !! k = Some r →
     i_index r = Z.of_nat k ∧
     Z.of_nat k < i_lineNum r <= Z.of_nat (length (Str.split (ascii_of_N 10) code)) ∧
     i_format r = Parser.instructionFormats (i_opcode r) ∧
     parsedOperands r) ∧
  (∀ (j k : nat) r r', (j < k)%nat →
     program !! j = Some r → program !! k = Some r' → i_lineNum r < i_lineNum r').
Proof.
  unfold Parser.parse.
  pose proof (firstPass_length (Str.split (ascii_of_N 10) code) 0 ∅) as Hlen.
  destruct (Parser.firstPass _ _ _) as [labels lines]. cbn [snd] in Hlen.
  intros Hp. destruct (secondPass_records labels lines 0 0 program Hp) as [Hl Hrec].
  rewrite Hlen in *. split; [exact Hl |]. split.
  - intros k r Hk. destruct (Hrec k r Hk) as (? & ? & ? & ?).
    repeat split; try done; lia.
  - exact (secondPass_sorted labels lines 0 0 program Hp).
Qed.

Lemma parse_error_line code :
  match Parser.parse code with
  | Ok _ => True
  | Throw e =>
      ∃ n cause, e = AtLine n cause ∧
        1 <= n <= Z.of_nat (length (Str.split (ascii_of_N 10) code)) ∧
        lineError (Parser.labelsOf code) cause
  | Undef => False
  end.
Proof.
  unfold Parser.parse, Parser.labelsOf.
  pose proof (firstPass_length (Str.split (ascii_of_N 10) code) 0 ∅) as Hlen.
  destruct (Parser.firstPass _ _ _) as [labels lines]. cbn [fst snd] in *.
  pose proof (secondPass_error labels lines 0 0) as H.
  destruct (Parser.secondPass _ _ _ _) as [p | e |]; [done | | done].
  destruct H as (n & cause & -> & Hn & Hc). exists n, cause.
  rewrite Hlen in Hn. repeat split; try done; lia.
Qed.

(** X2: what [parse] returns.  A program has at most one record per
    source line; record [k] carries index [k], a line number of the
    source that grows with [k], the format of its opcode and the
    operands this format asks of the decoder, registers within 0..31.
    A failure carries the number of a line of the source and is one of
    the parser's own errors or, when the source has a label named
    [hasOwnProperty], the [TypeError] of calling that name on the label
    table. *)
Theorem X2_parse_result code :
  let lines := Z.of_nat (length (Str.split (ascii_of_N 10) code)) in
  match Parser.parse code with
  | Ok program =>
      Z.of_nat (length program) <= lines ∧
      (∀ (k : nat) r, program !! k = Some r →
         i_index r = Z.of_nat k ∧
         Z.of_nat k < i_lineNum r <= lines ∧
         i_format r = Parser.instructionFormats (i_opcode r) ∧
         parsedOperands r) ∧
      (∀ (j k : nat) r r', (j < k)%nat →
         program !! j = Some r → program !! k = Some r' → i_lineNum r < i_lineNum r')
  | Throw e =>
      ∃ n cause, e = AtLine n cause ∧ 1 <= n <= lines ∧
        (syntaxError cause = true ∨
         (cause = TypeErrorHasOwnProperty ∧
          is_Some (Parser.labelsOf code !! "hasOwnProperty"%string)))
  | Undef => False
  end.
Proof.
  cbv zeta. pose proof (parse_error_line code) as He. unfold lineError in He.
  destruct (Parser.parse code) as [program | e |] eqn:Hp; [| exact He | exact He].
  destruct (parse_ok_records code program Hp) as (Hl & Hrec & Hsorted).
  split; [lia |]. split; [exact Hrec | exact Hsorted].
Qed.

(** *** Register names, numbers and the offset form *)

Lemma lowerChar_upperChar c : Str.lowerChar (Str.upperChar c) = Str.lowerChar c.
Proof. destruct c as [[] [] [] [] [] [] [] []]; reflexivity. Qed.

Lemma lowerChar_idem c : Str.lowerChar (Str.lowerChar c) = Str.lowerChar c.
Proof. destruct c as [[] [] [] [] [] [] [] []]; reflexivity. Qed.

Lemma toLowerCase_toUpperCase s :
  Str.toLowerCase (Str.toUpperCase s) = Str.toLowerCase s.
Proof.
  unfold Str.toLowerCase, Str.toUpperCase.
  induction s as [| c s IH]; [reflexivity |]. cbn [Str.map].
  by rewrite lowerChar_upperChar, IH.
Qed.

Lemma toLowerCase_idem s : Str.toLowerCase (Str.toLowerCase s) = Str.toLowerCase s.
Proof.
  unfold Str.toLowerCase.
  induction s as [| c s IH]; [reflexivity |]. cbn [Str.map].
  by rewrite lowerChar_idem, IH.
Qed.

Lemma isLetter_lowerChar c : isLetter (Str.lowerChar c) = isLetter c.
Proof. destruct c as [[] [] [] [] [] [] [] []]; reflexivity. Qed.

Lemma registerMap_letters :
  Forall (λ kv : string * Z, startsWithLetter kv.1 = true) Parser.registerMap.
Proof. unfold Parser.registerMap. repeat (constructor; [reflexivity |]). constructor. Qed.

Lemma literalValue_letter c s : isLetter c = true → Parser.literalValue (String c s) = None.
Proof. destruct c as [[] [] [] [] [] [] [] []]; try discriminate; intros _; reflexivity. Qed.

Lemma parseRegister_not_a_number reg n :
  Parser.parseRegister reg = Ok n → Parser.literalValue reg = None.
Proof.
  unfold Parser.parseRegister.
  destruct (Parser.assoc _ _) as [m |] eqn:E; [| discriminate]. intros _.
  apply assoc_In in E. pose proof registerMap_letters as H.
  rewrite List.Forall_forall in H. specialize (H _ E). cbn [fst] in H.
  destruct reg as [| c s]; [discriminate |].
  unfold Str.toLowerCase in H. cbn [Str.map startsWithLetter] in H.
  rewrite isLetter_lowerChar in H. by apply literalValue_letter.
Qed.

(** X3: a name that [parseRegister] accepts stands for a register
    between 0 and 31, and for the same register in upper case and in
    lower case.  Such a name is never taken for a number:
    [parseImmediate] refuses it at every width. *)
Theorem X3_register_names reg n :
  Parser.parseRegister reg = Ok n →
  0 <= n <= 31 ∧
  Parser.parseRegister (Str.toUpperCase reg) = Ok n ∧
  Parser.parseRegister (Str.toLowerCase reg) = Ok n ∧
  ∀ bits, Parser.parseImmediate reg bits = Throw (InvalidImmediate reg).
Proof.
  intros H. split; [by apply (parseRegister_range reg) |].
  pose proof (parseRegister_not_a_number reg n H) as Hn.
  unfold Parser.parseRegister in *.
  rewrite toLowerCase_toUpperCase, toLowerCase_idem.
  destruct (Parser.assoc _ _); [| discriminate].
  split; [exact H |]. split; [exact H |].
  intros bits. unfold Parser.parseImmediate. by rewrite Hn.
Qed.

Lemma X3_witness :
  Parser.parseRegister (Str.toUpperCase "Sp") = Ok 2 ∧
  Parser.parseImmediate "Sp" 12 = Throw (InvalidImmediate "Sp").
Proof.
  destruct (X3_register_names "Sp"%string 2 eq_refl) as (_ & Hu & _ & Hi).
  split; [exact Hu | exact (Hi 12)].
Defined.

Lemma number_not_a_register p v :
  Parser.literalValue p = Some v → Parser.parseRegister p = Throw (InvalidRegisterName p).
Proof.
  intros Hv. destruct (Parser.parseRegister p) as [n | e |] eqn:E.
  - apply parseRegister_not_a_number in E. congruence.
  - by apply parseRegister_error in E as ->.
  - by apply parseRegister_defined in E.
Qed.

(** X4: the offset form of a load or a store, [LW x1, 4(x2)], is
    always refused.  The line splits into four parts, the empty ones
    being filtered out, so the branch for three operands reads the
    offset as a register name.  The branch written for the offset form
    asks for five parts: a line such as [LW x1, 4 x2 t] takes it and is
    accepted, whatever its fifth part is. *)
Theorem X4_load_store_offset_form (labels : gmap string Z) line index lineNum
    m p1 p2 p3 op r1 v :
  Parser.assoc (Str.toUpperCase m) Parser.mnemonics = Some op →
  Parser.instructionFormats op = F_IL ∨ Parser.instructionFormats op = F_S →
  Parser.parseRegister p1 = Ok r1 →
  Parser.literalValue p2 = Some v →
  (Str.tokens line = [m; p1; p2; p3] →
   Parser.parseInstruction labels line index lineNum = Throw (InvalidRegisterName p2)) ∧
  (∀ p4 r3,
     Str.tokens line = [m; p1; p2; p3; p4] →
     Parser.parseRegister p3 = Ok r3 → -2048 <= v <= 2047 →
     ∃ r, Parser.parseInstruction labels line index lineNum = Ok r ∧
          i_opcode r = op ∧ i_rs1 r = Some r3 ∧ i_imm r = Some v ∧
          (if decide (Parser.instructionFormats op = F_IL)
           then i_rd r = Some r1 ∧ i_rs2 r = None
           else i_rs2 r = Some r1 ∧ i_rd r = None)).
Proof.
  intros Hm Hf H1 Hv.
  pose proof (number_not_a_register p2 v Hv) as H2.
  assert (Himm : -2048 <= v <= 2047 → Parser.parseImmediate p2 12 = Ok v).
  { intros Hr. rewrite (parseImmediate_range p2 12 v) by (cbn; tauto || done).
    destruct (Z.ltb_spec (2 ^ (12 - 1) - 1) v), (Z.ltb_spec v (- 2 ^ (12 - 1)));
      cbn [orb]; try reflexivity; lia. }
  unfold Parser.parseInstruction. split.
  - intros ->. rewrite Hm.
    destruct Hf as [-> | ->]; unfold Parser.parseLoadFormat, Parser.parseStoreFormat;
      rewrite H1; cbn [mbind Result_bind]; by rewrite H2.
  - intros p4 r3 -> H3 Hr. rewrite Hm.
    destruct Hf as [Hf | Hf]; rewrite Hf;
      unfold Parser.parseLoadFormat, Parser.parseStoreFormat;
      rewrite H1; cbn [mbind Result_bind]; rewrite (Himm Hr); cbn [mbind Result_bind];
      rewrite H3; cbn [mbind Result_bind];
      (eexists; split; [reflexivity |]);
      cbn [i_opcode i_rd i_rs1 i_rs2 i_imm Parser.with_rd Parser.with_rs1
           Parser.with_rs2 Parser.with_imm];
      case_decide; try done; by repeat split.
Qed.

Lemma X4_witness :
  Parser.parseInstruction ∅ "LW x1, 4(x2)" 0 1 = Throw (InvalidRegisterName "4").
Proof.
  apply (X4_load_store_offset_form ∅ "LW x1, 4(x2)"%string 0 1
           "LW"%string "x1"%string "4"%string "x2"%string LW 1 4
           eq_refl (or_introl eq_refl) eq_refl eq_refl).
  reflexivity.
Defined.

(** *** The short forms of JAL and JALR *)

(** X5: the short forms of the jumps are read as the long ones:
    [JAL target] as [JAL x1, target], [JALR rs1] as [JALR x1, rs1, 0]
    and [JALR rd, rs1] as [JALR rd, rs1, 0].  Either both lines are
    refused with the same error, or both parse, to records that differ
    only in the source text they keep. *)
Theorem X5_jump_short_forms (labels : gmap string Z) short long index lineNum m op :
  Parser.assoc (Str.toUpperCase m) Parser.mnemonics = Some op →
  (op = JAL ∧ ∃ t, Str.tokens short = [m; t] ∧ Str.tokens long = [m; "x1"%string; t]) ∨
  (op = JALR ∧
   ∃ rs1, Str.tokens short = [m; rs1] ∧
          Str.tokens long = [m; "x1"%string; rs1; "0"%string]) ∨
  (op = JALR ∧
   ∃ rd rs1, Str.tokens short = [m; rd; rs1] ∧
             Str.tokens long = [m; rd; rs1; "0"%string]) →
  Parser.parseInstruction labels short index lineNum
  = (r ← Parser.parseInstruction labels long index lineNum; Ok (with_original short r)).
Proof.
  intros Hm Hforms. unfold Parser.parseInstruction.
  destruct Hforms as [(-> & t & -> & ->) | [(-> & rs1 & -> & ->) | (-> & rd & rs1 & -> & ->)]];
    rewrite Hm; cbn [Parser.instructionFormats];
    unfold Parser.parseJALFormat, Parser.parseJALRFormat, Parser.labelOrImmediate,
      Parser.hasOwnProperty.
  - change (Parser.parseRegister "x1") with (Ok (A := Z) 1). cbn [mbind Result_bind].
    cbn [i_index Parser.with_rd].
    destruct (labels !! "hasOwnProperty"%string); [reflexivity |].
    cbn [mbind Result_bind].
    destruct (labels !! t); [reflexivity |].
    by destruct (Parser.parseImmediate t 21).
  - change (Parser.parseRegister "x1") with (Ok (A := Z) 1).
    change (Parser.parseImmediate "0" 12) with (Ok (A := Z) 0).
    cbn [mbind Result_bind]. by destruct (Parser.parseRegister rs1).
  - change (Parser.parseImmediate "0" 12) with (Ok (A := Z) 0).
    destruct (Parser.parseRegister rd); cbn [mbind Result_bind]; try reflexivity.
    by destruct (Parser.parseRegister rs1).
Qed.

Lemma X5_witness :
  Parser.parseInstruction ∅ "JALR x5" 0 1
  = Ok (with_original "JALR x5" (recordWith JALR (Some 1) (Some 5) None (Some 0))).
Proof.
  rewrite (X5_jump_short_forms ∅ "JALR x5"%string "JALR x1, x5, 0"%string 0 1 "JALR"%string JALR
             eq_refl).
  - reflexivity.
  - right. left. split; [reflexivity |]. exists "x5"%string. split; reflexivity.
Defined.

(** *** Comments and blank lines *)

Lemma firstPass_cleaned l1 l2 :
  Forall2 sameCleaned l1 l2 →
  ∀ index labels,
    (Parser.firstPass l1 index labels).1 = (Parser.firstPass l2 index labels).1 ∧
    Forall2 sameCleaned (Parser.firstPass l1 index labels).2
      (Parser.firstPass l2 index labels).2.
Proof.
  induction 1 as [| a b l1 l2 Hab Hrest IH]; intros index labels.
  - split; [reflexivity | constructor].
  - cbn [Parser.firstPass]. unfold sameCleaned in Hab. rewrite Hab.
    repeat match goal with
      | |- context [if ?c then _ else _] => destruct c
      | |- context [match ?s with EmptyString => _ | String _ _ => _ end] => destruct s
      | |- context [match ?c with Ascii _ _ _ _ _ _ _ _ => _ end] => destruct c
      end;
      match goal with
      | |- context [Parser.firstPass l1 ?i ?l] =>
          destruct (IH i l) as [H1 H2];
          destruct (Parser.firstPass l1 i l), (Parser.firstPass l2 i l);
          cbn [fst snd] in *; split; [exact H1 |];
          constructor; [done | exact H2]
      end.
Qed.

Lemma secondPass_cleaned (labels : gmap string Z) l1 l2 :
  Forall2 sameCleaned l1 l2 →
  ∀ lineNum index,
    Parser.secondPass labels l1 lineNum index = Parser.secondPass labels l2 lineNum index.
Proof.
  induction 1 as [| a b l1 l2 Hab Hrest IH]; intros lineNum index; [reflexivity |].
  cbn [Parser.secondPass]. unfold sameCleaned in Hab. rewrite Hab.
  by rewrite !IH.
Qed.

Lemma Forall2_sameCleaned l1 l2 :
  map Parser.cleanLine l1 = map Parser.cleanLine l2 → Forall2 sameCleaned l1 l2.
Proof.
  revert l2. induction l1 as [| a l1 IH]; intros [| b l2]; try discriminate.
  - constructor.
  - cbn [map]. intros [= Hab Hrest]. constructor; [exact Hab | by apply IH].
Qed.

(** X6: [parse] sees a source through [cleanLine] only: two sources
    whose lines clean to the same texts give the same program, with the
    same line numbers, or the same error.  (The [original] field of a
    record is the cleaned line.) *)
Theorem X6_parse_reads_cleaned_lines code1 code2 :
  map Parser.cleanLine (Str.split (ascii_of_N 10) code1)
  = map Parser.cleanLine (Str.split (ascii_of_N 10) code2) →
  Parser.parse code1 = Parser.parse code2.
Proof.
  intros H. apply Forall2_sameCleaned in H. unfold Parser.parse.
  destruct (firstPass_cleaned _ _ H 0 ∅) as [Hl Hlines].
  destruct (Parser.firstPass (Str.split _ code1) 0 ∅) as [labels1 lines1].
  destruct (Parser.firstPass (Str.split _ code2) 0 ∅) as [labels2 lines2].
  cbn [fst snd] in *. subst labels2. by apply secondPass_cleaned.
Qed.

Lemma X6_witness :
  Parser.parse "ADDI x1, x0, 1   # one" = Parser.parse "   ADDI x1, x0, 1".
Proof.
  apply (X6_parse_reads_cleaned_lines "ADDI x1, x0, 1   # one"%string
           "   ADDI x1, x0, 1"%string).
  reflexivity.
Defined.

(** A source of blank lines and comments *)
Lemma firstPass_blank lines :
  Forall (λ l, Parser.cleanLine l = EmptyString) lines →
  ∀ index labels, Parser.firstPass lines index labels = (labels, lines).
Proof.
  induction 1 as [| raw rest Hraw Hrest IH]; intros index labels; [reflexivity |].
  cbn [Parser.firstPass]. rewrite Hraw. cbn [Str.isEmpty]. by rewrite IH.
Qed.

Lemma secondPass_blank (labels : gmap string Z) lines :
  Forall (λ l, Parser.cleanLine l = EmptyString) lines →
  ∀ lineNum index, Parser.secondPass labels lines lineNum index = Ok [].
Proof.
  induction 1 as [| raw rest Hraw Hrest IH]; intros lineNum index; [reflexivity |].
  cbn [Parser.secondPass]. rewrite Hraw. cbn [Str.isEmpty]. apply IH.
Qed.

(** X7: a source of blank lines and comments parses to the empty
    program; Run, with any fuel, and Step both answer with the initial
    state, not halted and with the program counter at 0. *)
Theorem X7_blank_source_runs_nothing code fuel :
  Forall (λ l, Parser.cleanLine l = EmptyString) (Str.split (ascii_of_N 10) code) →
  Parser.parse code = Ok [] ∧
  Controller.executeProgram fuel code
  = Some (Controller.initialState, Ok (Controller.snapshot Controller.initialState)) ∧
  Controller.stepExecution Controller.initialState code None
  = (Controller.initialState, Ok (Controller.snapshot Controller.initialState)).
Proof.
  intros H.
  assert (Hp : Parser.parse code = Ok []).
  { unfold Parser.parse. rewrite (firstPass_blank _ H). by apply secondPass_blank. }
  split; [exact Hp |]. split.
  - unfold Controller.executeProgram. rewrite Hp.
    change (set_instructions (Some []) Controller.initialState)
      with Controller.initialState.
    by rewrite runLoop_stopped.
  - unfold Controller.stepExecution. cbn [instructions Controller.initialState].
    rewrite programOf_nil, Hp. reflexivity.
Qed.

Lemma X7_witness :
  Controller.executeProgram 0 ("# nothing to run" ++ newline ++ "   ")
  = Some (Controller.initialState, Ok (Controller.snapshot Controller.initialState)).
Proof.
  apply (X7_blank_source_runs_nothing ("# nothing to run" ++ newline ++ "   ")%string 0).
  repeat constructor.
Defined.

(** ** The decoder *)

(** X8: the two sign extensions of the repository, the decoder's with
    masks and the [Simulator] class's with two shifts, agree for 1 to 31
    bits.  The result is the value whose low [bits] bits are those of
    [v], read as a signed number of [bits] bits: it lies in
    [-2^(bits-1), 2^(bits-1)), is congruent to [v] modulo [2^bits], and
    is [v] itself when [v] is in that range.  At 32 bits the class's
    function is [toInt32], and [toUnsigned] reduces modulo [2^32]. *)
Theorem X8_sign_extension v bits :
  1 <= bits <= 31 →
  Decoder.signExtend v bits = signedLow bits v ∧
  Simulator.signExtend v bits = Decoder.signExtend v bits ∧
  - 2 ^ (bits - 1) <= Decoder.signExtend v bits < 2 ^ (bits - 1) ∧
  Decoder.signExtend v bits mod 2 ^ bits = v mod 2 ^ bits ∧
  (- 2 ^ (bits - 1) <= v < 2 ^ (bits - 1) → Decoder.signExtend v bits = v) ∧
  Simulator.signExtend v 32 = JS.toInt32 v ∧
  Simulator.toUnsigned v = v mod 2 ^ 32.
Proof.
  intros Hb.
  assert (H : Decoder.signExtend v bits = signedLow bits v) by by apply signExtend_spec.
  rewrite H, !class_signExtend_spec by lia.
  split; [reflexivity |]. split; [reflexivity |].
  split; [apply signedLow_bounds; lia |].
  split; [apply signedLow_mod; lia |].
  split; [apply signedLow_id; lia |].
  split; [reflexivity |].
  unfold Simulator.toUnsigned, JS.shr. change (JS.shiftCount 0) with 0.
  apply Z.shiftr_0_r.
Qed.

Lemma X8_witness :
  Decoder.signExtend 4095 12 = -1 ∧ Simulator.signExtend 4095 12 = -1 ∧
  Decoder.signExtend (-2048) 12 = -2048.
Proof.
  destruct (X8_sign_extension 4095 12 ltac:(lia)) as (Hd & Hs & _).
  destruct (X8_sign_extension (-2048) 12 ltac:(lia)) as (_ & _ & _ & _ & Hid & _).
  split; [exact Hd |]. split; [exact (eq_trans Hs Hd) |]. apply Hid. lia.
Defined.

(** What decoding does to the immediate of a record *)
Lemma decode_imm i d imm :
  Decoder.decode (Some i) = Ok d → i_imm i = Some imm →
  (d_opcode d, d_type d, d_format d, d_index d, d_lineNum d, d_original d)
  = (i_opcode i, Decoder.opcodes (i_opcode i), i_format i, i_index i, i_lineNum i,
     i_original i) ∧
  match Decoder.opcodes (i_opcode i) with
  | F_R | F_HLT => d_imm d = None
  | F_I | F_IL | F_S | F_JALR =>
      d_imm d = Some (signedLow 12 imm) ∧ (-2048 <= imm <= 2047 → d_imm d = Some imm)
  | F_SB =>
      d_imm d = Some (signedLow 13 imm) ∧ (-4096 <= imm <= 4095 → d_imm d = Some imm)
  | F_UJ =>
      d_imm d = Some (signedLow 21 imm) ∧
      (-1048576 <= imm <= 1048575 → d_imm d = Some imm)
  | F_U => d_imm d = Some (JS.toInt32 (imm * 4096))
  end.
Proof.
  intros Hd Himm.
  destruct i as [op fmt idx ln orig rd rs1 rs2 oimm lbl]. cbn [i_imm] in Himm. subst oimm.
  assert (Hu : JS.shl (JS.band imm 1048575) 12 = JS.toInt32 (imm * 4096)).
  { change 1048575 with (Z.ones 20). rewrite band_low by lia.
    rewrite shl_mul by lia. apply toInt32_congr.
    change (2 ^ 12) with 4096. change (2 ^ 32) with (2 ^ 20 * 4096).
    rewrite !Z.mul_mod_distr_r by lia. by rewrite Z.mod_mod by lia. }
  revert Hd. unfold Decoder.decode. cbn [i_opcode i_format i_index i_lineNum i_original].
  destruct (Decoder.opcodes op) eqn:Hty;
    unfold Decoder.decodeRFormat, Decoder.decodeIFormat, Decoder.decodeLoadFormat,
      Decoder.decodeStoreFormat, Decoder.decodeBranchFormat, Decoder.decodeJALFormat,
      Decoder.decodeJALRFormat, Decoder.decodeUFormat, Decoder.copy_label;
    cbn [i_opcode i_rd i_rs1 i_rs2 i_imm i_label];
    intros Hd;
    repeat match type of Hd with
      | context [match ?o with Some _ => _ | None => _ end] =>
          destruct o; cbn [mbind Result_bind] in Hd
      | context [if ?b then _ else _] => destruct b eqn:?; cbn [mbind Result_bind] in Hd
      end;
    try discriminate; case_validate; try discriminate;
    injection Hd as <-; cbn; rewrite ?Hty, ?Hu;
    (split; [reflexivity |]); try reflexivity;
    rewrite signExtend_spec by lia; fold (signedLow 12 imm); fold (signedLow 13 imm);
    fold (signedLow 21 imm);
    (split; [reflexivity |]); intros Hr; f_equal; apply signedLow_id; lia.
Qed.

(** X9: what [decode] does to the immediate of a record.  The opcode,
    index, line number and text are copied and the type is the one of
    the opcode.  The immediate is cut to the 12, 13 or 21 low bits that
    the type has and read as signed, so an immediate the parser's range
    check lets through is kept as it is; for LUI and AUIPC it is moved
    up by 12 bits, modulo [2^32]. *)
Theorem X9_decode_immediate i d imm :
  Decoder.decode (Some i) = Ok d → i_imm i = Some imm →
  (d_opcode d, d_type d, d_format d, d_index d, d_lineNum d, d_original d)
  = (i_opcode i, Decoder.opcodes (i_opcode i), i_format i, i_index i, i_lineNum i,
     i_original i) ∧
  match Decoder.opcodes (i_opcode i) with
  | F_R | F_HLT => d_imm d = None
  | F_I | F_IL | F_S | F_JALR =>
      d_imm d = Some (signedLow 12 imm) ∧ (-2048 <= imm <= 2047 → d_imm d = Some imm)
  | F_SB =>
      d_imm d = Some (signedLow 13 imm) ∧ (-4096 <= imm <= 4095 → d_imm d = Some imm)
  | F_UJ =>
      d_imm d = Some (signedLow 21 imm) ∧
      (-1048576 <= imm <= 1048575 → d_imm d = Some imm)
  | F_U => d_imm d = Some (JS.toInt32 (imm * 4096))
  end.
Proof. exact (decode_imm i d imm). Qed.

Lemma X9_witness :
  d_imm (Decoder.with_imm (Decoder.signExtend 4096 13)
           (Decoder.with_rs2 0 (Decoder.with_rs1 0
              (Decoder.base (recordWith BEQ None (Some 0) (Some 0) (Some 4096))))))
  = Some (-4096).
Proof.
  destruct (X9_decode_immediate (recordWith BEQ None (Some 0) (Some 0) (Some 4096)) _ 4096
              eq_refl eq_refl) as [_ [H _]].
  exact H.
Defined.

Lemma formats_agree op : Parser.instructionFormats op = Decoder.opcodes op.
Proof. by destruct op. Qed.

(** Decoding a record that carries the operands of its format *)
Lemma decode_parsed r :
  parsedOperands r →
  match Decoder.decode (Some r) with
  | Ok d => d_opcode d = i_opcode r ∧ operands d
  | Throw e =>
      (e = ShiftAmountOutOfRange (i_opcode r) ∧
       Decoder.isShiftImmediate (i_opcode r) = true) ∨
      (e = BranchOffsetOdd (i_opcode r) ∧ isBranch (i_opcode r) = true) ∨
      (e = JumpOffsetOdd (i_opcode r) ∧ i_opcode r = JAL)
  | Undef => False
  end.
Proof.
  unfold parsedOperands. rewrite formats_agree.
  destruct (Decoder.decode (Some r)) as [d | e |] eqn:Hd.
  - intros _. by apply decode_operands.
  - revert Hd. unfold Decoder.decode.
    destruct r as [op fmt idx ln orig rd rs1 rs2 imm lbl]. cbn [i_opcode i_rd i_rs1 i_rs2 i_imm].
    destruct op; cbn [Decoder.opcodes isBranch Decoder.isShiftImmediate];
      unfold Decoder.decodeRFormat, Decoder.decodeIFormat, Decoder.decodeLoadFormat,
        Decoder.decodeStoreFormat, Decoder.decodeBranchFormat, Decoder.decodeJALFormat,
        Decoder.decodeJALRFormat, Decoder.decodeUFormat;
      cbn [i_opcode i_rd i_rs1 i_rs2 i_imm Decoder.isShiftImmediate];
      intros Hd Hop; split_operands;
      repeat match type of Hd with
        | context [if ?b then _ else _] => destruct b eqn:?; cbn [mbind Result_bind] in Hd
        end;
      case_validate; try discriminate; try lia;
      injection Hd as <-; auto.
  - revert Hd. unfold Decoder.decode.
    destruct r as [op fmt idx ln orig rd rs1 rs2 imm lbl]. cbn [i_opcode i_rd i_rs1 i_rs2 i_imm].
    destruct op; cbn [Decoder.opcodes];
      unfold Decoder.decodeRFormat, Decoder.decodeIFormat, Decoder.decodeLoadFormat,
        Decoder.decodeStoreFormat, Decoder.decodeBranchFormat, Decoder.decodeJALFormat,
        Decoder.decodeJALRFormat, Decoder.decodeUFormat;
      cbn [i_opcode i_rd i_rs1 i_rs2 i_imm Decoder.isShiftImmediate];
      intros Hd Hop; split_operands;
      repeat match type of Hd with
        | context [if ?b then _ else _] => destruct b eqn:?; cbn [mbind Result_bind] in Hd
        end;
      case_validate; discriminate.
Qed.

(** X10: a line the parser accepts is decoded into an instruction with
    all the operands of its opcode, with three exceptions, which are the
    only checks of the decoder a parsed record can fail: a shift amount
    outside 0..31, an odd branch offset, an odd JAL offset. *)
Theorem X10_parsed_line_decodes (labels : gmap string Z) line index lineNum r :
  Parser.parseInstruction labels line index lineNum = Ok r →
  match Decoder.decode (Some r) with
  | Ok d => d_opcode d = i_opcode r ∧ operands d
  | Throw e =>
      (e = ShiftAmountOutOfRange (i_opcode r) ∧
       Decoder.isShiftImmediate (i_opcode r) = true) ∨
      (e = BranchOffsetOdd (i_opcode r) ∧ isBranch (i_opcode r) = true) ∨
      (e = JumpOffsetOdd (i_opcode r) ∧ i_opcode r = JAL)
  | Undef => False
  end.
Proof.
  intros Hp. apply decode_parsed.
  by destruct (parseInstruction_fields _ _ _ _ _ Hp) as (_ & _ & _ & _ & ?).
Qed.

Lemma X10_witness :
  match Decoder.decode
          (Some (with_original "SLLI x1, x0, 40"
                   (recordWith SLLI (Some 1) (Some 0) None (Some 40)))) with
  | Ok d => d_opcode d = SLLI ∧ operands d
  | Throw e =>
      (e = ShiftAmountOutOfRange SLLI ∧ Decoder.isShiftImmediate SLLI = true) ∨
      (e = BranchOffsetOdd SLLI ∧ isBranch SLLI = true) ∨
      (e = JumpOffsetOdd SLLI ∧ SLLI = JAL)
  | Undef => False
  end.
Proof.
  exact (X10_parsed_line_decodes ∅ "SLLI x1, x0, 40"%string 0 1
           (with_original "SLLI x1, x0, 40"
              (recordWith SLLI (Some 1) (Some 0) None (Some 40))) eq_refl).
Defined.

(** ** The executor *)

(** *** Registers read back, shifts and comparisons *)

Lemma getRegister_setRegister st rd v :
  rd ≠ 0 → Executor.getRegister (Executor.setRegister st rd v) rd = Ok (JS.toInt32 v).
Proof.
  intros Hne. unfold Executor.getRegister, Executor.setRegister.
  destruct (Z.eqb_spec rd 0); [done |]. cbn [negb registers set_registers].
  rewrite get_set_eq. cbn [defined]. by rewrite bor_0.
Qed.

Lemma getRegister_setRegister_ne st rd v r :
  r ≠ rd → Executor.getRegister (Executor.setRegister st rd v) r = Executor.getRegister st r.
Proof.
  intros Hne. unfold Executor.getRegister, Executor.setRegister.
  destruct (Z.eqb_spec rd 0); cbn [negb]; [done |]. cbn [registers set_registers].
  destruct (r =? 0); [done |]. by rewrite get_set_ne.
Qed.

Lemma getRegister_set_pc st v r :
  Executor.getRegister (set_pc v st) r = Executor.getRegister st r.
Proof. reflexivity. Qed.

Lemma getRegister_set_memory st m r :
  Executor.getRegister (set_memory m st) r = Executor.getRegister st r.
Proof. reflexivity. Qed.

Ltac run_handler :=
  unfold Executor.execute; cbn [d_opcode Executor.handler];
  autounfold with handlers;
  cbn [d_rd d_rs1 d_rs2 d_imm d_shamt defined mbind Result_bind].

(** X11: SLL, SRL and SRA shift by the low five bits of [rs2]: with
    [a] in [rs1] and [b] in [rs2], [rd] receives [a * 2^(b mod 32)]
    wrapped to 32 bits, the unsigned reading of [a] divided by
    [2^(b mod 32)] and wrapped, and [a] divided by [2^(b mod 32)]
    rounding down.  The program counter advances by one and memory is
    unchanged. *)
Theorem X11_shift_by_register d st rd rs1 rs2 a b :
  d_rd d = Some rd → d_rs1 d = Some rs1 → d_rs2 d = Some rs2 →
  1 <= rd <= 31 →
  Executor.getRegister st rs1 = Ok a →
  Executor.getRegister st rs2 = Ok b →
  int32 a →
  d_opcode d = SLL ∨ d_opcode d = SRL ∨ d_opcode d = SRA →
  ∃ st', Executor.execute d st = Ok st' ∧
    pc st' = pc st + 1 ∧ memory st' = memory st ∧
    Executor.getRegister st' rd
    = Ok (match d_opcode d with
          | SLL => JS.toInt32 (a * 2 ^ (b mod 32))
          | SRL => JS.toInt32 ((a mod 2 ^ 32) / 2 ^ (b mod 32))
          | _ => a / 2 ^ (b mod 32)
          end).
Proof.
  intros Hrd Hrs1 Hrs2 Hr Ha Hb Hia Hop.
  destruct d as [op ty fmt idx ln orig ord ors1 ors2 imm shamt lbl].
  cbn [d_opcode d_rd d_rs1 d_rs2] in *. subst ord ors1 ors2.
  pose proof (Z.mod_pos_bound b 32 ltac:(lia)) as Hs.
  destruct Hop as [-> | [-> | ->]]; run_handler; rewrite Ha; cbn [mbind Result_bind];
    rewrite Hb; cbn [mbind Result_bind];
    (eexists; split; [reflexivity |]);
    (split; [unfold Executor.incrementPC; cbn [pc set_pc]; by rewrite pc_setRegister |]);
    (split; [unfold Executor.incrementPC; cbn [memory set_pc]; by rewrite memory_setRegister |]);
    unfold Executor.incrementPC; rewrite getRegister_set_pc, getRegister_setRegister by lia;
    f_equal; rewrite bor_0, band_31.
  - rewrite shl_mul by lia. by rewrite !toInt32_idem.
  - rewrite unsigned_mod, shr_div by lia. rewrite Z.mod_mod by lia. by rewrite toInt32_idem.
  - rewrite sar_div by lia. rewrite (toInt32_id a) by done.
    rewrite toInt32_idem. apply toInt32_id. apply int32_div_pow2; [done | lia].
Qed.

Lemma X11_witness :
  ∃ st', Executor.execute (decodedWith SRA (Some 3) (Some 1) (Some 2) None)
           (withX1X2 (-8) 33) = Ok st' ∧
         Executor.getRegister st' 3 = Ok (-4).
Proof.
  destruct (X11_shift_by_register (decodedWith SRA (Some 3) (Some 1) (Some 2) None)
              (withX1X2 (-8) 33) 3 1 2 (-8) 33 eq_refl eq_refl eq_refl
              ltac:(lia) eq_refl eq_refl ltac:(unfold int32; lia)
              (or_intror (or_intror eq_refl)))
    as (st' & He & _ & _ & Hr).
  exists st'. split; [exact He | exact Hr].
Defined.

Lemma shamtOf_decoded d imm :
  d_shamt d = Some imm → d_imm d = Some (Decoder.signExtend imm 12) →
  0 <= imm <= 31 → Executor.shamtOf d = imm.
Proof.
  intros Hs Hi Hr. unfold Executor.shamtOf. rewrite Hs, Hi.
  rewrite signExtend_id by lia.
  destruct (Z.eqb_spec imm 0) as [-> | _]; reflexivity.
Qed.

(** X12: SLLI, SRLI and SRAI, from the record on.  The decoder refuses
    an amount outside 0..31; otherwise the amount is kept as [shamt]
    and the instruction shifts [rs1] by it: left with wrap-around,
    right filling with zeros, right keeping the sign. *)
Theorem X12_shift_by_immediate i imm rd rs1 :
  Decoder.isShiftImmediate (i_opcode i) = true →
  i_rd i = Some rd → i_rs1 i = Some rs1 → i_imm i = Some imm →
  (imm < 0 ∨ 31 < imm →
   Decoder.decode (Some i) = Throw (ShiftAmountOutOfRange (i_opcode i))) ∧
  (∀ d, Decoder.decode (Some i) = Ok d →
     0 <= imm <= 31 ∧ d_shamt d = Some imm ∧
     ∀ st a, Executor.getRegister st rs1 = Ok a → int32 a → rd ≠ 0 →
       ∃ st', Executor.execute d st = Ok st' ∧
         pc st' = pc st + 1 ∧ memory st' = memory st ∧
         Executor.getRegister st' rd
         = Ok (match i_opcode i with
               | SLLI => JS.toInt32 (a * 2 ^ imm)
               | SRLI => JS.toInt32 ((a mod 2 ^ 32) / 2 ^ imm)
               | _ => a / 2 ^ imm
               end)).
Proof.
  intros Hop Hrd Hrs1 Himm.
  destruct i as [op fmt idx ln orig ord ors1 ors2 oimm lbl].
  cbn [i_opcode i_rd i_rs1 i_imm] in *. subst ord ors1 oimm.
  assert (Hty : Decoder.opcodes op = F_I) by (destruct op; try discriminate; reflexivity).
  unfold Decoder.decode. cbn [i_opcode]. rewrite Hty.
  unfold Decoder.decodeIFormat. cbn [i_opcode i_rd i_rs1 i_imm]. rewrite Hop.
  split.
  - intros Hout.
    destruct (Z.ltb_spec imm 0), (Z.ltb_spec 31 imm); cbn [orb]; try reflexivity; lia.
  - intros d.
    destruct (Z.ltb_spec imm 0), (Z.ltb_spec 31 imm); cbn [orb mbind Result_bind];
      try discriminate.
    case_validate; try discriminate. intros [= <-].
    split; [lia |]. split; [reflexivity |].
    intros st a Ha Hia Hne.
    destruct op; try discriminate; run_handler;
      cbn [Decoder.with_shamt Decoder.with_imm Decoder.with_rs1 Decoder.with_rd
           Decoder.base d_opcode d_rd d_rs1 i_opcode];
      run_handler; rewrite Ha; cbn [mbind Result_bind];
      (eexists; split; [reflexivity |]);
      (split; [unfold Executor.incrementPC; cbn [pc set_pc]; by rewrite pc_setRegister |]);
      (split; [unfold Executor.incrementPC; cbn [memory set_pc]; by rewrite memory_setRegister |]);
      unfold Executor.incrementPC; rewrite getRegister_set_pc, getRegister_setRegister by done;
      f_equal; rewrite bor_0;
      rewrite (shamtOf_decoded _ imm) by first [reflexivity | lia].
    + rewrite shl_mul by lia. by rewrite !toInt32_idem.
    + rewrite unsigned_mod, shr_div by lia. rewrite Z.mod_mod by lia. by rewrite toInt32_idem.
    + rewrite sar_div by lia. rewrite (toInt32_id a) by done.
      rewrite toInt32_idem. apply toInt32_id. apply int32_div_pow2; [done | lia].
Qed.

Lemma X12_witness :
  Decoder.decode (Some (recordWith SLLI (Some 1) (Some 2) None (Some 40)))
  = Throw (ShiftAmountOutOfRange SLLI).
Proof.
  apply (X12_shift_by_immediate (recordWith SLLI (Some 1) (Some 2) None (Some 40)) 40 1 2
           eq_refl eq_refl eq_refl eq_refl).
  right. lia.
Defined.

(** X13: SLT and SLTI write 1 when [rs1] is less than the second
    operand as integers and 0 otherwise; SLTU and SLTIU compare the two
    operands reduced modulo [2^32], so that -1 is the largest value. *)
Theorem X13_set_less_than d st rd rs1 a b :
  d_rd d = Some rd → d_rs1 d = Some rs1 → rd ≠ 0 →
  Executor.getRegister st rs1 = Ok a →
  ((d_opcode d = SLT ∨ d_opcode d = SLTU) ∧
   ∃ rs2, d_rs2 d = Some rs2 ∧ Executor.getRegister st rs2 = Ok b) ∨
  ((d_opcode d = SLTI ∨ d_opcode d = SLTIU) ∧ d_imm d = Some b) →
  ∃ st', Executor.execute d st = Ok st' ∧
    pc st' = pc st + 1 ∧ memory st' = memory st ∧
    Executor.getRegister st' rd
    = Ok (match d_opcode d with
          | SLTU | SLTIU => if a mod 2 ^ 32 <? b mod 2 ^ 32 then 1 else 0
          | _ => if a <? b then 1 else 0
          end).
Proof.
  intros Hrd Hrs1 Hne Ha Hop.
  destruct d as [op ty fmt idx ln orig ord ors1 ors2 imm shamt lbl].
  cbn [d_opcode d_rd d_rs1 d_rs2 d_imm] in *. subst ord ors1.
  destruct Hop as [[Hop (rs2 & -> & Hb)] | [Hop ->]];
    destruct Hop as [-> | ->]; run_handler; rewrite Ha; cbn [mbind Result_bind];
    rewrite ?Hb; cbn [mbind Result_bind];
    (eexists; split; [reflexivity |]);
    (split; [unfold Executor.incrementPC; cbn [pc set_pc]; by rewrite pc_setRegister |]);
    (split; [unfold Executor.incrementPC; cbn [memory set_pc]; by rewrite memory_setRegister |]);
    unfold Executor.incrementPC; rewrite getRegister_set_pc, getRegister_setRegister by done;
    f_equal; rewrite ?unsigned_mod; unfold Executor.b2z;
    match goal with |- context [if ?c then _ else _] => destruct c end; reflexivity.
Qed.

Lemma X13_witness :
  ∃ st', Executor.execute (decodedWith SLTU (Some 3) (Some 1) (Some 2) None)
           (withX1X2 (-1) 1) = Ok st' ∧
         Executor.getRegister st' 3 = Ok 0.
Proof.
  destruct (X13_set_less_than (decodedWith SLTU (Some 3) (Some 1) (Some 2) None)
              (withX1X2 (-1) 1) 3 1 (-1) 1 eq_refl eq_refl ltac:(lia) eq_refl
              (or_introl (conj (or_intror eq_refl)
                            (ex_intro _ 2 (conj eq_refl eq_refl)))))
    as (st' & He & _ & _ & Hr).
  exists st'. split; [exact He | exact Hr].
Defined.

(** *** Branches and jumps *)

(** What a branch does to a state *)
Lemma branch_effect d st rs1 rs2 imm a b :
  isBranch (d_opcode d) = true →
  d_rs1 d = Some rs1 → d_rs2 d = Some rs2 → d_imm d = Some imm →
  Executor.getRegister st rs1 = Ok a →
  Executor.getRegister st rs2 = Ok b →
  let taken :=
    match d_opcode d with
    | BEQ => a =? b
    | BNE => negb (a =? b)
    | BLT => a <? b
    | BGE => b <=? a
    | BLTU => a mod 2 ^ 32 <? b mod 2 ^ 32
    | _ => b mod 2 ^ 32 <=? a mod 2 ^ 32
    end in
  Executor.execute d st = Ok (set_pc (if taken then pc st + imm / 4 else pc st + 1) st).
Proof.
  intros Hop Hrs1 Hrs2 Himm Ha Hb.
  destruct d as [op ty fmt idx ln orig ord ors1 ors2 oimm shamt lbl].
  cbn [d_opcode d_rd d_rs1 d_rs2 d_imm] in *. subst ors1 ors2 oimm.
  destruct op; try discriminate Hop; cbv zeta; run_handler;
    rewrite Ha; cbn [mbind Result_bind]; rewrite Hb; cbn [mbind Result_bind];
    rewrite ?unsigned_mod, ?Z.geb_leb;
    match goal with |- context [if ?c then _ else _] => destruct c end;
    cbn [negb mbind Result_bind];
    unfold Executor.setPC, Executor.incrementPC, JS.floorDiv; rewrite ?orZero_id;
    reflexivity.
Qed.

(** X14: a branch changes the program counter and nothing else.  The
    comparison is on the register values for BEQ, BNE, BLT, BGE and on
    their unsigned readings for BLTU, BGEU; a taken branch adds the
    byte offset divided by 4, rounded down, to the program counter, an
    untaken one adds 1. *)
Theorem X14_branch_outcome d st rs1 rs2 imm a b :
  isBranch (d_opcode d) = true →
  d_rs1 d = Some rs1 → d_rs2 d = Some rs2 → d_imm d = Some imm →
  Executor.getRegister st rs1 = Ok a →
  Executor.getRegister st rs2 = Ok b →
  let taken :=
    match d_opcode d with
    | BEQ => a =? b
    | BNE => negb (a =? b)
    | BLT => a <? b
    | BGE => b <=? a
    | BLTU => a mod 2 ^ 32 <? b mod 2 ^ 32
    | _ => b mod 2 ^ 32 <=? a mod 2 ^ 32
    end in
  Executor.execute d st = Ok (set_pc (if taken then pc st + imm / 4 else pc st + 1) st).
Proof. exact (branch_effect d st rs1 rs2 imm a b). Qed.

Lemma X14_witness :
  Executor.execute (decodedWith BLT None (Some 1) (Some 2) (Some (-2))) (withX1X2 1 2)
  = Ok (set_pc (-1) (withX1X2 1 2)).
Proof.
  exact (X14_branch_outcome (decodedWith BLT None (Some 1) (Some 2) (Some (-2)))
           (withX1X2 1 2) 1 2 (-2) 1 2 eq_refl eq_refl eq_refl eq_refl eq_refl eq_refl).
Defined.

Lemma set_pc_same st : set_pc (pc st) st = st.
Proof. by destruct st. Qed.

(** A loop that does not leave its state never ends. *)
Lemma runLoop_fixed program st :
  Controller.running program st = true →
  Controller.executeNext program st = Ok st →
  ∀ fuel, Controller.runLoop fuel program st = None.
Proof.
  intros Hr He fuel. induction fuel as [| fuel IH]; cbn [Controller.runLoop]; rewrite Hr;
    [reflexivity |]. by rewrite He.
Qed.

(** The label copied into a decoded instruction changes no operand. *)
Lemma copy_label_fields i d :
  d_opcode (Decoder.copy_label i d) = d_opcode d ∧
  d_rs1 (Decoder.copy_label i d) = d_rs1 d ∧
  d_rs2 (Decoder.copy_label i d) = d_rs2 d ∧
  d_imm (Decoder.copy_label i d) = d_imm d.
Proof.
  unfold Decoder.copy_label.
  destruct (i_label i) as [l |]; [destruct (String.eqb l _) |]; by repeat split.
Qed.

(** X15: a BEQ of a register with itself whose offset is 0 or 2 is
    taken and moves the program counter by 0 slots, so the loop of Run
    never leaves it: no amount of fuel gives a result. *)
Theorem X15_branch_to_itself_never_ends program st i r imm :
  Controller.running program st = true →
  nth_instruction program (pc st) = Some i →
  i_opcode i = BEQ → i_rs1 i = Some r → i_rs2 i = Some r → i_imm i = Some imm →
  0 <= r <= 31 → regs32 st →
  imm = 0 ∨ imm = 2 →
  ∀ fuel, Controller.runLoop fuel program st = None.
Proof.
  intros Hrun Hi Hop H1 H2 Himm Hr Hst Hz.
  apply runLoop_fixed; [exact Hrun |].
  unfold Controller.executeNext. rewrite Hi.
  destruct (getRegister_defined st r Hst Hr) as [a Ha].
  destruct i as [op fmt idx ln orig ord ors1 ors2 oimm lbl].
  cbn [i_opcode i_rs1 i_rs2 i_imm] in *. subst op ors1 ors2 oimm.
  unfold Decoder.decode. cbn [i_opcode Decoder.opcodes].
  unfold Decoder.decodeBranchFormat. cbn [i_opcode i_rs1 i_rs2 i_imm].
  assert (Hs : Decoder.signExtend imm 13 = imm) by (destruct Hz as [-> | ->]; reflexivity).
  rewrite Hs.
  assert (Hev : negb (JS.rem imm 2 =? 0) = false) by (destruct Hz as [-> | ->]; reflexivity).
  rewrite Hev.
  destruct (validateRegister_Ok r "rs1") as [_ V1].
  destruct (validateRegister_Ok r "rs2") as [_ V2].
  rewrite (V1 Hr), (V2 Hr). cbn [mbind Result_bind].
  match goal with
  | |- Executor.execute (Decoder.copy_label ?i ?x) st = _ =>
      destruct (copy_label_fields i x) as (Hlo & Hl1 & Hl2 & Hli);
      rewrite (branch_effect _ st r r imm a a);
        rewrite ?Hlo, ?Hl1, ?Hl2, ?Hli; try reflexivity; try done
  end.
  cbv zeta. rewrite ?Hlo. cbn [d_opcode Decoder.with_imm Decoder.with_rs1 Decoder.with_rs2
                               Decoder.base i_opcode].
  rewrite Z.eqb_refl. replace (imm / 4) with 0 by (destruct Hz as [-> | ->]; reflexivity).
  rewrite Z.add_0_r. by rewrite set_pc_same.
Qed.

Lemma X15_witness :
  Controller.runLoop 1000 [recordWith BEQ None (Some 0) (Some 0) (Some 0)]
    Controller.initialState = None.
Proof.
  apply (X15_branch_to_itself_never_ends
           [recordWith BEQ None (Some 0) (Some 0) (Some 0)] Controller.initialState
           (recordWith BEQ None (Some 0) (Some 0) (Some 0)) 0 0
           eq_refl eq_refl eq_refl eq_refl eq_refl eq_refl ltac:(lia)
           regs32_initialState (or_introl eq_refl)).
Defined.

(** [x & ~1] clears bit 0, which a division by 4 does not see. *)
Lemma band_bnot1_div4 x : JS.band x (JS.bnot 1) / 4 = JS.toInt32 x / 4.
Proof.
  unfold JS.band, JS.bnot. change (JS.toInt32 (Z.lnot (JS.toInt32 1))) with (-2).
  set (w := JS.toInt32 x).
  assert (H : Z.land w (-2) = w - w mod 2).
  { change (-2) with (Z.lnot (Z.ones 1)). rewrite <- Z.ldiff_land, Z.ldiff_ones_r by lia.
    rewrite Z.shiftl_mul_pow2, Z.shiftr_div_pow2 by lia. change (2 ^ 1) with 2.
    pose proof (Z.div_mod w 2 ltac:(lia)). lia. }
  rewrite H.
  pose proof (Z.mod_pos_bound w 2 ltac:(lia)).
  pose proof (Z.div_mod w 4 ltac:(lia)).
  pose proof (Z.mod_pos_bound w 4 ltac:(lia)).
  symmetry. apply Z.div_unique with (r := w mod 4 - w mod 2); [| lia].
  left. assert (w mod 2 = (w mod 4) mod 2).
  { symmetry. apply (Z.mod_mod_divide w 4 2). exists 2. lia. }
  pose proof (Z.div_mod (w mod 4) 2 ltac:(lia)).
  pose proof (Z.mod_pos_bound (w mod 4) 2 ltac:(lia)).
  assert (0 <= w mod 4 / 2) by (apply Z.div_pos; lia).
  lia.
Qed.

Lemma jump_effect d st rd imm :
  d_rd d = Some rd → d_imm d = Some imm →
  (d_opcode d = JAL →
   ∃ st', Executor.execute d st = Ok st' ∧
     pc st' = pc st + imm / 4 ∧ memory st' = memory st ∧
     (rd ≠ 0 → Executor.getRegister st' rd = Ok (JS.toInt32 (pc st + 1)))) ∧
  (d_opcode d = JALR →
   ∀ rs1 a, d_rs1 d = Some rs1 → Executor.getRegister st rs1 = Ok a →
   ∃ st', Executor.execute d st = Ok st' ∧
     pc st' = (if a <? 1000 then a + imm / 4 else JS.toInt32 (a + imm) / 4) ∧
     memory st' = memory st ∧
     (rd ≠ 0 → Executor.getRegister st' rd = Ok (JS.toInt32 (pc st + 1)))).
Proof.
  intros Hrd Himm.
  destruct d as [op ty fmt idx ln orig ord ors1 ors2 oimm shamt lbl].
  cbn [d_opcode d_rd d_rs1 d_rs2 d_imm] in *. subst ord oimm.
  split.
  - intros ->. run_handler. eexists. split; [reflexivity |].
    unfold Executor.setPC, JS.floorDiv. rewrite orZero_id. cbn [pc memory set_pc].
    split; [reflexivity |]. split; [apply memory_setRegister |].
    intros Hne. by rewrite getRegister_set_pc, getRegister_setRegister.
  - intros -> rs1 a -> Ha. run_handler. rewrite Ha. cbn [mbind Result_bind].
    eexists. split; [reflexivity |].
    unfold Executor.setPC, JS.floorDiv. rewrite orZero_id. cbn [pc memory set_pc].
    split; [by rewrite band_bnot1_div4 |]. split; [apply memory_setRegister |].
    intros Hne. by rewrite getRegister_set_pc, getRegister_setRegister.
Qed.

(** X16: JAL moves the program counter by the byte offset divided by
    4 and JALR sets it from [rs1]: to [rs1 + imm / 4] when [rs1] is
    below 1000, read as an instruction index, and to [(rs1 + imm) / 4]
    otherwise, read as a byte address.  Both write the index of the
    next instruction to [rd] and leave memory unchanged. *)
Theorem X16_jump_and_link d st rd imm :
  d_rd d = Some rd → d_imm d = Some imm →
  (d_opcode d = JAL →
   ∃ st', Executor.execute d st = Ok st' ∧
     pc st' = pc st + imm / 4 ∧ memory st' = memory st ∧
     (rd ≠ 0 → Executor.getRegister st' rd = Ok (JS.toInt32 (pc st + 1)))) ∧
  (d_opcode d = JALR →
   ∀ rs1 a, d_rs1 d = Some rs1 → Executor.getRegister st rs1 = Ok a →
   ∃ st', Executor.execute d st = Ok st' ∧
     pc st' = (if a <? 1000 then a + imm / 4 else JS.toInt32 (a + imm) / 4) ∧
     memory st' = memory st ∧
     (rd ≠ 0 → Executor.getRegister st' rd = Ok (JS.toInt32 (pc st + 1)))).
Proof. exact (jump_effect d st rd imm). Qed.

Lemma X16_witness :
  ∃ st', Executor.execute (decodedWith JAL (Some 1) None None (Some 8))
           Controller.initialState = Ok st' ∧
         pc st' = 2.
Proof.
  destruct (proj1 (X16_jump_and_link (decodedWith JAL (Some 1) None None (Some 8))
                     Controller.initialState 1 8 eq_refl eq_refl) eq_refl)
    as (st' & He & Hp & _).
  exists st'. split; [exact He | exact Hp].
Defined.

(** X17: a call with JAL followed, in any state that still holds the
    link in [rd], by a return JALR through [rd] with offset 0: the
    return lands on the instruction after the call when that index is
    below 1000, and on a quarter of it otherwise, the link being an
    index that the return then reads as a byte address. *)
Theorem X17_call_then_return dCall dRet st rd off rdRet :
  d_opcode dCall = JAL → d_rd dCall = Some rd → d_imm dCall = Some off →
  1 <= rd <= 31 → 0 <= pc st < 2 ^ 31 - 1 →
  d_opcode dRet = JALR → d_rd dRet = Some rdRet → d_rs1 dRet = Some rd →
  d_imm dRet = Some 0 →
  ∃ st1, Executor.execute dCall st = Ok st1 ∧
    pc st1 = pc st + off / 4 ∧
    ∀ st2, Executor.getRegister st2 rd = Executor.getRegister st1 rd →
      ∃ st3, Executor.execute dRet st2 = Ok st3 ∧
        pc st3 = if pc st + 1 <? 1000 then pc st + 1 else (pc st + 1) / 4.
Proof.
  intros Hc Hrd Hoff Hr Hpc Hret Hz Hrs1 H0.
  destruct (jump_effect dCall st rd off Hrd Hoff) as [HJ _].
  destruct (HJ Hc) as (st1 & He & Hp & _ & Hlink).
  exists st1. split; [exact He |]. split; [exact Hp |].
  intros st2 Hsame. rewrite (Hlink ltac:(lia)) in Hsame.
  rewrite toInt32_id in Hsame by (unfold int32; lia).
  destruct (jump_effect dRet st2 rdRet 0 Hz H0) as [_ HR].
  destruct (HR Hret rd (pc st + 1) Hrs1 Hsame) as (st3 & He3 & Hp3 & _).
  exists st3. split; [exact He3 |]. rewrite Hp3.
  change (0 / 4) with 0. rewrite !Z.add_0_r.
  by rewrite toInt32_id by (unfold int32; lia).
Qed.

Lemma X17_witness :
  ∃ st1, Executor.execute (decodedWith JAL (Some 1) None None (Some 8))
           Controller.initialState = Ok st1 ∧
         pc st1 = 2.
Proof.
  destruct (X17_call_then_return (decodedWith JAL (Some 1) None None (Some 8))
              (decodedWith JALR (Some 0) (Some 1) None (Some 0))
              Controller.initialState 1 8 0 eq_refl eq_refl eq_refl ltac:(lia)
              ltac:(cbn; lia) eq_refl eq_refl eq_refl eq_refl)
    as (st1 & He & Hp & _).
  exists st1. split; [exact He | exact Hp].
Defined.

Lemma branch_pc d st st' imm :
  isBranch (d_opcode d) = true → d_imm d = Some imm →
  Executor.execute d st = Ok st' →
  pc st' = pc st + 1 ∨ pc st' = pc st + imm / 4.
Proof.
  destruct d as [op ty fmt idx ln orig rd rs1 rs2 oimm shamt lbl].
  cbn [d_opcode d_imm]. intros Hb -> H. unfold Executor.execute in H. cbn [d_opcode] in H.
  destruct op; try discriminate Hb; unfold_handler in H;
    cbn [d_rd d_rs1 d_rs2 d_imm defined] in H; invert_execute H;
    unfold Executor.incrementPC, Executor.setPC, JS.floorDiv; cbn [pc set_pc];
    rewrite ?orZero_id; auto.
Qed.

(** X18: how far a branch to a label reaches.  The parser turns the
    label into the byte offset [(target - index) * 4] without a range
    check and the decoder keeps 13 bits of it.  The branch leaves the
    program counter on the next instruction or on its destination; the
    destination is the label when the label is at most 1024 instructions
    behind or less than 1024 ahead, and 2048 instructions before the
    label when it is 1024 to 2047 instructions ahead. *)
Theorem X18_label_branch_reach (labels : gmap string Z) line index lineNum r name d st st' :
  Parser.parseInstruction labels line index lineNum = Ok r →
  isBranch (i_opcode r) = true → i_label r = Some name →
  Decoder.decode (Some r) = Ok d →
  pc st = index → Executor.execute d st = Ok st' →
  ∃ target, labels !! name = Some target ∧
    d_imm d = Some (signedLow 13 ((target - index) * 4)) ∧
    (-1024 <= target - index < 1024 → pc st' = index + 1 ∨ pc st' = target) ∧
    (1024 <= target - index < 2048 → pc st' = index + 1 ∨ pc st' = target - 2048).
Proof.
  intros Hp Hb Hl Hd Hpc He.
  destruct (parseInstruction_label labels line index lineNum r Hp) as [_ Hlab].
  destruct (Hlab name Hl) as (target & Ht & Himm).
  exists target. split; [exact Ht |].
  destruct (decode_imm r d _ Hd Himm) as [Hmeta Hi].
  assert (Hty : Decoder.opcodes (i_opcode r) = F_SB)
    by (destruct (i_opcode r); try discriminate Hb; reflexivity).
  rewrite Hty in Hi. destruct Hi as [Hi _]. split; [exact Hi |].
  assert (Hbd : isBranch (d_opcode d) = true) by (injection Hmeta as ->; done).
  destruct (branch_pc d st st' _ Hbd Hi He) as [Hn | Ht']; rewrite Hpc in *.
  - split; intros _; by left.
  - split; intros Hr; right; rewrite Ht'.
    + rewrite signedLow_id by lia. rewrite Z.div_mul by lia. lia.
    + unfold signedLow. cbv zeta.
      rewrite (Z.mod_small ((target - index) * 4)) by lia.
      destruct (Z.ltb_spec ((target - index) * 4) (2 ^ (13 - 1))); [lia |].
      replace ((target - index) * 4 - 2 ^ 13) with ((target - index - 2048) * 4) by lia.
      rewrite Z.div_mul by lia. lia.
Qed.

Lemma X18_witness :
  pc (set_pc (-1024) Controller.initialState) = 0 + 1 ∨
  pc (set_pc (-1024) Controller.initialState) = 1024 - 2048.
Proof.
  destruct (X18_label_branch_reach labelsFar "BEQ x0, x0, far"%string 0 1 _ "far"%string _
              Controller.initialState (set_pc (-1024) Controller.initialState)
              eq_refl eq_refl eq_refl eq_refl eq_refl eq_refl)
    as (target & Ht & _ & _ & Hfar).
  assert (target = 1024) as -> by (vm_compute in Ht; congruence).
  apply Hfar. lia.
Defined.

(** *** LUI and AUIPC *)

(** X19: LUI and AUIPC, from the record on: [rd] receives the
    immediate times 4096, for AUIPC added to four times the program
    counter, wrapped to 32 bits; the program counter advances by one. *)
Theorem X19_upper_immediate i d st rd imm :
  i_opcode i = LUI ∨ i_opcode i = AUIPC →
  i_rd i = Some rd → i_imm i = Some imm → rd ≠ 0 →
  Decoder.decode (Some i) = Ok d →
  ∃ st', Executor.execute d st = Ok st' ∧
    pc st' = pc st + 1 ∧ memory st' = memory st ∧
    Executor.getRegister st' rd
    = Ok (JS.toInt32 ((match i_opcode i with LUI => 0 | _ => pc st * 4 end)
                      + imm * 4096)).
Proof.
  intros Hop Hrd Himm Hne.
  destruct i as [op fmt idx ln orig ord ors1 ors2 oimm lbl].
  cbn [i_opcode i_rd i_imm] in *. subst ord oimm.
  assert (Hu : JS.toInt32 (JS.shl (JS.band imm 1048575) 12) = JS.toInt32 (imm * 4096)).
  { change 1048575 with (Z.ones 20). rewrite band_low by lia.
    rewrite shl_mul by lia. rewrite toInt32_idem. apply toInt32_congr.
    change (2 ^ 12) with 4096. change (2 ^ 32) with (2 ^ 20 * 4096).
    rewrite !Z.mul_mod_distr_r by lia. by rewrite Z.mod_mod by lia. }
  unfold Decoder.decode. cbn [i_opcode].
  destruct Hop as [-> | ->]; cbn [Decoder.opcodes]; unfold Decoder.decodeUFormat;
    cbn [i_rd i_imm]; case_validate; try discriminate; intros [= <-];
    run_handler; cbn [Decoder.with_imm Decoder.with_rd Decoder.base d_opcode d_rd
                      d_imm i_opcode]; run_handler;
    (eexists; split; [reflexivity |]);
    (split; [unfold Executor.incrementPC; cbn [pc set_pc]; by rewrite pc_setRegister |]);
    (split; [unfold Executor.incrementPC; cbn [memory set_pc]; by rewrite memory_setRegister |]);
    unfold Executor.incrementPC; rewrite getRegister_set_pc, getRegister_setRegister by done;
    f_equal.
  - by rewrite Hu.
  - rewrite bor_0, toInt32_idem, orZero_id.
    apply toInt32_congr.
    rewrite Z.add_mod, <- (toInt32_mod (JS.shl _ _)), Hu, toInt32_mod, <- Z.add_mod by lia.
    reflexivity.
Qed.

Lemma X19_witness :
  ∃ st', Executor.execute
           (Decoder.with_imm (-4096) (Decoder.with_rd 1
              (Decoder.base (recordWith LUI (Some 1) None None (Some (-1))))))
           Controller.initialState = Ok st' ∧
         Executor.getRegister st' 1 = Ok (-4096).
Proof.
  destruct (X19_upper_immediate (recordWith LUI (Some 1) None None (Some (-1))) _
              Controller.initialState 1 (-1) (or_introl eq_refl) eq_refl eq_refl
              ltac:(lia) eq_refl)
    as (st' & He & _ & _ & Hr).
  exists st'. split; [exact He | exact Hr].
Defined.

(** *** Loads and stores *)

Lemma lor_add_disjoint l h k :
  0 <= k → 0 <= l < 2 ^ k → Z.lor l (h * 2 ^ k) = l + h * 2 ^ k.
Proof.
  intros Hk Hl.
  assert (Hd : Z.land l (h * 2 ^ k) = 0).
  { apply Z.bits_inj'. intros n Hn. rewrite Z.land_spec, Z.bits_0.
    destruct (Z_lt_dec n k).
    - rewrite Z.mul_pow2_bits_low by lia. apply andb_false_r.
    - rewrite <- (Z.mod_small l (2 ^ k)) by lia.
      rewrite Z.mod_pow2_bits_high by lia. reflexivity. }
  rewrite Z.add_nocarry_lxor by exact Hd. symmetry. by apply Z.lxor_lor.
Qed.

Lemma bor_add_disjoint l h k :
  0 <= k → 0 <= l < 2 ^ k → int32 l → int32 (h * 2 ^ k) →
  JS.bor l (h * 2 ^ k) = l + h * 2 ^ k.
Proof.
  intros Hk Hl Hil Hih. unfold JS.bor. rewrite !toInt32_id by done.
  by apply lor_add_disjoint.
Qed.

(** The bytes of a 32-bit integer, least significant first *)
Lemma int32_bytes w :
  w = w mod 256 + (w / 256 mod 256) * 2 ^ 8 + (w / 65536 mod 256) * 2 ^ 16
      + (w / 16777216) * 2 ^ 24.
Proof.
  pose proof (Z.div_mod w 256 ltac:(lia)) as H0.
  pose proof (Z.div_mod (w / 256) 256 ltac:(lia)) as H1.
  pose proof (Z.div_mod (w / 65536) 256 ltac:(lia)) as H2.
  rewrite Z.div_div in H1 by lia. change (256 * 256) with 65536 in H1.
  rewrite Z.div_div in H2 by lia. change (65536 * 256) with 16777216 in H2.
  change (2 ^ 8) with 256. change (2 ^ 16) with 65536. change (2 ^ 24) with 16777216.
  lia.
Qed.

Lemma word_of_bytes w :
  int32 w →
  JS.bor (JS.bor (JS.bor (w mod 256) (JS.shl (w / 256 mod 256) 8))
            (JS.shl (w / 65536 mod 256) 16))
    (JS.shl (w / 16777216 mod 256) 24) = w.
Proof.
  intros Hw. unfold int32 in Hw.
  pose proof (Z.mod_pos_bound w 256 ltac:(lia)) as B0.
  pose proof (Z.mod_pos_bound (w / 256) 256 ltac:(lia)) as B1.
  pose proof (Z.mod_pos_bound (w / 65536) 256 ltac:(lia)) as B2.
  pose proof (Z.mod_pos_bound (w / 16777216) 256 ltac:(lia)) as B3.
  assert (Hh : -128 <= w / 16777216 < 128).
  { split; [apply Z.div_le_lower_bound | apply Z.div_lt_upper_bound]; lia. }
  rewrite !shl_mul by lia.
  rewrite (toInt32_id (_ * 2 ^ 8)) by (unfold int32; lia).
  rewrite (toInt32_id (_ * 2 ^ 16)) by (unfold int32; lia).
  assert (H3 : JS.toInt32 (w / 16777216 mod 256 * 2 ^ 24) = w / 16777216 * 2 ^ 24).
  { rewrite <- (toInt32_id (w / 16777216 * 2 ^ 24)) by (unfold int32; lia).
    apply toInt32_congr. change (2 ^ 32) with (256 * 2 ^ 24).
    rewrite !Z.mul_mod_distr_r by lia. by rewrite Z.mod_mod by lia. }
  rewrite H3.
  rewrite (bor_add_disjoint (w mod 256)) by (unfold int32; lia).
  rewrite (bor_add_disjoint (w mod 256 + _)) by (unfold int32; lia).
  rewrite (bor_add_disjoint (w mod 256 + _ + _)) by (unfold int32; lia).
  symmetry. apply int32_bytes.
Qed.

Lemma sar_div_const v s : 0 <= s <= 31 → JS.band (JS.sar v s) 255 = JS.toInt32 v / 2 ^ s mod 256.
Proof. intros Hs. by rewrite band_255, sar_div. Qed.

Ltac read_bytes :=
  unfold Executor.readByte, Executor.readByteUnsigned, Executor.readHalfWord,
    Executor.readHalfWordUnsigned, Executor.readWord,
    Executor.writeByte, Executor.writeHalfWord, Executor.writeWord;
  cbn [memory set_memory]; rewrite !getOr0_set, ?orZero_id;
  repeat (case_decide; try lia).

Lemma readWord_writeWord st a v :
  Executor.readWord (Executor.writeWord st a v) a = JS.toInt32 v.
Proof.
  read_bytes.
  rewrite band_255, !sar_div_const by lia.
  replace (v mod 256) with (JS.toInt32 v mod 256)
    by (apply (toInt32_mod_pow2 v 8); lia).
  change (2 ^ 8) with 256. change (2 ^ 16) with 65536. change (2 ^ 24) with 16777216.
  apply word_of_bytes, toInt32_range.
Qed.

(** Little-endian: byte [k] of the word is at [a + k]. *)
Lemma readByteUnsigned_writeWord st a v k :
  0 <= k <= 3 →
  Executor.readByteUnsigned (Executor.writeWord st a v) (a + k)
  = JS.toInt32 v / 2 ^ (8 * k) mod 256.
Proof.
  intros Hk.
  assert (Hc : k = 0 ∨ k = 1 ∨ k = 2 ∨ k = 3) by lia.
  destruct Hc as [-> | [-> | [-> | ->]]]; read_bytes;
    rewrite ?sar_div_const, ?band_255 by lia; try reflexivity.
  change (2 ^ (8 * 0)) with 1. rewrite Z.div_1_r.
  symmetry. apply (toInt32_mod_pow2 v 8). lia.
Qed.

Lemma half_of_bytes u :
  0 <= u < 65536 → JS.bor (u mod 256) (JS.shl (u / 256 mod 256) 8) = u.
Proof.
  intros Hu.
  pose proof (Z.mod_pos_bound u 256 ltac:(lia)) as B0.
  pose proof (Z.mod_pos_bound (u / 256) 256 ltac:(lia)) as B1.
  rewrite shl_mul by lia.
  rewrite (toInt32_id (_ * 2 ^ 8)) by (unfold int32; lia).
  rewrite (bor_add_disjoint (u mod 256)) by (unfold int32; lia).
  assert (0 <= u / 256 < 256).
  { split; [apply Z.div_pos | apply Z.div_lt_upper_bound]; lia. }
  rewrite (Z.mod_small (u / 256)) by lia.
  pose proof (Z.div_mod u 256 ltac:(lia)). change (2 ^ 8) with 256. lia.
Qed.

(** What a half-word store leaves, read as a half-word: the low 16
    bits of the value stored. *)
Lemma readHalfWordUnsigned_writeHalfWord st a v :
  Executor.readHalfWordUnsigned (Executor.writeHalfWord st a (JS.band v 65535)) a
  = v mod 65536.
Proof.
  read_bytes. rewrite sar_div_const, !band_255, band_65535 by lia.
  pose proof (Z.mod_pos_bound v 65536 ltac:(lia)) as Hu.
  rewrite (toInt32_id (v mod 65536)) by (unfold int32; lia).
  change (2 ^ 8) with 256. by apply half_of_bytes.
Qed.

Lemma readHalfWord_writeHalfWord st a v :
  Executor.readHalfWord (Executor.writeHalfWord st a (JS.band v 65535)) a
  = signedLow 16 v.
Proof.
  unfold Executor.readHalfWord. rewrite readHalfWordUnsigned_writeHalfWord.
  unfold signedLow. cbv zeta. change (2 ^ 16) with 65536. change (2 ^ (16 - 1)) with 32768.
  destruct (Z.ltb_spec 32767 (v mod 65536)), (Z.ltb_spec (v mod 65536) 32768);
    try reflexivity; lia.
Qed.

Lemma readByteUnsigned_writeByte st a v :
  Executor.readByteUnsigned (Executor.writeByte st a (JS.band v 255)) a = v mod 256.
Proof.
  read_bytes. rewrite !band_255. apply Z.mod_mod. lia.
Qed.

Lemma readByte_writeByte st a v :
  Executor.readByte (Executor.writeByte st a (JS.band v 255)) a = signedLow 8 v.
Proof.
  pose proof (readByteUnsigned_writeByte st a v) as H.
  unfold Executor.readByte, Executor.readByteUnsigned in *. rewrite H.
  unfold signedLow. cbv zeta. change (2 ^ 8) with 256. change (2 ^ (8 - 1)) with 128.
  destruct (Z.ltb_spec 127 (v mod 256)), (Z.ltb_spec (v mod 256) 128);
    try reflexivity; lia.
Qed.

Lemma getRegister_memory st1 st2 r :
  registers st1 = registers st2 → Executor.getRegister st1 r = Executor.getRegister st2 r.
Proof. unfold Executor.getRegister. by intros ->. Qed.

(** X20: a store followed by the load of the same width at the same
    address gives back what the width keeps of the stored register: the
    word for SW/LW, the low 16 or 8 bits read as signed for SH/LH and
    SB/LB, and read as unsigned for SH/LHU and SB/LBU.  This holds at
    every address, the executor checking none. *)
Theorem X20_store_then_load dS dL st rbS src oS rbL oL rd baseS baseL v :
  d_rs1 dS = Some rbS → d_rs2 dS = Some src → d_imm dS = Some oS →
  d_rd dL = Some rd → d_rs1 dL = Some rbL → d_imm dL = Some oL → rd ≠ 0 →
  Executor.getRegister st rbS = Ok baseS →
  Executor.getRegister st src = Ok v →
  Executor.getRegister st rbL = Ok baseL →
  JS.toInt32 (baseL + oL) = JS.toInt32 (baseS + oS) →
  ∀ loaded,
    match d_opcode dS, d_opcode dL with
    | SW, LW => Some (JS.toInt32 v)
    | SH, LH => Some (signedLow 16 v)
    | SH, LHU => Some (v mod 2 ^ 16)
    | SB, LB => Some (signedLow 8 v)
    | SB, LBU => Some (v mod 2 ^ 8)
    | _, _ => None
    end = Some loaded →
    ∃ st1 st2,
      Executor.execute dS st = Ok st1 ∧ registers st1 = registers st ∧
      Executor.execute dL st1 = Ok st2 ∧ pc st2 = pc st + 2 ∧
      Executor.getRegister st2 rd = Ok loaded.
Proof.
  intros HS1 HS2 HSi HLd HL1 HLi Hne Hb Hv HbL Haddr loaded Hpair.
  destruct dS as [opS tyS fmtS idxS lnS origS rdS rs1S rs2S immS shS lblS].
  destruct dL as [opL tyL fmtL idxL lnL origL rdL rs1L rs2L immL shL lblL].
  cbn [d_opcode d_rd d_rs1 d_rs2 d_imm] in *. subst rs1S rs2S immS rdL rs1L immL.
  destruct opS; try discriminate Hpair; destruct opL; try discriminate Hpair;
    injection Hpair as <-;
    run_handler; rewrite Hb; cbn [mbind Result_bind]; rewrite Hv;
    cbn [mbind Result_bind];
    (eexists; eexists; split; [reflexivity |]); (split; [reflexivity |]);
    match goal with
    | |- context [Executor.getRegister ?s rbL] =>
        change (Executor.getRegister s rbL) with (Executor.getRegister st rbL);
        rewrite HbL
    end; cbn [mbind Result_bind];
    (split; [reflexivity |]);
    (split; [unfold Executor.incrementPC; cbn [pc set_pc]; rewrite pc_setRegister;
             cbn [pc set_pc Executor.writeByte Executor.writeHalfWord
                  Executor.writeWord set_memory]; lia |]);
    unfold Executor.incrementPC; rewrite getRegister_set_pc, getRegister_setRegister by done;
    f_equal; rewrite !bor_0, Haddr.
  all: match goal with
       | |- context [set_pc ?x ?s] =>
           change (Executor.readByte (set_pc x s)) with (Executor.readByte s);
           change (Executor.readByteUnsigned (set_pc x s))
             with (Executor.readByteUnsigned s);
           change (Executor.readHalfWord (set_pc x s)) with (Executor.readHalfWord s);
           change (Executor.readHalfWordUnsigned (set_pc x s))
             with (Executor.readHalfWordUnsigned s);
           change (Executor.readWord (set_pc x s)) with (Executor.readWord s)
       end.
  - rewrite readByte_writeByte. apply toInt32_id, signedLow_int32. lia.
  - rewrite readByteUnsigned_writeByte. apply toInt32_id.
    pose proof (Z.mod_pos_bound v 256 ltac:(lia)). unfold int32.
    change (2 ^ 8) with 256. lia.
  - rewrite readHalfWord_writeHalfWord. apply toInt32_id, signedLow_int32. lia.
  - rewrite readHalfWordUnsigned_writeHalfWord. apply toInt32_id.
    pose proof (Z.mod_pos_bound v 65536 ltac:(lia)). unfold int32.
    change (2 ^ 16) with 65536. lia.
  - rewrite readWord_writeWord. apply toInt32_idem.
Qed.

Lemma X20_witness :
  ∃ st1 st2,
    Executor.execute (decodedWith SH None (Some 0) (Some 1) (Some 10))
      (withX1X2 65535 0) = Ok st1 ∧
    Executor.execute (decodedWith LH (Some 2) (Some 0) None (Some 10)) st1 = Ok st2 ∧
    Executor.getRegister st2 2 = Ok (-1).
Proof.
  destruct (X20_store_then_load (decodedWith SH None (Some 0) (Some 1) (Some 10))
              (decodedWith LH (Some 2) (Some 0) None (Some 10)) (withX1X2 65535 0)
              0 1 10 0 10 2 0 0 65535 eq_refl eq_refl eq_refl eq_refl eq_refl eq_refl
              ltac:(lia) eq_refl eq_refl eq_refl eq_refl (-1) eq_refl)
    as (st1 & st2 & H1 & _ & H2 & _ & Hr).
  exists st1, st2. split; [exact H1 |]. split; [exact H2 | exact Hr].
Defined.

(** X21: memory is little-endian at the level of instructions: after
    SW of [v] at an address, LBU at that address plus [k], for [k] from
    0 to 3, loads byte [k] of [v], counted from the least significant. *)
Theorem X21_word_store_is_little_endian dS dL st rbS src oS rbL oL rd baseS baseL v k :
  d_opcode dS = SW → d_rs1 dS = Some rbS → d_rs2 dS = Some src → d_imm dS = Some oS →
  d_opcode dL = LBU → d_rd dL = Some rd → d_rs1 dL = Some rbL → d_imm dL = Some oL →
  rd ≠ 0 →
  Executor.getRegister st rbS = Ok baseS →
  Executor.getRegister st src = Ok v →
  Executor.getRegister st rbL = Ok baseL →
  0 <= k <= 3 →
  JS.toInt32 (baseL + oL) = JS.toInt32 (baseS + oS) + k →
  ∃ st1 st2,
    Executor.execute dS st = Ok st1 ∧ Executor.execute dL st1 = Ok st2 ∧
    Executor.getRegister st2 rd = Ok (JS.toInt32 v / 2 ^ (8 * k) mod 256).
Proof.
  intros HSo HS1 HS2 HSi HLo HLd HL1 HLi Hne Hb Hv HbL Hk Haddr.
  destruct dS as [opS tyS fmtS idxS lnS origS rdS rs1S rs2S immS shS lblS].
  destruct dL as [opL tyL fmtL idxL lnL origL rdL rs1L rs2L immL shL lblL].
  cbn [d_opcode d_rd d_rs1 d_rs2 d_imm] in *. subst.
  run_handler. rewrite Hb. cbn [mbind Result_bind]. rewrite Hv. cbn [mbind Result_bind].
  eexists. eexists. split; [reflexivity |].
  match goal with
  | |- context [Executor.getRegister ?s rbL] =>
      change (Executor.getRegister s rbL) with (Executor.getRegister st rbL);
      rewrite HbL
  end. cbn [mbind Result_bind]. split; [reflexivity |].
  unfold Executor.incrementPC. rewrite getRegister_set_pc, getRegister_setRegister by done.
  f_equal. rewrite !bor_0, Haddr.
  match goal with
  | |- context [set_pc ?x ?s] =>
      change (Executor.readByteUnsigned (set_pc x s)) with (Executor.readByteUnsigned s)
  end.
  rewrite readByteUnsigned_writeWord by done.
  apply toInt32_id. pose proof (Z.mod_pos_bound (JS.toInt32 v / 2 ^ (8 * k)) 256 ltac:(lia)).
  unfold int32. lia.
Qed.

Lemma X21_witness :
  ∃ st1 st2,
    Executor.execute (decodedWith SW None (Some 0) (Some 1) (Some 100))
      (withX1X2 16909060 0) = Ok st1 ∧
    Executor.execute (decodedWith LBU (Some 2) (Some 0) None (Some 101)) st1 = Ok st2 ∧
    Executor.getRegister st2 2 = Ok 3.
Proof.
  destruct (X21_word_store_is_little_endian
              (decodedWith SW None (Some 0) (Some 1) (Some 100))
              (decodedWith LBU (Some 2) (Some 0) None (Some 101)) (withX1X2 16909060 0)
              0 1 100 0 101 2 0 0 16909060 1 eq_refl eq_refl eq_refl eq_refl eq_refl
              eq_refl eq_refl eq_refl ltac:(lia) eq_refl eq_refl eq_refl ltac:(lia)
              eq_refl)
    as (st1 & st2 & H1 & H2 & Hr).
  exists st1, st2. split; [exact H1 |]. split; [exact H2 | exact Hr].
Defined.

(** *** What an instruction leaves alone *)

(** What an instruction leaves alone *)
Lemma execute_keeps d st st' :
  Executor.execute d st = Ok st' →
  instructions st' = instructions st ∧
  halted st' = (halted st || bool_decide (d_opcode d = HLT)) ∧
  (Decoder.opcodes (d_opcode d) ≠ F_S → memory st' = memory st) ∧
  (hasRd (d_opcode d) = false → registers st' = registers st) ∧
  (d_opcode d = HLT → pc st' = pc st).
Proof.
  destruct d as [op ty fmt idx ln orig rd rs1 rs2 imm shamt lbl].
  intros H. unfold Executor.execute in H. cbn [d_opcode] in H.
  destruct op; unfold_handler in H; cbn [d_rd d_rs1 d_rs2 d_imm] in H;
    invert_execute H;
    cbn [d_opcode Decoder.opcodes hasRd];
    unfold Executor.incrementPC, Executor.setPC, Executor.halt,
      Executor.writeByte, Executor.writeHalfWord, Executor.writeWord;
    cbn [registers memory pc instructions halted
         set_registers set_memory set_pc set_halted];
    rewrite ?instructions_setRegister, ?halted_setRegister, ?memory_setRegister,
      ?pc_setRegister;
    (split; [reflexivity |]);
    (split; [by rewrite ?orb_false_r, ?orb_true_r |]);
    (split; [first [done | intros _; reflexivity] |]);
    (split; [first [done | intros _; reflexivity] | first [done | intros _; reflexivity]]).
Qed.

(** X22: what an instruction leaves alone.  No instruction changes the
    program; only HLT sets the halted flag, and it leaves the program
    counter where it is; only stores change memory; branches, stores and
    HLT change no register. *)
Theorem X22_execute_frame d st st' :
  Executor.execute d st = Ok st' →
  instructions st' = instructions st ∧
  halted st' = (halted st || bool_decide (d_opcode d = HLT)) ∧
  (Decoder.opcodes (d_opcode d) ≠ F_S → memory st' = memory st) ∧
  (hasRd (d_opcode d) = false → registers st' = registers st) ∧
  (d_opcode d = HLT → pc st' = pc st).
Proof. exact (execute_keeps d st st'). Qed.

Lemma X22_witness :
  instructions (Executor.halt Controller.initialState)
  = instructions Controller.initialState ∧
  halted (Executor.halt Controller.initialState) = true ∧
  pc (Executor.halt Controller.initialState) = pc Controller.initialState.
Proof.
  destruct (X22_execute_frame (Decoder.base hltRecord) Controller.initialState
              (Executor.halt Controller.initialState) eq_refl)
    as (Hi & Hh & _ & _ & Hp).
  split; [exact Hi |]. split; [exact Hh | exact (Hp eq_refl)].
Defined.

(** ** The controller *)

(** What holds before a loop and is kept by every instruction it
    executes holds of the state the loop ends on, however it ends. *)
Lemma runLoop_invariant (P : State → Prop) program :
  (∀ st d st', P st → Controller.running program st = true →
     Decoder.decode (nth_instruction program (pc st)) = Ok d →
     Executor.execute d st = Ok st' → P st') →
  ∀ fuel st sf r, P st → Controller.runLoop fuel program st = Some (sf, r) →
    P sf ∧
    match r with
    | Ok _ => Controller.running program sf = false
    | failed =>
        Controller.running program sf = true ∧
        Controller.executeNext program sf
        = match failed with Ok _ => Undef | Throw e => Throw e | Undef => Undef end
    end.
Proof.
  intros Hstep. induction fuel as [| fuel IH]; intros st sf r HP;
    cbn [Controller.runLoop]; destruct (Controller.running program st) eqn:Hrun;
    try discriminate.
  - by intros [= <- <-].
  - destruct (Controller.executeNext program st) as [st' | e |] eqn:He.
    + apply IH. unfold Controller.executeNext in He.
      destruct (Decoder.decode _) as [d | |] eqn:Hd; try discriminate.
      cbn [mbind Result_bind] in He. by apply (Hstep st d st').
    + by intros [= <- <-].
    + by intros [= <- <-].
  - by intros [= <- <-].
Qed.

Lemma regs32_execute d st st' :
  Executor.execute d st = Ok st' → regs32 st → regs32 st'.
Proof.
  intros He Hst r Hr.
  destruct (execute_registers d st st' He) as [-> | (rd & v & _ & _ & _ & ->)];
    [by apply Hst |].
  rewrite get_set. case_decide; [by eexists | by apply Hst].
Qed.

Lemma nth_instruction_Some program i k :
  nth_instruction program k = Some i → ∃ n : nat, k = Z.of_nat n ∧ program !! n = Some i.
Proof.
  unfold nth_instruction. destruct (Z.ltb_spec k 0) as [| Hk]; [discriminate |].
  intros Hi. exists (Z.to_nat k). split; [lia | done].
Qed.

Lemma nth_instruction_None program k :
  nth_instruction program k = None → k < 0 ∨ Z.of_nat (length program) <= k.
Proof.
  unfold nth_instruction. destruct (Z.ltb_spec k 0) as [| Hk]; [by left |].
  intros Hi. apply lookup_ge_None in Hi. right. lia.
Qed.

(** X23: the answers of Run.  A successful answer is the snapshot of
    the state the server is left with.  A failure is a failure of
    [parse] with its line number (one of the parser's own errors or,
    when the source has a label named [hasOwnProperty], the [TypeError]
    of calling that name on the label table), a refusal of the decoder
    (shift amount, odd branch or jump offset), or the decoder's
    missing-opcode error raised when a backward jump has taken the
    program counter below 0; the executor itself never fails on a
    parsed program. *)
Theorem X23_run_errors code fuel server response :
  Controller.executeProgram fuel code = Some (server, response) →
  match response with
  | Ok snap => snap = Controller.snapshot server
  | Throw e =>
      (∃ n cause, e = AtLine n cause ∧
         (syntaxError cause = true ∨
          (cause = TypeErrorHasOwnProperty ∧
           is_Some (Parser.labelsOf code !! "hasOwnProperty"%string)))) ∨
      (e = MissingOpcode ∧ pc server < 0) ∨
      (∃ op, e = ShiftAmountOutOfRange op ∨ e = BranchOffsetOdd op ∨ e = JumpOffsetOdd op)
  | Undef => False
  end.
Proof.
  unfold Controller.executeProgram.
  pose proof (parse_error_line code) as Hperr.
  destruct (Parser.parse code) as [program | e |] eqn:Hparse; [| | done].
  2: { intros [= <- <-]. destruct Hperr as (n & cause & -> & _ & Hc). left. by exists n, cause. }
  destruct (parse_ok_records code program Hparse) as (_ & Hrec & _).
  set (s0 := set_instructions (Some program) Controller.initialState).
  destruct (Controller.runLoop fuel program s0) as [[sf r] |] eqn:Hloop; [| discriminate].
  destruct (runLoop_invariant regs32 program
              (λ st d st' H _ _ He, regs32_execute d st st' He H)
              fuel s0 sf r regs32_initialState Hloop) as [Hsf Hr].
  assert (Hnext : ∀ e',
            Controller.running program sf = true →
            Controller.executeNext program sf
              = match e' with Some e => Throw e | None => Undef end →
            match e' with
            | Some e =>
                (e = MissingOpcode ∧ pc sf < 0) ∨
                (∃ op, e = ShiftAmountOutOfRange op ∨ e = BranchOffsetOdd op
                       ∨ e = JumpOffsetOdd op)
            | None => False
            end).
  { intros e' Hrun He. unfold Controller.executeNext in He.
    destruct (nth_instruction program (pc sf)) as [i |] eqn:Hi.
    - destruct (nth_instruction_Some _ _ _ Hi) as (n & Hn & Hlook).
      destruct (Hrec n i Hlook) as (_ & _ & _ & Hop).
      pose proof (decode_parsed i Hop) as Hd.
      destruct (Decoder.decode (Some i)) as [d | e |]; cbn [mbind Result_bind] in He.
      + destruct Hd as [_ Hd].
        destruct (execute_defined d sf Hd Hsf) as [st' He'].
        rewrite He' in He. by destruct e'.
      + destruct e' as [e0 |]; [| discriminate]. injection He as <-. right.
        destruct Hd as [[-> _] | [[-> _] | [-> _]]]; eexists; eauto.
      + done.
    - cbn [Decoder.decode mbind Result_bind] in He.
      destruct e' as [e0 |]; [| discriminate]. injection He as <-. left.
      split; [done |].
      destruct (nth_instruction_None _ _ Hi) as [? | Hge]; [done |].
      unfold Controller.running in Hrun.
      destruct (Z.ltb_spec (pc sf) (Z.of_nat (length program))); [lia |].
      by rewrite andb_false_r in Hrun. }
  destruct r as [[] | e |]; intros [= <- <-].
  - reflexivity.
  - right. destruct Hr as [Hrun He]. exact (Hnext (Some e) Hrun He).
  - destruct Hr as [Hrun He]. exact (Hnext None Hrun He).
Qed.

Lemma X23_witness :
  match Controller.executeProgram 1 "SLLI x1, x0, 40" with
  | Some (server, Throw e) =>
      (∃ n cause, e = AtLine n cause ∧
         (syntaxError cause = true ∨
          (cause = TypeErrorHasOwnProperty ∧
           is_Some (Parser.labelsOf "SLLI x1, x0, 40" !! "hasOwnProperty"%string)))) ∨
      (e = MissingOpcode ∧ pc server < 0) ∨
      (∃ op, e = ShiftAmountOutOfRange op ∨ e = BranchOffsetOdd op ∨ e = JumpOffsetOdd op)
  | Some (_, Undef) => False
  | _ => True
  end.
Proof.
  destruct (Controller.executeProgram 1 "SLLI x1, x0, 40")
    as [[server [snap | e |]] |] eqn:E; try exact I.
  - exact (X23_run_errors _ _ _ _ E).
  - exact (X23_run_errors _ _ _ _ E).
Defined.

Lemma band_255_byte v : 0 <= JS.band v 255 <= 255.
Proof. rewrite band_255. pose proof (Z.mod_pos_bound v 256 ltac:(lia)). lia. Qed.

Lemma storeWrites_bytes d st : Forall byteWrite (storeWrites d st).
Proof.
  unfold storeWrites.
  destruct (d_rs1 d) as [rs1 |], (d_rs2 d) as [rs2 |], (d_imm d) as [imm |];
    try by apply Forall_nil.
  destruct (Executor.getRegister st rs1), (Executor.getRegister st rs2);
    try by apply Forall_nil.
  destruct (d_opcode d); try by apply Forall_nil.
  all: repeat constructor; unfold byteWrite; cbn [snd]; apply band_255_byte.
Qed.

Lemma writeAll_shape ws : ∀ m,
  Forall byteWrite ws →
  1024 <= len m →
  (∀ a, 0 <= a < 1024 → is_Some (Arr.get m a)) →
  (∀ a b, Arr.get m a = Some b → 0 <= b <= 255) →
  1024 <= len (writeAll ws m) ∧
  (∀ a, 0 <= a < 1024 → is_Some (Arr.get (writeAll ws m) a)) ∧
  (∀ a b, Arr.get (writeAll ws m) a = Some b → 0 <= b <= 255).
Proof.
  induction ws as [| [x v] ws IH]; intros m Hws Hlen Hdef Hbyte; [done |].
  inversion Hws as [| ? ? Hv Hrest]; subst. unfold byteWrite in Hv. cbn [snd] in Hv.
  unfold writeAll. cbn [foldl fst snd]. apply IH; [exact Hrest | | |].
  - rewrite len_set. destruct (0 <=? x); lia.
  - intros a Ha. rewrite get_set. case_decide; [by eexists | by apply Hdef].
  - intros a b. rewrite get_set. case_decide; [by intros [= <-] | apply Hbyte].
Qed.

Lemma wellFormed_execute d st st' :
  operands d → Executor.execute d st = Ok st' → wellFormed st → wellFormed st'.
Proof.
  intros Hop He (Hlen & Hclean & Hregs & H0 & Hmlen & Hmdef & Hmbyte).
  assert (Hmem : memory st' = writeAll (storeWrites d st) (memory st)).
  { destruct st as [regs mr pc0 lr h].
    by destruct (execute_congr d regs mr mr pc0 lr lr h st' (λ _, eq_refl) He). }
  destruct (writeAll_shape (storeWrites d st) (memory st) (storeWrites_bytes d st)
              Hmlen Hmdef Hmbyte) as (M1 & M2 & M3).
  rewrite <- Hmem in M1, M2, M3. unfold wellFormed.
  destruct (execute_registers d st st' He) as [Hr | (rd & v & Hrd & Hne & Hh & Hr)].
  - rewrite Hr. split; [exact Hlen |]. split; [exact Hclean |]. split; [exact Hregs |].
    split; [exact H0 |]. split; [exact M1 |]. split; [exact M2 | exact M3].
  - pose proof (regOk_rd d rd Hop Hh Hrd) as Hrange.
    rewrite Hr. split; [| split; [| split; [| split]]];
      [| | | | split; [exact M1 |]; split; [exact M2 | exact M3]].
    + rewrite len_set. destruct (Z.leb_spec 0 rd); lia.
    + apply toJSON_set; [exact Hclean | lia].
    + intros r Hrr. rewrite get_set. case_decide; [| by apply Hregs].
      eexists. split; [reflexivity |]. rewrite bor_0. apply toInt32_range.
    + by rewrite get_set_ne.
Qed.

Lemma wellFormed_initial program :
  wellFormed (set_instructions (Some program) Controller.initialState).
Proof.
  unfold wellFormed, Arr.get.
  cbn [set_instructions registers memory Controller.initialState Arr.fill len elems].
  split; [reflexivity |]. split; [apply toJSON_fill |].
  split; [| split; [| split; [| split]]].
  - intros r Hr. rewrite fillFrom_lookup. case_decide; [| lia].
    eexists. split; [reflexivity |]. unfold int32. lia.
  - rewrite fillFrom_lookup. case_decide; [done | lia].
  - lia.
  - intros a Ha. rewrite fillFrom_lookup. case_decide; [by eexists | lia].
  - intros a b. rewrite fillFrom_lookup. case_decide; [| done]. intros [= <-]. lia.
Qed.

(** X24: the state a successful Run answers with has 32 registers,
    each a signed 32-bit integer, register 0 being 0, and exactly 256
    memory cells, each a byte between 0 and 255. *)
Theorem X24_run_response_shape code fuel server snap :
  Controller.executeProgram fuel code = Some (server, Ok snap) →
  len (s_registers snap) = 32 ∧
  (∀ r, 0 <= r <= 31 → ∃ v, Arr.get (s_registers snap) r = Some v ∧ int32 v) ∧
  Arr.get (s_registers snap) 0 = Some 0 ∧
  len (s_memory snap) = 256 ∧
  (∀ a, 0 <= a < 256 → ∃ b, Arr.get (s_memory snap) a = Some b ∧ 0 <= b <= 255) ∧
  (∀ a, ¬ 0 <= a < 256 → Arr.get (s_memory snap) a = None).
Proof.
  unfold Controller.executeProgram.
  destruct (Parser.parse code) as [program | e |] eqn:Hparse; try discriminate.
  set (s0 := set_instructions (Some program) Controller.initialState).
  destruct (Controller.runLoop fuel program s0) as [[sf [[] | e |]] |] eqn:Hloop;
    try discriminate.
  intros [= <- <-].
  assert (Hstep : ∀ st d st', wellFormed st → Controller.running program st = true →
            Decoder.decode (nth_instruction program (pc st)) = Ok d →
            Executor.execute d st = Ok st' → wellFormed st').
  { intros st d st' Hw _ Hd He. apply (wellFormed_execute d st st'); [| done | done].
    destruct (nth_instruction program (pc st)) as [i |]; [| discriminate].
    by destruct (decode_operands i d Hd). }
  destruct (runLoop_invariant wellFormed program Hstep fuel s0 sf (Ok tt)
              (wellFormed_initial program) Hloop)
    as [(Hlen & Hclean & Hregs & H0 & Hmlen & Hmdef & Hmbyte) _].
  unfold Controller.snapshot. cbn [s_registers s_memory].
  rewrite Hclean, toJSON_slice0.
  split; [exact Hlen |]. split; [exact Hregs |]. split; [exact H0 |].
  split; [cbn [Arr.slice0 len]; lia |]. split.
  - intros a Ha. rewrite get_slice0. case_decide; [| lia].
    destruct (Hmdef a ltac:(lia)) as [b Hb]. exists b. split; [exact Hb |].
    by apply (Hmbyte a).
  - intros a Ha. rewrite get_slice0. case_decide; [lia | done].
Qed.

Lemma X24_witness :
  match Controller.executeProgram 5 scenario with
  | Some (_, Ok snap) => len (s_registers snap) = 32 ∧ len (s_memory snap) = 256
  | _ => True
  end.
Proof.
  destruct (Controller.executeProgram 5 scenario) as [[server [snap | e |]] |] eqn:E;
    try exact I.
  destruct (X24_run_response_shape scenario 5 server snap E) as (Hr & _ & _ & Hm & _).
  split; [exact Hr | exact Hm].
Defined.

(** X25: a successful Run ends in one of two ways: halted, with the
    program counter on a HLT instruction of the program, or not halted,
    with the program counter at or past the end of the program. *)
Theorem X25_run_ends_on_halt_or_past_the_end code fuel program server snap :
  Parser.parse code = Ok program →
  Controller.executeProgram fuel code = Some (server, Ok snap) →
  (s_halted snap = true ∧
   ∃ i, nth_instruction program (s_pc snap) = Some i ∧ i_opcode i = HLT) ∨
  (s_halted snap = false ∧ Z.of_nat (length program) <= s_pc snap).
Proof.
  intros Hparse. unfold Controller.executeProgram. rewrite Hparse.
  set (s0 := set_instructions (Some program) Controller.initialState).
  destruct (Controller.runLoop fuel program s0) as [[sf [[] | e |]] |] eqn:Hloop;
    try discriminate.
  intros [= <- <-].
  assert (Hstep : ∀ st d st', haltedAtHLT program st →
            Controller.running program st = true →
            Decoder.decode (nth_instruction program (pc st)) = Ok d →
            Executor.execute d st = Ok st' → haltedAtHLT program st').
  { intros st d st' _ Hrun Hd He Hh.
    destruct (execute_keeps d st st' He) as (_ & Hhalt & _ & _ & Hpc).
    unfold Controller.running in Hrun. apply andb_true_iff in Hrun as [Hnh _].
    apply negb_true_iff in Hnh. rewrite Hh, Hnh in Hhalt. cbn [orb] in Hhalt.
    symmetry in Hhalt. apply bool_decide_eq_true in Hhalt.
    rewrite (Hpc Hhalt).
    destruct (nth_instruction program (pc st)) as [i |]; [| discriminate].
    exists i. split; [done |]. destruct (decode_operands i d Hd) as [<- _]. exact Hhalt. }
  destruct (runLoop_invariant (haltedAtHLT program) program Hstep fuel s0 sf (Ok tt)
              ltac:(intros ?; discriminate) Hloop) as [Hinv Hstop].
  unfold Controller.snapshot. cbn [s_pc s_halted].
  destruct (halted sf) eqn:Hh; [left; split; [done | by apply Hinv] | right].
  split; [done |]. unfold Controller.running in Hstop. rewrite Hh in Hstop.
  cbn [negb andb] in Hstop. by apply Z.ltb_ge in Hstop.
Qed.

Lemma X25_witness :
  match Controller.executeProgram 5 scenario with
  | Some (_, Ok snap) =>
      (s_halted snap = true ∧
       ∃ i, nth_instruction scenarioProgram (s_pc snap) = Some i ∧ i_opcode i = HLT) ∨
      (s_halted snap = false ∧ Z.of_nat (length scenarioProgram) <= s_pc snap)
  | _ => True
  end.
Proof.
  destruct (Controller.executeProgram 5 scenario) as [[server [snap | e |]] |] eqn:E;
    try exact I.
  apply (X25_run_ends_on_halt_or_past_the_end scenario 5 scenarioProgram server snap);
    [vm_compute; reflexivity | exact E].
Defined.

Lemma execute_advances d st st' :
  Executor.execute d st = Ok st' →
  isBranch (d_opcode d) = false → isJump (d_opcode d) = false →
  pc st' = pc st + 1 ∨ halted st' = true.
Proof.
  destruct d as [op ty fmt idx ln orig rd rs1 rs2 imm shamt lbl].
  intros H Hb Hj. unfold Executor.execute in H. cbn [d_opcode] in *.
  destruct op; try discriminate; unfold_handler in H;
    cbn [d_rd d_rs1 d_rs2 d_imm] in H; invert_execute H;
    unfold Executor.incrementPC, Executor.halt, Executor.writeByte,
      Executor.writeHalfWord, Executor.writeWord;
    cbn [pc halted set_pc set_halted set_memory]; rewrite ?pc_setRegister; auto.
Qed.

Lemma runLoop_straight program :
  Forall straightLine program →
  ∀ (n : nat) st, Z.of_nat (length program) - pc st <= Z.of_nat n →
    ∃ r, Controller.runLoop n program st = Some r.
Proof.
  intros Hall. induction n as [| n IH]; intros st Hn; cbn [Controller.runLoop];
    destruct (Controller.running program st) eqn:Hrun; try by eexists.
  - unfold Controller.running in Hrun. apply andb_true_iff in Hrun as [_ Hlt].
    apply Z.ltb_lt in Hlt. lia.
  - destruct (Controller.executeNext program st) as [st' | e |] eqn:He; try by eexists.
    unfold Controller.executeNext in He.
    destruct (nth_instruction program (pc st)) as [i |] eqn:Hi; [| discriminate].
    destruct (Decoder.decode (Some i)) as [d | |] eqn:Hd; try discriminate.
    cbn [mbind Result_bind] in He.
    destruct (nth_instruction_Some _ _ _ Hi) as (k & _ & Hk).
    rewrite Forall_lookup in Hall. destruct (Hall k i Hk) as [Hb Hj].
    destruct (decode_operands i d Hd) as [Hop _]. rewrite <- Hop in Hb, Hj.
    destruct (execute_advances d st st' He Hb Hj) as [Hpc | Hh].
    + apply IH. lia.
    + rewrite runLoop_stopped; [by eexists |].
      unfold Controller.running. by rewrite Hh.
Qed.

(** X26: a program without branches and jumps is run to its end: Run
    answers as soon as its loop may take as many steps as the program
    has instructions. *)
Theorem X26_straight_line_run_terminates code program (fuel : nat) :
  Parser.parse code = Ok program →
  Forall straightLine program →
  (length program <= fuel)%nat →
  ∃ server response, Controller.executeProgram fuel code = Some (server, response).
Proof.
  intros Hparse Hall Hfuel. unfold Controller.executeProgram. rewrite Hparse.
  destruct (runLoop_straight program Hall fuel
              (set_instructions (Some program) Controller.initialState))
    as [[sf r] ->].
  - cbn [pc set_instructions Controller.initialState]. lia.
  - destruct r as [[] | e |]; by eexists _, _.
Qed.

Lemma X26_witness :
  ∃ server response, Controller.executeProgram 5 scenario = Some (server, response).
Proof.
  apply (X26_straight_line_run_terminates scenario scenarioProgram 5).
  - vm_compute. reflexivity.
  - repeat constructor.
  - cbn. lia.
Defined.

(** X27: Step requests that carry no state run on the state the server
    keeps: after a Reset, [n] such requests answer what Run's loop ends
    with, whenever the loop ends within [n] instructions; and when [n]
    is not 0 the server is left with the very state the loop ends on. *)
Theorem X27_server_steps code program (n fuel : nat) sf :
  Parser.parse code = Ok program →
  Controller.runLoop fuel program
    (set_instructions (Some program) Controller.initialState) = Some (sf, Ok tt) →
  (fuel <= n)%nat →
  ∃ tf, Controller.stepServer code n = (tf, Ok (Controller.snapshot sf)) ∧
        (n ≠ O → tf = sf).
Proof.
  intros Hparse Hloop Hn.
  exact (server_steps_follow_run code program Hparse n fuel sf Hloop Hn).
Qed.

Lemma X27_witness :
  match Controller.runLoop 5 scenarioProgram
          (set_instructions (Some scenarioProgram) Controller.initialState) with
  | Some (sf, Ok _) =>
      ∃ tf, Controller.stepServer scenario 7 = (tf, Ok (Controller.snapshot sf))
  | _ => True
  end.
Proof.
  destruct (Controller.runLoop 5 scenarioProgram
              (set_instructions (Some scenarioProgram) Controller.initialState))
    as [[sf [[] | e |]] |] eqn:E; try exact I.
  destruct (X27_server_steps scenario scenarioProgram 7 5 sf
              ltac:(vm_compute; reflexivity) E ltac:(lia)) as (tf & Hs & _).
  exists tf. exact Hs.
Defined.

(** ** The [Simulator] class *)

(** X28: registers of the [Simulator] class.  Outside 0..31 both
    [getRegister] and [setRegister] raise the invalid-register error.
    Inside, a write is read back wrapped to 32 bits, except at register
    0 which reads 0; it changes no other register, nor the memory, the
    program counter or the halted flag. *)
Theorem X28_class_registers s reg value :
  ((reg < 0 ∨ 31 < reg) →
   Simulator.getRegister s reg = Throw (InvalidRegister reg) ∧
   Simulator.setRegister s reg value = Throw (InvalidRegister reg)) ∧
  (0 <= reg <= 31 →
   ∃ s', Simulator.setRegister s reg value = Ok s' ∧
     Simulator.getRegister s' reg = Ok (if reg =? 0 then 0 else JS.toInt32 value) ∧
     (∀ r, r ≠ reg → Simulator.getRegister s' r = Simulator.getRegister s r) ∧
     Simulator.memory s' = Simulator.memory s ∧ Simulator.pc s' = Simulator.pc s ∧
     Simulator.halted s' = Simulator.halted s).
Proof.
  unfold Simulator.getRegister, Simulator.setRegister. split.
  - intros Hr. destruct (Z.ltb_spec reg 0), (Z.ltb_spec 31 reg); cbn [orb];
      try (split; reflexivity); lia.
  - intros Hr. destruct (Z.ltb_spec reg 0), (Z.ltb_spec 31 reg); cbn [orb]; try lia.
    destruct (Z.eqb_spec reg 0) as [-> | Hne]; cbn [negb].
    + exists s. repeat split; reflexivity.
    + eexists. split; [reflexivity |]. cbn [Simulator.registers Simulator.memory
        Simulator.pc Simulator.halted].
      destruct (Z.ltb_spec reg 0), (Z.ltb_spec 31 reg); cbn [orb]; try lia.
      destruct (Z.eqb_spec reg 0); [done |].
      rewrite get_set_eq, bor_0. split; [reflexivity |]. split; [| by repeat split].
      intros r Hrr. destruct ((r <? 0) || (31 <? r)); [reflexivity |].
      destruct (r =? 0); [reflexivity |]. by rewrite get_set_ne.
Qed.

Lemma X28_witness :
  Simulator.setRegister Simulator.reset 32 7 = Throw (InvalidRegister 32) ∧
  ∃ s', Simulator.setRegister Simulator.reset 5 (2 ^ 32 + 7) = Ok s' ∧
        Simulator.getRegister s' 5 = Ok 7.
Proof.
  split.
  - apply (proj1 (X28_class_registers Simulator.reset 32 7)). right. lia.
  - destruct (proj2 (X28_class_registers Simulator.reset 5 (2 ^ 32 + 7)) ltac:(lia))
      as (s' & Hs & Hg & _).
    exists s'. split; [exact Hs | exact Hg].
Defined.

Lemma toInt32_high x : 2 ^ 31 <= x < 2 ^ 32 → JS.toInt32 x = x - 2 ^ 32.
Proof.
  intros Hx. unfold JS.toInt32. cbv zeta. rewrite Z.mod_small by lia.
  destruct (Z.ltb_spec x (2 ^ 31)); lia.
Qed.

Lemma word_from_bytes b0 b1 b2 b3 :
  0 <= b0 <= 255 → 0 <= b1 <= 255 → 0 <= b2 <= 255 → 0 <= b3 <= 255 →
  JS.bor (JS.bor (JS.bor b0 (JS.shl b1 8)) (JS.shl b2 16)) (JS.shl b3 24)
  = JS.toInt32 (b0 + 256 * b1 + 65536 * b2 + 16777216 * b3).
Proof.
  intros H0 H1 H2 H3.
  rewrite !shl_mul by lia.
  rewrite (toInt32_id (b1 * 2 ^ 8)) by (unfold int32; lia).
  rewrite (toInt32_id (b2 * 2 ^ 16)) by (unfold int32; lia).
  rewrite (bor_add_disjoint b0) by (unfold int32; lia).
  rewrite (bor_add_disjoint (b0 + _)) by (unfold int32; lia).
  destruct (Z_lt_dec b3 128).
  - rewrite (toInt32_id (b3 * 2 ^ 24)) by (unfold int32; lia).
    rewrite (bor_add_disjoint (b0 + _ + _)) by (unfold int32; lia).
    rewrite toInt32_id by (unfold int32; lia). lia.
  - rewrite (toInt32_high (b3 * 2 ^ 24)) by lia.
    replace (b3 * 2 ^ 24 - 2 ^ 32) with ((b3 - 256) * 2 ^ 24) by lia.
    rewrite (bor_add_disjoint (b0 + _ + _)) by (unfold int32; lia).
    rewrite toInt32_high by lia. lia.
Qed.

Lemma half_from_bytes b0 b1 :
  0 <= b0 <= 255 → 0 <= b1 <= 255 → JS.bor b0 (JS.shl b1 8) = b0 + 256 * b1.
Proof.
  intros H0 H1. rewrite shl_mul by lia.
  rewrite (toInt32_id (b1 * 2 ^ 8)) by (unfold int32; lia).
  rewrite (bor_add_disjoint b0) by (unfold int32; lia). lia.
Qed.

Lemma byteAt_insert s a v b :
  Simulator.byteAt (Simulator.with_memory (<[a := v]> (Simulator.memory s)) s) b
  = if decide (a = b) then v else Simulator.byteAt s b.
Proof.
  unfold Simulator.byteAt, Simulator.with_memory. cbn [Simulator.memory].
  rewrite lookup_insert. by case_decide.
Qed.

Lemma div_mod_toInt32 v k :
  k = 8 ∨ k = 16 ∨ k = 24 → (JS.toInt32 v / 2 ^ k) mod 256 = (v / 2 ^ k) mod 256.
Proof.
  intros Hk.
  assert (H : ∀ x, (x / 2 ^ k) mod 256 = (x mod 2 ^ 32) / 2 ^ k mod 256).
  { intros x. assert (0 < 2 ^ k) by (apply Z.pow_pos_nonneg; lia).
    assert (H32 : 2 ^ 32 = 2 ^ k * (256 * 2 ^ (24 - k))).
    { change 256 with (2 ^ 8). rewrite <- !Z.pow_add_r by lia. f_equal. lia. }
    assert (0 < 2 ^ (24 - k)) by (apply Z.pow_pos_nonneg; lia).
    rewrite H32. rewrite Z.rem_mul_r by lia.
    rewrite (Z.mul_comm (2 ^ k)), Z.div_add by lia.
    rewrite (Z.div_small (x mod 2 ^ k)) by (apply Z.mod_pos_bound; lia).
    rewrite Z.add_0_l. symmetry. apply Z.mod_mod_divide. exists (2 ^ (24 - k)). lia. }
  rewrite (H (JS.toInt32 v)), (H v). by rewrite toInt32_mod.
Qed.

Lemma sameBytes_initial : sameBytes (memory Controller.initialState) Simulator.reset.
Proof.
  intros a. unfold Simulator.byteAt, Arr.getOr0, Arr.get.
  cbn [memory Controller.initialState Arr.fill elems Simulator.memory Simulator.reset].
  rewrite lookup_empty, fillFrom_lookup. cbn [default from_option id].
  split; [by case_decide | lia].
Qed.

(** X29: the memory the executor builds over a plain state against the
    memory of the [Simulator] class, when both hold the same bytes.
    Wherever the class accepts an access, the executor's word and
    half-word reads return what the class returns, and the writes leave
    the same bytes in both.  The one difference is [readByte]: the class
    returns the byte unsigned, the executor's own function the byte
    sign-extended. *)
Theorem X29_adapter_matches_class st s a :
  sameBytes (memory st) s →
  (Simulator.validateAddress s a 4 = Ok tt →
   Simulator.readWord s a = Ok (Executor.readWord st a) ∧
   ∀ v, ∃ s', Simulator.writeWord s a v = Ok s' ∧
              sameBytes (memory (Executor.writeWord st a v)) s') ∧
  (Simulator.validateAddress s a 2 = Ok tt →
   Simulator.readHalfWord s a = Ok (Executor.readHalfWord st a) ∧
   Simulator.readHalfWordUnsigned s a = Ok (Executor.readHalfWordUnsigned st a) ∧
   ∀ v, ∃ s', Simulator.writeHalfWord s a v = Ok s' ∧
              sameBytes (memory (Executor.writeHalfWord st a v)) s') ∧
  (Simulator.validateAddress s a 1 = Ok tt →
   Simulator.readByteUnsigned s a = Ok (Executor.readByteUnsigned st a) ∧
   Simulator.readByte s a = Ok (Executor.readByteUnsigned st a) ∧
   Executor.readByte st a = signedLow 8 (Executor.readByteUnsigned st a) ∧
   ∀ v, ∃ s', Simulator.writeByte s a v = Ok s' ∧
              sameBytes (memory (Executor.writeByte st a v)) s').
Proof.
  intros Hm.
  assert (Hg : ∀ b, Arr.getOr0 (memory st) b = Simulator.byteAt s b) by (intros b; apply Hm).
  assert (Hr : ∀ b, 0 <= Simulator.byteAt s b <= 255) by (intros b; apply Hm).
  assert (Hmod : ∀ x, 0 <= x mod 256 <= 255)
    by (intros x; pose proof (Z.mod_pos_bound x 256 ltac:(lia)); lia).
  split; [| split].
  - intros Hv. unfold Simulator.readWord, Simulator.writeWord. rewrite Hv.
    cbn [mbind Result_bind]. split.
    + f_equal. unfold Simulator.getInt32, Executor.readWord. rewrite !Hg.
      symmetry. by apply word_from_bytes.
    + intros v. eexists. split; [reflexivity |]. intros b.
      unfold Executor.writeWord, Simulator.setInt32, Simulator.byteAt,
        Simulator.with_memory. cbn [memory set_memory Simulator.memory].
      rewrite !getOr0_set, !orZero_id, !lookup_insert, Hg.
      rewrite !sar_div_const, band_255, bor_0 by lia.
      change (2 ^ 8) with 256. change (2 ^ 16) with 65536. change (2 ^ 24) with 16777216.
      replace (v mod 256) with (JS.toInt32 v mod 256)
        by (apply (toInt32_mod_pow2 v 8); lia).
      repeat case_decide; cbn [default from_option id]; try lia; (split; [reflexivity |]);
        first [apply Hmod | apply Hr].
  - intros Hv. unfold Simulator.readHalfWord, Simulator.readHalfWordUnsigned,
      Simulator.writeHalfWord. rewrite Hv. cbn [mbind Result_bind].
    assert (Hu : Executor.readHalfWordUnsigned st a = Simulator.getUint16 s a).
    { unfold Simulator.getUint16, Executor.readHalfWordUnsigned. rewrite !Hg.
      by apply half_from_bytes. }
    split; [| split].
    + f_equal. unfold Executor.readHalfWord. rewrite Hu. unfold Simulator.getInt16.
      cbv zeta.
      destruct (Z.ltb_spec 32767 (Simulator.getUint16 s a)),
        (Z.ltb_spec (Simulator.getUint16 s a) 32768); try reflexivity; lia.
    + by rewrite Hu.
    + intros v. eexists. split; [reflexivity |]. intros b.
      unfold Executor.writeHalfWord, Simulator.setInt16, Simulator.byteAt,
        Simulator.with_memory. cbn [memory set_memory Simulator.memory].
      rewrite !getOr0_set, !orZero_id, !lookup_insert, Hg.
      rewrite sar_div_const, !band_255, band_65535 by lia.
      change (2 ^ 8) with 256.
      assert (E0 : (v mod 65536) mod 256 = v mod 256).
      { apply Z.mod_mod_divide. exists 256. lia. }
      assert (E1 : (v mod 65536 / 256) mod 256 = (JS.toInt32 v / 256) mod 256).
      { pose proof (div_mod_toInt32 v 8 ltac:(tauto)) as E. change (2 ^ 8) with 256 in E.
        rewrite E.
        change 65536 with (256 * 256). rewrite Z.rem_mul_r by lia.
        rewrite (Z.mul_comm 256), Z.div_add by lia.
        rewrite (Z.div_small (v mod 256)) by (apply Z.mod_pos_bound; lia).
        rewrite Z.add_0_l. apply Z.mod_mod. lia. }
      rewrite E0, E1.
      repeat case_decide; cbn [default from_option id]; try lia; (split; [reflexivity |]);
        first [apply Hmod | apply Hr].
  - intros Hv. unfold Simulator.readByteUnsigned, Simulator.readByte,
      Simulator.writeByte. rewrite Hv. cbn [mbind Result_bind].
    unfold Executor.readByteUnsigned, Executor.readByte, Simulator.getUint8.
    rewrite Hg. split; [reflexivity |]. split; [reflexivity |]. split.
    + unfold signedLow. cbv zeta. change (2 ^ 8) with 256. change (2 ^ (8 - 1)) with 128.
      specialize (Hr a). rewrite (Z.mod_small (Simulator.byteAt s a)) by lia.
      destruct (Z.ltb_spec 127 (Simulator.byteAt s a)),
        (Z.ltb_spec (Simulator.byteAt s a) 128); try reflexivity; lia.
    + intros v. eexists. split; [reflexivity |]. intros b.
      unfold Executor.writeByte, Simulator.setUint8, Simulator.byteAt,
        Simulator.with_memory. cbn [memory set_memory Simulator.memory].
      rewrite !getOr0_set, !orZero_id, !lookup_insert, Hg, !band_255.
      rewrite Z.mod_mod by lia.
      repeat case_decide; cbn [default from_option id]; try lia; (split; [reflexivity |]);
        first [apply Hmod | apply Hr].
Qed.

Lemma X29_witness :
  Simulator.readWord Simulator.reset 4
  = Ok (Executor.readWord Controller.initialState 4).
Proof.
  exact (proj1 (proj1 (X29_adapter_matches_class Controller.initialState Simulator.reset 4
                         sameBytes_initial) eq_refl)).
Defined.

Lemma holdsBytes_byteAt s a : holdsBytes s → 0 <= Simulator.byteAt s a <= 255.
Proof.
  intros H. unfold Simulator.byteAt.
  destruct (Simulator.memory s !! a) as [v |] eqn:E; cbn; [by apply (H a) | lia].
Qed.

Lemma setBytes_selected (src : Simulator.t) (keep : Z → bool) idxs : ∀ s,
  (∀ i, i ∈ idxs → 0 <= i < Simulator.byteLength) →
  ∃ s',
    Simulator.setBytes s
      (omap (λ i, if keep i then Some (i, Simulator.byteAt src i) else None) idxs)
    = (s', None) ∧
    Simulator.registers s' = Simulator.registers s ∧
    Simulator.pc s' = Simulator.pc s ∧
    Simulator.instructions s' = Simulator.instructions s ∧
    Simulator.halted s' = Simulator.halted s ∧
    ∀ a, Simulator.byteAt s' a
         = if decide (a ∈ idxs ∧ keep a = true) then Simulator.byteAt src a mod 256
           else Simulator.byteAt s a.
Proof.
  induction idxs as [| i rest IH]; intros s Hin.
  - exists s. cbn [omap list_omap Simulator.setBytes].
    split; [reflexivity |]. split; [reflexivity |]. split; [reflexivity |].
    split; [reflexivity |]. split; [reflexivity |].
    intros a. case_decide as H; [| reflexivity]. destruct H as [H _]. by apply elem_of_nil in H.
  - assert (Hrest : ∀ j, j ∈ rest → 0 <= j < Simulator.byteLength)
      by (intros j Hj; apply Hin; by right).
    cbn [omap list_omap]. destruct (keep i) eqn:Hk.
    + cbn [Simulator.setBytes]. pose proof (Hin i ltac:(by left)) as Hi.
      destruct (Z.ltb_spec i 0), (Z.leb_spec Simulator.byteLength i); cbn [orb]; try lia.
      destruct (IH (Simulator.setUint8 s i (Simulator.byteAt src i)) Hrest)
        as (s' & -> & Hr & Hp & Hins & Hh & Hb).
      exists s'. split; [reflexivity |].
      split; [exact Hr |]. split; [exact Hp |]. split; [exact Hins |].
      split; [exact Hh |].
      intros a. rewrite Hb. unfold Simulator.setUint8. rewrite byteAt_insert.
      destruct (decide (i = a)) as [<- | Hne].
      * rewrite (decide_True (P := i ∈ i :: rest ∧ keep i = true))
          by (split; [by left | done]).
        case_decide; [reflexivity | reflexivity].
      * destruct (decide (a ∈ rest ∧ keep a = true)) as [[Ha Hka] | Hn].
        -- rewrite decide_True by (split; [by right | done]). reflexivity.
        -- rewrite decide_False; [reflexivity |]. intros [Ha Hka]. apply Hn.
           apply elem_of_cons in Ha as [-> | Ha]; [done | by split].
    + destruct (IH s Hrest) as (s' & -> & Hr & Hp & Hins & Hh & Hb).
      exists s'. split; [reflexivity |].
      split; [exact Hr |]. split; [exact Hp |]. split; [exact Hins |].
      split; [exact Hh |].
      intros a. rewrite Hb.
      destruct (decide (a ∈ rest ∧ keep a = true)) as [[Ha Hka] | Hn].
      * rewrite decide_True by (split; [by right | done]). reflexivity.
      * rewrite decide_False; [reflexivity |]. intros [Ha Hka]. apply Hn.
        apply elem_of_cons in Ha as [-> | Ha]; [congruence | by split].
Qed.

Lemma holdsBytes_byteAt300 : holdsBytes (Simulator.core byteAt300).
Proof.
  intros a v. unfold byteAt300, Simulator.setUint8, Simulator.with_memory.
  cbn [Simulator.core Simulator.memory Simulator.reset].
  rewrite lookup_insert. case_decide; [| by rewrite lookup_empty].
  intros [= <-]. pose proof (Z.mod_pos_bound 7 256 ltac:(lia)). lia.
Qed.

(** X30: [getState] followed by [setState] on another instance
    restores the registers, the program counter, the halted flag and
    the cycle count, and the last ten entries of the history.  Of the
    memory it restores the first 256 bytes and the non-zero bytes below
    1024; every other byte, and the program, are those the other
    instance had. *)
Theorem X30_state_round_trip o target :
  holdsBytes (Simulator.core o) →
  ∃ o', Simulator.setState target (Simulator.getState o) = (o', None) ∧
    Simulator.registers (Simulator.core o')
    = Arr.toJSON (Simulator.registers (Simulator.core o)) ∧
    Simulator.pc (Simulator.core o') = Simulator.pc (Simulator.core o) ∧
    Simulator.halted (Simulator.core o') = Simulator.halted (Simulator.core o) ∧
    Simulator.instructions (Simulator.core o')
    = Simulator.instructions (Simulator.core target) ∧
    Simulator.cycleCount o' = Simulator.cycleCount o ∧
    Simulator.executionHistory o' = Simulator.lastN 10 (Simulator.executionHistory o) ∧
    ∀ a, Simulator.byteAt (Simulator.core o') a
         = if decide (0 <= a < 1024 ∧
                      (Simulator.byteAt (Simulator.core o) a ≠ 0 ∨ a < 256))
           then Simulator.byteAt (Simulator.core o) a
           else Simulator.byteAt (Simulator.core target) a.
Proof.
  intros Hbytes. unfold Simulator.setState, Simulator.getState.
  cbn [Simulator.z_registers Simulator.z_memory Simulator.z_pc Simulator.z_halted
       Simulator.z_cycleCount Simulator.z_executionHistory].
  set (s1 := Simulator.mk _ _ _ _ _).
  destruct (setBytes_selected (Simulator.core o)
              (λ i, negb (Simulator.byteAt (Simulator.core o) i =? 0) || (i <? 256))
              (seqZ 0 (Z.min Simulator.byteLength 1024)) s1)
    as (s' & Hset & Hr & Hp & Hins & Hh & Hb).
  { intros i Hi. apply elem_of_seqZ in Hi. unfold Simulator.byteLength in *. lia. }
  unfold Simulator.getUint8. cbv zeta. rewrite Hset.
  eexists. split; [reflexivity |].
  cbn [Simulator.core Simulator.cycleCount Simulator.executionHistory Simulator.setPC
       Simulator.registers Simulator.pc Simulator.halted Simulator.instructions
       Simulator.memory].
  rewrite Hr, Hins. unfold s1 at 1 2.
  cbn [Simulator.registers Simulator.instructions]. rewrite toJSON_toJSON.
  split; [reflexivity |]. split; [reflexivity |].
  split; [reflexivity |]. split; [reflexivity |]. split; [reflexivity |].
  split; [reflexivity |].
  intros a. change (Simulator.byteAt (Simulator.mk ?r (Simulator.memory s') ?p ?i ?h) a)
    with (Simulator.byteAt s' a).
  rewrite Hb. pose proof (holdsBytes_byteAt (Simulator.core o) a Hbytes) as Hrange.
  rewrite (Z.mod_small (Simulator.byteAt (Simulator.core o) a)) by lia.
  change (Simulator.byteAt s1 a) with (Simulator.byteAt (Simulator.core target) a).
  destruct (Z.eqb_spec (Simulator.byteAt (Simulator.core o) a) 0), (Z.ltb_spec a 256);
    cbn [negb orb]; repeat case_decide; try reflexivity;
    match goal with
    | H : ¬ (_ ∧ _) |- _ => exfalso; apply H
    end;
    repeat match goal with
    | H : _ ∧ _ |- _ => destruct H
    | H : _ ∈ seqZ _ _ |- _ => apply elem_of_seqZ in H
    end; unfold Simulator.byteLength in *;
    (split; [first [apply elem_of_seqZ; unfold Simulator.byteLength; lia | lia]
            | first [reflexivity | tauto | lia]]).
Qed.

Lemma X30_witness :
  ∃ o', Simulator.setState Simulator.create (Simulator.getState byteAt300) = (o', None) ∧
        Simulator.cycleCount o' = 3 ∧
        Simulator.byteAt (Simulator.core o') 300 = 7.
Proof.
  destruct (X30_state_round_trip byteAt300 Simulator.create holdsBytes_byteAt300)
    as (o' & Hs & _ & _ & _ & _ & Hc & _ & Hb).
  exists o'. split; [exact Hs |]. split; [exact Hc |].
  rewrite (Hb 300). reflexivity.
Defined.
